(** * Transformer building blocks of [models/transformer/base.py]

    A shallow embedding of the tensor code of the repository and the
    properties of its positional encoding, attention, feed-forward and
    decoder modules.

    Representation.  A tensor of rank [k] is a [k]-fold nested list of real
    numbers (what [Tensor.tolist()] shows); scalars are real numbers, so the
    arithmetic is exact.  A Python exception is a value [Raise e] of the
    error monad [result].  Random choices (weight initialisation, dropout
    masks) are explicit arguments.  A nested list does not record the sizes
    of the axes below an empty axis; the shape checks of the model are the
    ones of the tensor library on tensors without an empty axis. *)

From Stdlib Require Import List Arith Lia Bool Reals Lra.
Import ListNotations.

Set Implicit Arguments.

(** ** Exceptions *)

Inductive exn : Type :=
| ZeroDivisionError
| AssertionError
| RuntimeError
| ValueError
| IndexError.

Inductive result (A : Type) : Type :=
| Ok (a : A)
| Raise (e : exn).

Arguments Ok {A} a.
Arguments Raise {A} e.

Definition bind {A B : Type} (r : result A) (k : A -> result B) : result B :=
  match r with
  | Ok a => k a
  | Raise e => Raise e
  end.

Notation "x <- e ;; k" := (bind e (fun x => k))
  (at level 61, e at next level, right associativity).

Fixpoint mapM {A B : Type} (f : A -> result B) (l : list A) : result (list B) :=
  match l with
  | [] => Ok []
  | a :: l' => b <- f a ;; bs <- mapM f l' ;; Ok (b :: bs)
  end.

(** ** Nested lists as tensors *)

Section Lists.
Context {X : Type}.

(** [count] consecutive pieces of [size] elements each. *)
Fixpoint chunks (count size : nat) (l : list X) : list (list X) :=
  match count with
  | O => []
  | S c => firstn size l :: chunks c size (skipn size l)
  end.

Definition ncols (m : list (list X)) : nat :=
  match m with
  | [] => 0
  | r :: _ => length r
  end.

(** [cons_cols r t] puts the entries of [r] in front of the rows of [t]. *)
Fixpoint cons_cols (r : list X) (t : list (list X)) : list (list X) :=
  match r, t with
  | a :: r', c :: t' => (a :: c) :: cons_cols r' t'
  | _, _ => []
  end.

(** Transpose of a matrix with [c] columns. *)
Fixpoint transpose (c : nat) (m : list (list X)) : list (list X) :=
  match m with
  | [] => repeat [] c
  | r :: m' => cons_cols r (transpose c m')
  end.

(** The argument of an in-place operation expanded along one axis to the
    size [n] of the target: sizes agree, or the argument has size 1. *)
Definition bcast_to (n : nat) (l : list X) : result (list X) :=
  if length l =? n then Ok l
  else match l with
       | [a] => Ok (repeat a n)
       | _ => Raise RuntimeError
       end.

Fixpoint imap_from (i : nat) {Y : Type} (f : nat -> X -> Y) (l : list X) : list Y :=
  match l with
  | [] => []
  | a :: l' => f i a :: imap_from (S i) f l'
  end.

Definition imap {Y : Type} (f : nat -> X -> Y) (l : list X) : list Y :=
  imap_from 0 f l.

(** A matrix with [r] rows of [c] entries each. *)
Definition rect (r c : nat) (m : list (list X)) : Prop :=
  length m = r /\ Forall (fun row => length row = c) m.

Definition shape3 (b s d : nat) (x : list (list (list X))) : Prop :=
  length x = b /\ Forall (rect s d) x.

Definition shape4 (b h s d : nat) (x : list (list (list (list X)))) : Prop :=
  length x = b /\ Forall (shape3 h s d) x.

(** [grid b h P xs]: [xs] has [b] rows of [h] entries and every entry
    satisfies [P]; [shape4 b h s d] is [grid b h (rect s d)]. *)
Definition grid (b h : nat) (P : X -> Prop) (xs : list (list X)) : Prop :=
  length xs = b /\ Forall (fun l => length l = h /\ Forall P l) xs.
End Lists.

(** The argument [ys] is broadcast to the target [xs] along this axis and [f]
    combines the entries (an in-place operation on [xs]). *)
Definition bzip_in {X Y Z : Type} (f : X -> Y -> result Z)
    (xs : list X) (ys : list Y) : result (list Z) :=
  ys' <- bcast_to (length xs) ys ;;
  mapM (fun xy => f (fst xy) (snd xy)) (combine xs ys').

(** Both operands broadcast along this axis (an out-of-place operation). *)
Definition bzip {X Y Z : Type} (f : X -> Y -> result Z)
    (xs : list X) (ys : list Y) : result (list Z) :=
  if length xs =? length ys then
    mapM (fun xy => f (fst xy) (snd xy)) (combine xs ys)
  else match xs, ys with
       | [x], _ => mapM (fun y => f x y) ys
       | _, [y] => mapM (fun x => f x y) xs
       | _, _ => Raise RuntimeError
       end.

Definition tabulate {X : Type} (n : nat) (f : nat -> X) : list X :=
  map f (seq 0 n).

(** ** Tensors of real numbers *)

Abbreviation vector := (list R).
Abbreviation matrix := (list (list R)).
Abbreviation tensor3 := (list (list (list R))).
Abbreviation tensor4 := (list (list (list (list R)))).
Abbreviation mask3 := (list (list (list bool))).
Abbreviation mask4 := (list (list (list (list bool)))).

Definition sum (v : vector) : R := fold_right Rplus 0%R v.

Definition dot (a b : vector) : R :=
  sum (map (fun ab => (fst ab * snd ab)%R) (combine a b)).

(** [torch.matmul] on two matrices: the inner sizes must agree. *)
Definition matmul2 (a b : matrix) : result matrix :=
  if forallb (fun row => length row =? length b) a
  then Ok (map (fun row => map (dot row) (transpose (ncols b) b)) a)
  else Raise RuntimeError.

(** [torch.matmul] on rank-4 tensors: the two leading axes are batch axes. *)
Definition matmul4 (a b : tensor4) : result tensor4 :=
  bzip (bzip matmul2) a b.

(** [t.transpose(-1, -2)] on a rank-4 tensor. *)
Definition transpose_last2 (t : tensor4) : tensor4 :=
  map (map (fun m => transpose (ncols m) m)) t.

(** [t.transpose(1, 2)] on a rank-4 tensor whose axis 2 has size [c]. *)
Definition transpose_1_2 (c : nat) (t : tensor4) : tensor4 :=
  map (transpose c) t.

(** [t.view(b, -1, h, dk)] on a contiguous rank-3 tensor: the elements in
    row-major order, regrouped; the size written [-1] is inferred. *)
Definition view4 (b h dk : nat) (t : tensor3) : result tensor4 :=
  let flat := concat (concat t) in
  let known := b * h * dk in
  if known =? 0 then Raise RuntimeError
  else if length flat mod known =? 0 then
    let s := length flat / known in
    Ok (chunks b s (chunks (b * s) h (chunks (b * s * h) dk flat)))
  else Raise RuntimeError.

(** [t.reshape(b, -1, d)] on a rank-4 tensor. *)
Definition reshape3 (b d : nat) (t : tensor4) : result tensor3 :=
  let flat := concat (concat (concat t)) in
  let known := b * d in
  if known =? 0 then Raise RuntimeError
  else if length flat mod known =? 0 then
    let s := length flat / known in
    Ok (chunks b s (chunks (b * s) d flat))
  else Raise RuntimeError.

(** [x += t] on rank-3 tensors. *)
Definition iadd3 (x t : tensor3) : result tensor3 :=
  bzip_in (bzip_in (bzip_in (fun a b => Ok (a + b)%R))) x t.

(** [scores.masked_fill_(mask, v)]. *)
Definition masked_fill4 (scores : tensor4) (mask : mask4) (v : R) : result tensor4 :=
  bzip_in (bzip_in (bzip_in (bzip_in
    (fun s (m : bool) => Ok (if m then v else s))))) scores mask.

Definition softmax (row : vector) : vector :=
  let z := sum (map exp row) in
  map (fun v => (exp v / z)%R) row.

(** [torch.softmax(t, dim=-1)]. *)
Definition softmax_last (t : tensor4) : tensor4 :=
  map (map (map softmax)) t.

Definition relu (v : R) : R := Rmax 0 v.

Definition ReLU (x : tensor3) : tensor3 := map (map (map relu)) x.

(** ** nn.Dropout *)

(** A module in evaluation mode, or in training mode with the sampled keep
    mask of the call ([keep b s d] for the entry at index [(b, s, d)]). *)
Inductive mode : Type :=
| Eval
| Train (keep : nat -> nat -> nat -> bool).

Module Dropout.
Record t : Type := { p : R }.

Definition init (prob : R) : result t :=
  if Rle_dec 0 prob then
    if Rle_dec prob 1 then Ok {| p := prob |} else Raise ValueError
  else Raise ValueError.

(** A kept entry is scaled by [1 / (1 - p)], a dropped one is zero; with
    [p = 1] every entry is zero. *)
Definition drop (prob : R) (k : bool) (v : R) : R :=
  if Req_dec_T prob 1 then 0%R
  else if k then (v * / (1 - prob))%R else 0%R.

Definition forward (self : t) (m : mode) (x : tensor3) : tensor3 :=
  match m with
  | Eval => x
  | Train keep =>
      imap (fun b => imap (fun s => imap (fun d v => drop (p self) (keep b s d) v))) x
  end.
End Dropout.

(** ** nn.Linear *)

Module Linear.
Record t : Type := {
  in_features : nat;
  out_features : nat;
  weight : matrix;          (* [out_features, in_features] *)
  bias : option vector
}.

(** [w] and [b] are the initial values drawn for the parameters. *)
Definition init (n_in n_out : nat) (has_bias : bool)
    (w : nat -> nat -> R) (b : nat -> R) : t :=
  {| in_features := n_in;
     out_features := n_out;
     weight := tabulate n_out (fun j => tabulate n_in (fun i => w j i));
     bias := if has_bias then Some (tabulate n_out b) else None |}.

Definition apply_row (self : t) (row : vector) : vector :=
  let y := map (dot row) (weight self) in
  match bias self with
  | Some b => map (fun yb => (fst yb + snd yb)%R) (combine y b)
  | None => y
  end.

Definition forward (self : t) (x : tensor3) : result tensor3 :=
  mapM (mapM (fun row =>
    if length row =? in_features self then Ok (apply_row self row)
    else Raise RuntimeError)) x.
End Linear.

(** ** nn.LayerNorm, constructed at the call: weight one, bias zero *)

Module LayerNorm.
Definition eps : R := 1e-5.

Definition mean (v : vector) : R := (sum v / INR (length v))%R.

Definition var (v : vector) : R :=
  (sum (map (fun a => (a - mean v) * (a - mean v)) v) / INR (length v))%R.

Definition normalize (v : vector) : vector :=
  map (fun a => ((a - mean v) / sqrt (var v + eps) * 1 + 0)%R) v.

Definition forward (normalized_shape : nat) (x : tensor3) : result tensor3 :=
  mapM (mapM (fun row =>
    if length row =? normalized_shape then Ok (normalize row)
    else Raise RuntimeError)) x.
End LayerNorm.

(** ** nn.Embedding *)

Module Embedding.
Definition forward (table : matrix) (ids : list (list nat)) : result tensor3 :=
  mapM (mapM (fun i =>
    match nth_error table i with
    | Some row => Ok row
    | None => Raise IndexError
    end)) ids.
End Embedding.

(** ** class PositionalEncoding *)

Module PositionalEncoding.
Record t : Type := {
  dropout : Dropout.t;
  pe : tensor3              (* the buffer, [max_len, 1, d_model] *)
}.

(** [torch.arange(0, d_model, 2)]. *)
Definition arange2 (d_model : nat) : list nat :=
  map (fun k => 2 * k) (seq 0 (Nat.div2 (d_model + 1))).

Definition div_term (d_model : nat) : vector :=
  map (fun k => exp (INR k * (- ln 10000 / INR d_model))%R) (arange2 d_model).

Definition position (max_len : nat) : vector := map INR (seq 0 max_len).

(** [row[0::2] = vals], for [vals] with one value per even index. *)
Fixpoint set_even (row vals : vector) : vector :=
  match row, vals with
  | _ :: rest, v :: vs =>
      v :: match rest with
           | [] => []
           | b :: rest' => b :: set_even rest' vs
           end
  | _, _ => row
  end.

(** [row[1::2] = vals]. *)
Definition set_odd (row vals : vector) : vector :=
  match row with
  | [] => []
  | a :: rest => a :: set_even rest vals
  end.

(** [target[:, k::2] = value]: the value, of [cols] columns, is broadcast to
    the slice, which has [slots] columns.  The column sizes are compared
    also when there is no row. *)
Definition assign_cols (set : vector -> vector -> vector) (slots cols : nat)
    (target value : matrix) : result matrix :=
  _ <- bcast_to slots (repeat tt cols) ;;
  bzip_in (fun row vals => vals' <- bcast_to slots vals ;; Ok (set row vals'))
          target value.

Definition init (d_model : nat) (prob : R) (max_len : nat) : result t :=
  drop <- Dropout.init prob ;;
  let pe0 := repeat (repeat 0%R d_model) max_len in
  if d_model =? 0 then Raise ZeroDivisionError
  else
    let angle := map (fun pos => map (fun w => (pos * w)%R) (div_term d_model))
                     (position max_len) in
    let cols := length (div_term d_model) in
    pe1 <- assign_cols set_even (Nat.div2 (d_model + 1)) cols pe0 (map (map sin) angle) ;;
    pe2 <- assign_cols set_odd (Nat.div2 d_model) cols pe1 (map (map cos) angle) ;;
    (* pe.unsqueeze(0).transpose(0, 1) *)
    Ok {| dropout := drop; pe := map (fun row => [row]) pe2 |}.

Definition forward (self : t) (m : mode) (x : tensor3) : result tensor3 :=
  x' <- iadd3 x (firstn (length x) (pe self)) ;;
  Ok (Dropout.forward (dropout self) m x').
End PositionalEncoding.

(** ** class ScaleDotProductAttention *)

Module ScaleDotProductAttention.
(** The attention weights [attn] of [forward]. *)
Definition attn (Q K : tensor4) (attn_mask : mask4) (d_k : nat) : result tensor4 :=
  qk <- matmul4 Q (transpose_last2 K) ;;
  let scores := map (map (map (map (fun v => (v / sqrt (INR d_k))%R)))) qk in
  scores' <- masked_fill4 scores attn_mask (-1e9)%R ;;
  Ok (softmax_last scores').

Definition forward (Q K V : tensor4) (attn_mask : mask4) (d_k : nat) : result tensor4 :=
  a <- attn Q K attn_mask d_k ;;
  matmul4 a V.
End ScaleDotProductAttention.

(** ** class MultiheadAttention *)

Module MultiheadAttention.
Record t : Type := {
  embed_dim : nat;
  num_heads : nat;
  dropout : R;
  head_dim : nat;
  q_w : Linear.t;
  k_w : Linear.t;
  v_w : Linear.t;
  fc : Linear.t
}.

(** [xavier_uniform_] on a weight of shape [[fan_out, fan_in]]: the bound
    divides by [fan_in + fan_out]. *)
Definition xavier_uniform_ (fan_out fan_in : nat) : result unit :=
  if fan_in + fan_out =? 0 then Raise ZeroDivisionError else Ok tt.

(** The three projections are drawn again; the draws themselves are the
    argument [w] of [init]. *)
Definition _reset_parameters (embed_dim : nat) : result unit :=
  _ <- xavier_uniform_ embed_dim embed_dim ;;
  _ <- xavier_uniform_ embed_dim embed_dim ;;
  xavier_uniform_ embed_dim embed_dim.

(** [w i] is the initial weight drawn for the [i]-th linear map. *)
Definition init (embed_dim num_heads : nat) (dropout : R)
    (w : nat -> nat -> nat -> R) : result t :=
  if num_heads =? 0 then Raise ZeroDivisionError
  else
    let head_dim := embed_dim / num_heads in
    if head_dim * num_heads =? embed_dim then
      let lin i := Linear.init embed_dim embed_dim false (w i) (fun _ => 0%R) in
      _ <- _reset_parameters embed_dim ;;
      Ok {| embed_dim := embed_dim; num_heads := num_heads; dropout := dropout;
            head_dim := head_dim;
            q_w := lin 0; k_w := lin 1; v_w := lin 2; fc := lin 3 |}
    else Raise AssertionError.

(** [y.view(b_s, -1, num_heads, d_k).transpose(1, 2)]. *)
Definition split_heads (b_s heads d_k : nat) (y : tensor3) : result tensor4 :=
  v <- view4 b_s heads d_k y ;;
  Ok (transpose_1_2 heads v).

(** [context.transpose(1, 2).reshape(b_s, -1, embed_dim)]. *)
Definition merge_heads (b_s dim : nat) (context : tensor4) : result tensor3 :=
  reshape3 b_s dim (map (fun m => transpose (ncols m) m) context).

Definition forward (self : t) (query key value : tensor3) (attn_mask : mask3)
    : result tensor3 :=
  let residual := query in
  let b_s := length query in
  if num_heads self =? 0 then Raise ZeroDivisionError
  else
    let d_k := embed_dim self / num_heads self in
    q <- Linear.forward (q_w self) query ;;
    Q <- split_heads b_s (num_heads self) d_k q ;;
    k <- Linear.forward (k_w self) key ;;
    K <- split_heads b_s (num_heads self) d_k k ;;
    v <- Linear.forward (v_w self) value ;;
    V <- split_heads b_s (num_heads self) d_k v ;;
    (* attn_mask.unsqueeze(1).repeat(1, num_heads, 1, 1) *)
    let attn_mask4 := map (fun m => repeat m (num_heads self)) attn_mask in
    context <- ScaleDotProductAttention.forward Q K V attn_mask4 d_k ;;
    context' <- merge_heads b_s (embed_dim self) context ;;
    outputs <- Linear.forward (fc self) context' ;;
    outputs' <- iadd3 outputs residual ;;
    LayerNorm.forward (embed_dim self) outputs'.
End MultiheadAttention.

(** ** class FeedForWard *)

Module FeedForWard.
Record t : Type := {
  d_model : nat;
  fc_0 : Linear.t;
  fc_1 : Dropout.t;
  fc_3 : Linear.t           (* [fc_2] is the parameterless [nn.ReLU] *)
}.

Definition init (d_model feed_forward_dim : nat) (prob : R)
    (w : nat -> nat -> nat -> R) (b : nat -> nat -> R) : result t :=
  let l0 := Linear.init d_model feed_forward_dim true (w 0) (b 0) in
  drop <- Dropout.init prob ;;
  let l3 := Linear.init feed_forward_dim d_model true (w 1) (b 1) in
  Ok {| d_model := d_model; fc_0 := l0; fc_1 := drop; fc_3 := l3 |}.

(** The [nn.Sequential]: Linear, Dropout, ReLU, Linear. *)
Definition fc (self : t) (m : mode) (inputs : tensor3) : result tensor3 :=
  x0 <- Linear.forward (fc_0 self) inputs ;;
  let x1 := Dropout.forward (fc_1 self) m x0 in
  let x2 := ReLU x1 in
  Linear.forward (fc_3 self) x2.

Definition forward (self : t) (m : mode) (inputs : tensor3) : result tensor3 :=
  let residual := inputs in
  output <- fc self m inputs ;;
  output' <- iadd3 output residual ;;
  LayerNorm.forward (d_model self) output'.
End FeedForWard.

(** ** class TransformerDecoderLayer *)

Module TransformerDecoderLayer.
Record t : Type := {
  dec_self_attn : MultiheadAttention.t;
  dec_enc_attn : MultiheadAttention.t;
  feedforward : FeedForWard.t
}.

Definition init (d_model num_heads feedforward_dim : nat) (prob : R)
    (w : nat -> nat -> nat -> nat -> R) (b : nat -> nat -> R) : result t :=
  a1 <- MultiheadAttention.init d_model num_heads 0%R (w 0) ;;
  a2 <- MultiheadAttention.init d_model num_heads 0%R (w 1) ;;
  ff <- FeedForWard.init d_model feedforward_dim prob (w 2) b ;;
  Ok {| dec_self_attn := a1; dec_enc_attn := a2; feedforward := ff |}.

Definition forward (self : t) (m : mode) (dec_inputs enc_inputs : tensor3)
    (dec_self_attn_mask dec_enc_attn_mask : mask3) : result tensor3 :=
  output <- MultiheadAttention.forward (dec_self_attn self)
              dec_inputs dec_inputs dec_inputs dec_self_attn_mask ;;
  output <- MultiheadAttention.forward (dec_enc_attn self)
              enc_inputs output output dec_enc_attn_mask ;;
  FeedForWard.forward (feedforward self) m output.
End TransformerDecoderLayer.

(** ** The mask helpers of [utils] *)

Definition zip_with {X Y Z : Type} (f : X -> Y -> Z) (xs : list X) (ys : list Y)
    : list Z :=
  map (fun xy => f (fst xy) (snd xy)) (combine xs ys).

(** The id of the padding token (the spec's scenario: [0 = pad]). *)
Definition pad_token : nat := 0.

(** Modelled from the spec: [get_attn_pad_mask] of the module [utils], which
    is imported by [base.py] and is not part of the sources.  The spec:
    [get_attn_pad_mask(seq_q, seq_k) -> boolean mask [batch, len_q, len_k]],
    true where a key position is a designated padding token. *)
Definition get_attn_pad_mask (seq_q seq_k : list (list nat)) : mask3 :=
  map (fun keys => repeat (map (fun tok => tok =? pad_token) keys) (ncols seq_q))
      seq_k.

(** Modelled from the spec: [get_attn_subsequence_mask] of the module
    [utils], not part of the sources.  The spec:
    [get_attn_subsequence_mask(seq) -> boolean mask [batch, len, len]], true
    where the key index exceeds the query index (strict upper triangle). *)
Definition get_attn_subsequence_mask (seq : list (list nat)) : mask3 :=
  map (fun row =>
         tabulate (length row) (fun i => tabulate (length row) (fun j => i <? j)))
      seq.

(** [a + b] on masks: the entries are added as numbers. *)
Definition mask_add (a b : mask3) : result (list (list (list nat))) :=
  bzip (bzip (bzip (fun x y => Ok (Nat.b2n x + Nat.b2n y)))) a b.

(** [torch.gt(t, 0)]. *)
Definition gt_0 (t : list (list (list nat))) : mask3 :=
  map (map (map (fun n => 0 <? n))) t.

(** ** class TransformerDecoder *)

Module TransformerDecoder.
Record t : Type := {
  tgt_emb : matrix;         (* the weight of the [nn.Embedding] *)
  pos_emb : PositionalEncoding.t;
  layers : list TransformerDecoderLayer.t
}.

(** The value of [dec_self_attn_mask] in [forward]. *)
Definition self_attn_mask (dec_inputs : list (list nat)) : result mask3 :=
  let dec_self_attn_pad_mask := get_attn_pad_mask dec_inputs dec_inputs in
  let dec_self_attn_subsequence_mask := get_attn_subsequence_mask dec_inputs in
  s <- mask_add dec_self_attn_pad_mask dec_self_attn_subsequence_mask ;;
  Ok (gt_0 s).

(** The loop over [self.layers]; [layer_mode i] is the mode of layer [i]. *)
Fixpoint run_layers (ls : list TransformerDecoderLayer.t) (i : nat)
    (layer_mode : nat -> mode) (dec_outputs enc_outputs : tensor3)
    (dec_self_attn_mask dec_enc_attn_mask : mask3) : result tensor3 :=
  match ls with
  | [] => Ok dec_outputs
  | layer :: ls' =>
      out <- TransformerDecoderLayer.forward layer (layer_mode i)
               dec_outputs enc_outputs dec_self_attn_mask dec_enc_attn_mask ;;
      run_layers ls' (S i) layer_mode out enc_outputs
                 dec_self_attn_mask dec_enc_attn_mask
  end.

Definition forward (self : t) (pos_mode : mode) (layer_mode : nat -> mode)
    (enc_inputs dec_inputs : list (list nat)) (enc_outputs : tensor3)
    : result tensor3 :=
  dec_outputs <- Embedding.forward (tgt_emb self) dec_inputs ;;
  dec_outputs <- PositionalEncoding.forward (pos_emb self) pos_mode dec_outputs ;;
  dec_self_attn_mask <- self_attn_mask dec_inputs ;;
  let dec_enc_attn_mask := get_attn_pad_mask dec_inputs enc_inputs in
  run_layers (layers self) 0 layer_mode dec_outputs enc_outputs
             dec_self_attn_mask dec_enc_attn_mask.
End TransformerDecoder.

(** ** The formulas of the specification *)

Module Spec.
(** [x + pe[:seq_len]] followed by dropout: row [s] of the table is added
    at position [s] of every batch element; a sequence longer than the
    table is an error. *)
Definition positional_encoding (self : PositionalEncoding.t) (m : mode)
    (x : tensor3) : result tensor3 :=
  let table := concat (PositionalEncoding.pe self) in
  x' <- mapM (fun xb : matrix =>
                if length xb <=? length table
                then Ok (zip_with (zip_with Rplus) xb (firstn (length xb) table))
                else Raise IndexError) x ;;
  Ok (Dropout.forward (PositionalEncoding.dropout self) m x').

(** [LayerNorm(Linear2(Dropout(ReLU(Linear1(input)))) + input)]. *)
Definition feed_forward (self : FeedForWard.t) (m : mode) (input : tensor3)
    : result tensor3 :=
  h <- Linear.forward (FeedForWard.fc_0 self) input ;;
  y <- Linear.forward (FeedForWard.fc_3 self)
         (Dropout.forward (FeedForWard.fc_1 self) m (ReLU h)) ;;
  s <- iadd3 y input ;;
  LayerNorm.forward (FeedForWard.d_model self) s.

(** Row [i] of the scores: [q . k_j / sqrt d_k], and [-1e9] where masked. *)
Definition scores_row (d_k : nat) (q : vector) (K : matrix) (mask : list bool)
    : vector :=
  zip_with (fun k (m : bool) => if m then (-1e9)%R else (dot q k / sqrt (INR d_k))%R)
           K mask.

(** [sum_j w_j * V_j], a vector of [d] entries. *)
Definition weighted_sum (d : nat) (w : vector) (V : matrix) : vector :=
  fold_right (fun wv acc => zip_with Rplus (map (Rmult (fst wv)) (snd wv)) acc)
             (repeat 0%R d) (combine w V).

(** Entrywise logical or of two masks. *)
Definition mask_or (a b : mask3) : mask3 :=
  zip_with (zip_with (zip_with orb)) a b.
End Spec.

(** ** Indexing *)

(** [t[b][h]]: the matrix of head [h] of batch element [b]. *)
Definition head4 {W : Type} (t : list (list (list W))) (b h : nat) : list W :=
  nth h (nth b t []) [].

(** [t[b][h][i]]. *)
Definition row4 {W : Type} (t : list (list (list (list W)))) (b h i : nat) : list W :=
  nth i (head4 t b h) [].

(** [t[b][h][i][j]] of a rank-4 tensor of numbers. *)
Definition entry4 (t : tensor4) (b h i j : nat) : R :=
  nth j (row4 t b h i) 0%R.

(** [t[b][s][j]] of a rank-3 tensor of numbers. *)
Definition entry3 (t : tensor3) (b s j : nat) : R :=
  nth j (nth s (nth b t []) []) 0%R.

(** ** The configuration object [args] *)

Module Args.
Record t : Type := {
  vocab_enc_size : nat;
  vocab_dec_size : nat;
  d_model : nat;
  nums_head : nat;
  n_layers : nat;
  dropout : R;
  feedforward_dim : nat
}.
End Args.

(** The default [max_len] of [PositionalEncoding], 5000. *)
Definition default_max_len : nat := 50 * 100.

(** The weight of [nn.Embedding(vocab, d_model)]; [emb] is the initial draw. *)
Definition nn_Embedding (vocab d_model : nat) (emb : nat -> nat -> R) : matrix :=
  tabulate vocab (fun i => tabulate d_model (emb i)).

(** ** class TransformerEncoderLayer *)

Module TransformerEncoderLayer.
Record t : Type := {
  self_attn : MultiheadAttention.t;
  feedforward : FeedForWard.t
}.

Definition init (d_model nhead : nat) (prob : R) (feedforward_dim : nat)
    (w : nat -> nat -> nat -> nat -> R) (b : nat -> nat -> R) : result t :=
  a <- MultiheadAttention.init d_model nhead prob (w 0) ;;
  ff <- FeedForWard.init d_model feedforward_dim prob (w 1) b ;;
  Ok {| self_attn := a; feedforward := ff |}.

Definition forward (self : t) (m : mode) (inputs : tensor3) (enc_attn_mask : mask3)
    : result tensor3 :=
  output <- MultiheadAttention.forward (self_attn self)
              inputs inputs inputs enc_attn_mask ;;
  FeedForWard.forward (feedforward self) m output.
End TransformerEncoderLayer.

(** ** class TransformerEncoder *)

Module TransformerEncoder.
Record t : Type := {
  src_emb : matrix;
  pos_emb : PositionalEncoding.t;
  layers : list TransformerEncoderLayer.t
}.

(** [emb], [w i] and [b i] are the initial draws of the embedding and of
    layer [i]. *)
Definition init (args : Args.t) (emb : nat -> nat -> R)
    (w : nat -> nat -> nat -> nat -> nat -> R) (b : nat -> nat -> nat -> R)
    : result t :=
  let src := nn_Embedding (Args.vocab_enc_size args) (Args.d_model args) emb in
  pos <- PositionalEncoding.init (Args.d_model args) (Args.dropout args)
                                 default_max_len ;;
  ls <- mapM (fun i => TransformerEncoderLayer.init
                         (Args.d_model args) (Args.nums_head args)
                         (Args.dropout args) (Args.feedforward_dim args) (w i) (b i))
             (seq 0 (Args.n_layers args)) ;;
  Ok {| src_emb := src; pos_emb := pos; layers := ls |}.

Fixpoint run_layers (ls : list TransformerEncoderLayer.t) (i : nat)
    (layer_mode : nat -> mode) (outputs : tensor3) (enc_attn_mask : mask3)
    : result tensor3 :=
  match ls with
  | [] => Ok outputs
  | layer :: ls' =>
      out <- TransformerEncoderLayer.forward layer (layer_mode i) outputs enc_attn_mask ;;
      run_layers ls' (S i) layer_mode out enc_attn_mask
  end.

Definition forward (self : t) (pos_mode : mode) (layer_mode : nat -> mode)
    (inputs : list (list nat)) : result tensor3 :=
  outputs <- Embedding.forward (src_emb self) inputs ;;
  outputs <- PositionalEncoding.forward (pos_emb self) pos_mode outputs ;;
  let enc_attn_mask := get_attn_pad_mask inputs inputs in
  run_layers (layers self) 0 layer_mode outputs enc_attn_mask.
End TransformerEncoder.

(** [TransformerDecoder.__init__]. *)
Definition TransformerDecoder_init (args : Args.t) (emb : nat -> nat -> R)
    (w : nat -> nat -> nat -> nat -> nat -> R) (b : nat -> nat -> nat -> R)
    : result TransformerDecoder.t :=
  let tgt := nn_Embedding (Args.vocab_dec_size args) (Args.d_model args) emb in
  pos <- PositionalEncoding.init (Args.d_model args) (Args.dropout args)
                                 default_max_len ;;
  ls <- mapM (fun i => TransformerDecoderLayer.init
                         (Args.d_model args) (Args.nums_head args)
                         (Args.feedforward_dim args) (Args.dropout args) (w i) (b i))
             (seq 0 (Args.n_layers args)) ;;
  Ok {| TransformerDecoder.tgt_emb := tgt;
        TransformerDecoder.pos_emb := pos;
        TransformerDecoder.layers := ls |}.

(** ** class Transformer *)

(** [t.size(-1)] of a rank-3 tensor. *)
Definition size_last (t : tensor3) : nat :=
  match t with
  | [] => 0
  | m :: _ => ncols m
  end.

(** [t.view(-1, d)] on a contiguous rank-3 tensor. *)
Definition view2 (d : nat) (t : tensor3) : result matrix :=
  let flat := concat (concat t) in
  if d =? 0 then Raise RuntimeError
  else if length flat mod d =? 0 then Ok (chunks (length flat / d) d flat)
  else Raise RuntimeError.

(** The initial draws of all parameters of a [Transformer]. *)
Module Draws.
Record t : Type := {
  emb_enc : nat -> nat -> R;
  w_enc : nat -> nat -> nat -> nat -> nat -> R;
  b_enc : nat -> nat -> nat -> R;
  emb_dec : nat -> nat -> R;
  w_dec : nat -> nat -> nat -> nat -> nat -> R;
  b_dec : nat -> nat -> nat -> R;
  w_proj : nat -> nat -> R;
  b_proj : nat -> R
}.
End Draws.

(** The modes of the dropout modules during one forward pass. *)
Module Modes.
Record t : Type := {
  enc_pos : mode;
  enc_layer : nat -> mode;
  dec_pos : mode;
  dec_layer : nat -> mode
}.
End Modes.

Module Transformer.
Record t : Type := {
  encode : TransformerEncoder.t;
  decode : TransformerDecoder.t;
  projection : Linear.t
}.

Definition init (args : Args.t) (r : Draws.t) : result t :=
  enc <- TransformerEncoder.init args (Draws.emb_enc r) (Draws.w_enc r) (Draws.b_enc r) ;;
  dec <- TransformerDecoder_init args (Draws.emb_dec r) (Draws.w_dec r) (Draws.b_dec r) ;;
  let proj := Linear.init (Args.d_model args) (Args.vocab_dec_size args) true
                          (Draws.w_proj r) (Draws.b_proj r) in
  Ok {| encode := enc; decode := dec; projection := proj |}.

Definition forward (self : t) (md : Modes.t) (enc_inputs dec_inputs : list (list nat))
    : result matrix :=
  enc_outputs <- TransformerEncoder.forward (encode self)
                   (Modes.enc_pos md) (Modes.enc_layer md) enc_inputs ;;
  dec_outputs <- TransformerDecoder.forward (decode self)
                   (Modes.dec_pos md) (Modes.dec_layer md)
                   enc_inputs dec_inputs enc_outputs ;;
  dec_logits <- Linear.forward (projection self) dec_outputs ;;
  view2 (size_last dec_logits) dec_logits.
End Transformer.

(** * Properties *)

(** ** The error monad *)

Lemma bind_Ok {A B : Type} (r : result A) (k : A -> result B) (b : B) :
  bind r k = Ok b -> exists a, r = Ok a /\ k a = Ok b.
Proof.
  destruct r as [a | e]; simpl; intros H; [eauto | discriminate].
Qed.

Lemma mapM_Ok {A B : Type} (f : A -> result B) (g : A -> B) (l : list A) :
  Forall (fun a => f a = Ok (g a)) l -> mapM f l = Ok (map g l).
Proof.
  induction 1 as [| a l Ha _ IH]; simpl; [reflexivity |].
  now rewrite Ha, IH.
Qed.

(** ** Regrouping a list *)

Section ChunkFacts.
Context {X : Type}.
Implicit Types (l : list X) (m : list (list X)).

Lemma chunks_length n k l : length (chunks n k l) = n.
Proof.
  revert l; induction n as [| n IH]; intros l; simpl; [reflexivity |].
  now rewrite IH.
Qed.

Lemma chunks_rows n k l :
  length l = n * k -> Forall (fun r => length r = k) (chunks n k l).
Proof.
  revert l; induction n as [| n IH]; intros l Hl; simpl; constructor.
  - rewrite length_firstn. simpl in Hl. lia.
  - apply IH. rewrite length_skipn. simpl in Hl. lia.
Qed.

Lemma chunks_rect n k l : length l = n * k -> rect n k (chunks n k l).
Proof.
  intros Hl; split; [apply chunks_length | now apply chunks_rows].
Qed.

Lemma concat_chunks n k l : length l = n * k -> concat (chunks n k l) = l.
Proof.
  revert l; induction n as [| n IH]; intros l Hl; simpl.
  - destruct l; [reflexivity | discriminate].
  - rewrite IH; [apply firstn_skipn |].
    rewrite length_skipn. simpl in Hl. lia.
Qed.

Lemma chunks_concat k m :
  Forall (fun r => length r = k) m -> chunks (length m) k (concat m) = m.
Proof.
  induction 1 as [| r m Hr _ IH]; simpl; [reflexivity |].
  rewrite firstn_app, skipn_app, Hr, Nat.sub_diag, firstn_all2, skipn_all2 by lia.
  simpl. rewrite app_nil_r. now rewrite IH.
Qed.

Lemma rect_concat_length r c m : rect r c m -> length (concat m) = r * c.
Proof.
  intros [Hlen Hrows]; subst r.
  induction Hrows as [| row m Hrow _ IH]; simpl; [reflexivity |].
  rewrite length_app, IH, Hrow. reflexivity.
Qed.

Lemma chunks_concat_rect r c m : rect r c m -> chunks r c (concat m) = m.
Proof.
  intros [Hlen Hrows]; subst r. now apply chunks_concat.
Qed.
End ChunkFacts.

(** ** Transposition *)

Section TransposeFacts.
Context {X : Type}.
Implicit Types (r : list X) (m t : list (list X)).

Lemma rect_nil c : rect 0 c (@nil (list X)).
Proof. split; [reflexivity | constructor]. Qed.

Lemma rect_cons n c r m :
  rect (S n) c (r :: m) <-> length r = c /\ rect n c m.
Proof.
  unfold rect; simpl; split.
  - intros [Hl Hf]. inversion Hf; subst. repeat split; auto.
  - intros [Hr [Hl Hf]]. split; [lia | now constructor].
Qed.

Lemma rect_inv n c m :
  rect n c m ->
  match m with
  | [] => n = 0
  | r :: m' => exists n', n = S n' /\ length r = c /\ rect n' c m'
  end.
Proof.
  intros [Hl Hf]. destruct m as [| r m']; simpl in Hl; [auto |].
  inversion Hf; subst. exists (length m'). repeat split; auto.
Qed.

Lemma cons_cols_rect n c r t :
  length r = c -> rect c n t -> rect c (S n) (cons_cols r t).
Proof.
  revert c t; induction r as [| a r IH]; intros c t Hr Ht; simpl in Hr; subst c.
  - destruct t; apply rect_nil.
  - apply rect_inv in Ht. destruct t as [| col t]; [discriminate |].
    destruct Ht as (n' & Hn & Hc & Ht). injection Hn as <-.
    simpl. apply rect_cons. split; [simpl; lia | now apply IH].
Qed.

Lemma repeat_nil_rect c : rect c 0 (repeat (@nil X) c).
Proof.
  split; [apply repeat_length |].
  induction c; simpl; constructor; auto.
Qed.

Lemma transpose_rect n c m : rect n c m -> rect c n (transpose c m).
Proof.
  revert n; induction m as [| r m IH]; intros n Hm; apply rect_inv in Hm.
  - subst n. apply repeat_nil_rect.
  - destruct Hm as (n' & -> & Hr & Hm). simpl.
    apply cons_cols_rect; auto.
Qed.

Lemma transpose_cons_cols n r t :
  length r = length t ->
  transpose (S n) (cons_cols r t) = r :: transpose n t.
Proof.
  revert t; induction r as [| a r IH]; intros [| col t] Hl;
    simpl in Hl; try discriminate; [reflexivity |].
  simpl. rewrite IH by lia. reflexivity.
Qed.

Lemma transpose_0 m : transpose 0 m = [].
Proof.
  induction m as [| r m IH]; [reflexivity |].
  simpl. rewrite IH. now destruct r.
Qed.

Lemma transpose_involutive n c m :
  rect n c m -> transpose n (transpose c m) = m.
Proof.
  revert n; induction m as [| r m IH]; intros n Hm; apply rect_inv in Hm.
  - subst n. apply transpose_0.
  - destruct Hm as (n' & -> & Hr & Hm). simpl.
    rewrite transpose_cons_cols.
    + now rewrite IH.
    + destruct (transpose_rect Hm) as [Hl _]. lia.
Qed.

Lemma ncols_rect n c m : rect (S n) c m -> ncols m = c.
Proof.
  intros Hm. apply rect_inv in Hm. destruct m as [| r m]; [discriminate |].
  destruct Hm as (_ & _ & Hr & _). exact Hr.
Qed.
End TransposeFacts.

(** ** Shapes of regrouped tensors *)

Section ForallFacts.
Context {X : Type}.

Lemma Forall_chunks (P : X -> Prop) n k (l : list X) :
  Forall P l -> Forall (Forall P) (chunks n k l).
Proof.
  revert l; induction n as [| n IH]; intros l Hl; simpl; constructor.
  - rewrite <- (firstn_skipn k l) in Hl. now apply Forall_app in Hl.
  - apply IH. rewrite <- (firstn_skipn k l) in Hl. now apply Forall_app in Hl.
Qed.

Lemma Forall_cons_cols (P : X -> Prop) (r : list X) (t : list (list X)) :
  Forall P r -> Forall (Forall P) t -> Forall (Forall P) (cons_cols r t).
Proof.
  intros Hr; revert t; induction Hr as [| a r Ha _ IH]; intros t Ht.
  - destruct t; constructor.
  - destruct Ht as [| col t Hcol Ht]; simpl; constructor; auto.
Qed.

Lemma Forall_transpose (P : X -> Prop) c (m : list (list X)) :
  Forall (Forall P) m -> Forall (Forall P) (transpose c m).
Proof.
  induction 1 as [| r m Hr _ IH]; simpl.
  - induction c; simpl; constructor; auto.
  - now apply Forall_cons_cols.
Qed.

End ForallFacts.

Section ShapeFacts.
Context {X : Type}.

Lemma shape3_rect b s d (x : list (list (list X))) :
  shape3 b s d x -> rect b s x.
Proof.
  intros [Hl Hf]; split; [exact Hl |].
  eapply Forall_impl; [| exact Hf]. now intros m [Hm _].
Qed.

Lemma shape3_concat b s d (x : list (list (list X))) :
  shape3 b s d x -> rect (b * s) d (concat x).
Proof.
  intros Hx; split.
  - apply rect_concat_length. now apply shape3_rect with d.
  - apply Forall_concat. destruct Hx as [_ Hf].
    eapply Forall_impl; [| exact Hf]. now intros m [_ Hm].
Qed.

Lemma shape3_chunks b s d (l : list (list X)) :
  rect (b * s) d l -> shape3 b s d (chunks b s l).
Proof.
  intros [Hl Hf]; split; [apply chunks_length |].
  assert (H1 := chunks_rows b s l Hl).
  assert (H2 := Forall_chunks b s Hf).
  revert H1 H2. generalize (chunks b s l).
  induction l0 as [| m l0 IH]; intros H1 H2; constructor.
  - inversion H1; inversion H2; subst. now split.
  - inversion H1; inversion H2; subst. now apply IH.
Qed.

Lemma shape3_transpose s h d (m : list (list (list X))) :
  shape3 s h d m -> shape3 h s d (transpose h m).
Proof.
  intros Hm. assert (Hr := transpose_rect (shape3_rect Hm)).
  destruct Hr as [Hl Hrows]. split; [exact Hl |].
  assert (Hd : Forall (Forall (fun v => length v = d)) (transpose h m)).
  { apply Forall_transpose. destruct Hm as [_ Hf].
    eapply Forall_impl; [| exact Hf]. now intros r [_ Hr]. }
  revert Hrows Hd. generalize (transpose h m).
  induction l as [| r l IH]; intros H1 H2; constructor;
    inversion H1; inversion H2; subst; [now split | now apply IH].
Qed.
End ShapeFacts.

(** ** Splitting into heads and merging back *)

(** C10.  For a projected tensor of shape [[batch, seq, heads * d_k]], the
    split into heads ([view] then [transpose(1, 2)], as done for Q, K and V)
    succeeds with a result of shape [[batch, heads, seq, d_k]], and merging
    that result ([transpose(1, 2)] then [reshape], as done for the context)
    gives back the original tensor. *)
Theorem split_merge_heads_roundtrip :
  forall (b s h dk : nat) (y : tensor3),
    0 < b -> 0 < h -> 0 < dk ->
    shape3 b s (h * dk) y ->
    exists t : tensor4,
      MultiheadAttention.split_heads (length y) h dk y = Ok t /\
      shape4 b h s dk t /\
      MultiheadAttention.merge_heads (length y) (h * dk) t = Ok y.
Proof.
  intros b s h dk y Hb Hh Hdk Hy.
  assert (Hlen : length y = b) by apply Hy. rewrite Hlen.
  pose proof (shape3_concat Hy) as Hrows.
  pose proof (rect_concat_length Hrows) as Hflat.
  set (flat := concat (concat y)).
  change (length flat = b * s * (h * dk)) in Hflat.
  assert (Hflat' : length flat = s * (b * h * dk)) by (rewrite Hflat; ring).
  assert (Hk : b * h * dk <> 0) by (apply Nat.neq_mul_0; split; [apply Nat.neq_mul_0 |]; lia).
  set (v := chunks b s (chunks (b * s) h (chunks (b * s * h) dk flat))).
  assert (Hview : view4 b h dk y = Ok v).
  { unfold view4. fold flat.
    destruct (Nat.eqb_spec (b * h * dk) 0) as [E | _]; [contradiction |].
    rewrite Hflat', Nat.Div0.mod_mul, Nat.div_mul by exact Hk. reflexivity. }
  assert (Hpieces : rect (b * s * h) dk (chunks (b * s * h) dk flat))
    by (apply chunks_rect; rewrite Hflat; ring).
  assert (Hv : Forall (shape3 s h dk) v).
  { assert (H3 : shape3 (b * s) h dk (chunks (b * s) h (chunks (b * s * h) dk flat)))
      by now apply shape3_chunks.
    assert (H4 := shape3_chunks b s (shape3_rect H3)).
    destruct H4 as [_ H4]. destruct H3 as [_ H3].
    assert (H5 := Forall_chunks b s H3). fold v in H4, H5.
    clearbody v. clear - H4 H5.
    induction v as [| m v IH]; constructor;
      inversion H4; inversion H5; subst; [| now apply IH].
    split; [apply H1 | assumption]. }
  exists (transpose_1_2 h v). split; [| split].
  - unfold MultiheadAttention.split_heads. now rewrite Hview.
  - split; [unfold transpose_1_2; rewrite length_map; apply chunks_length |].
    unfold transpose_1_2. apply Forall_map.
    eapply Forall_impl; [| exact Hv]. intros m Hm. now apply shape3_transpose.
  - unfold MultiheadAttention.merge_heads, transpose_1_2.
    rewrite map_map.
    match goal with |- reshape3 _ _ ?t = _ => assert (Hback : t = v) end.
    { rewrite <- (map_id v) at 2. apply map_ext_Forall.
      eapply Forall_impl; [| exact Hv]. intros m Hm.
      pose proof (shape3_rect Hm) as Hr.
      pose proof (transpose_rect Hr) as Ht.
      destruct h as [| h']; [lia |].
      rewrite (ncols_rect Ht). now apply transpose_involutive. }
    rewrite Hback. unfold reshape3.
    assert (Hcat : concat (concat (concat v)) = flat).
    { unfold v. rewrite !concat_chunks; try reflexivity;
        rewrite ?chunks_length; try reflexivity.
      rewrite Hflat; ring. }
    rewrite Hcat.
    destruct (Nat.eqb_spec (b * (h * dk)) 0) as [E | _]; [lia |].
    replace (length flat) with (s * (b * (h * dk))) by (rewrite Hflat; ring).
    rewrite Nat.Div0.mod_mul, Nat.div_mul by lia. simpl.
    unfold flat. rewrite (chunks_concat_rect Hrows).
    now rewrite (chunks_concat_rect (shape3_rect Hy)).
Qed.

(** The round trip on a [[1, 2, 4]] tensor split into two heads. *)
Lemma split_merge_heads_roundtrip_witness :
  exists t : tensor4,
    MultiheadAttention.split_heads 1 2 2 [[[1; 2; 3; 4]; [5; 6; 7; 8]]]%R = Ok t /\
    shape4 1 2 2 2 t /\
    MultiheadAttention.merge_heads 1 (2 * 2) t = Ok [[[1; 2; 3; 4]; [5; 6; 7; 8]]]%R.
Proof.
  apply (@split_merge_heads_roundtrip 1 2 2 2 [[[1; 2; 3; 4]; [5; 6; 7; 8]]]%R);
    try lia.
  split; [reflexivity |].
  repeat constructor.
Defined.

(** ** Construction of MultiheadAttention *)

Lemma reset_parameters_Ok (e : nat) :
  0 < e -> MultiheadAttention._reset_parameters e = Ok tt.
Proof.
  intros He. unfold MultiheadAttention._reset_parameters, MultiheadAttention.xavier_uniform_.
  destruct (Nat.eqb_spec (e + e) 0) as [E | _]; [lia | reflexivity].
Qed.

Lemma reset_parameters_positive (e : nat) (u : unit) :
  MultiheadAttention._reset_parameters e = Ok u -> 0 < e.
Proof.
  unfold MultiheadAttention._reset_parameters, MultiheadAttention.xavier_uniform_.
  destruct (Nat.eqb_spec (e + e) 0) as [E | E]; [discriminate | lia].
Qed.

(** C9.  For a positive width [embed_dim]: when the head count does not
    divide [embed_dim], the constructor raises an error (so no module exists
    on which a forward pass could run); when it divides [embed_dim], the
    constructor succeeds and [head_dim = embed_dim / num_heads], with
    [head_dim * num_heads = embed_dim]. *)
Theorem MultiheadAttention_init_divisibility :
  forall (embed_dim num_heads : nat) (dropout : R) (w : nat -> nat -> nat -> R),
    0 < embed_dim ->
    (~ Nat.divide num_heads embed_dim ->
     exists e, MultiheadAttention.init embed_dim num_heads dropout w = Raise e) /\
    (Nat.divide num_heads embed_dim ->
     exists m,
       MultiheadAttention.init embed_dim num_heads dropout w = Ok m /\
       MultiheadAttention.embed_dim m = embed_dim /\
       MultiheadAttention.num_heads m = num_heads /\
       MultiheadAttention.head_dim m = embed_dim / num_heads /\
       MultiheadAttention.head_dim m * num_heads = embed_dim).
Proof.
  intros e h p w He; split; intros Hdiv; unfold MultiheadAttention.init.
  - destruct (Nat.eqb_spec h 0) as [-> | Hh]; [eauto |].
    destruct (Nat.eqb_spec (e / h * h) e) as [E | _]; [| eauto].
    exfalso. apply Hdiv. exists (e / h). now symmetry.
  - destruct Hdiv as [q Hq].
    destruct (Nat.eqb_spec h 0) as [-> | Hh]; [lia |].
    assert (Hdivq : e / h = q) by (subst e; now apply Nat.div_mul).
    rewrite Hdivq.
    destruct (Nat.eqb_spec (q * h) e) as [_ | E]; [| congruence].
    rewrite (reset_parameters_Ok He).
    eexists; repeat split; simpl; auto.
Qed.

(** [embed_dim = 8] with two heads: the constructor succeeds, [head_dim = 4]. *)
Lemma MultiheadAttention_init_divisibility_witness :
  exists m,
    MultiheadAttention.init 8 2 0%R (fun _ _ _ => 0%R) = Ok m /\
    MultiheadAttention.embed_dim m = 8 /\
    MultiheadAttention.num_heads m = 2 /\
    MultiheadAttention.head_dim m = 8 / 2 /\
    MultiheadAttention.head_dim m * 2 = 8.
Proof.
  apply (@MultiheadAttention_init_divisibility 8 2 0%R (fun _ _ _ => 0%R)).
  - lia.
  - exists 4. reflexivity.
Defined.

(** ** Broadcasting on equal shapes, maps with indices *)

Lemma bcast_to_same {X : Type} n (l : list X) :
  length l = n -> bcast_to n l = Ok l.
Proof.
  intros H. unfold bcast_to. now rewrite (proj2 (Nat.eqb_eq _ _) H).
Qed.

Section ZipFacts.
Context {X Y Z : Type}.

Lemma Forall_combine (P : X -> Prop) (Q : Y -> Prop) (xs : list X) (ys : list Y) :
  Forall P xs -> Forall Q ys ->
  Forall (fun xy => P (fst xy) /\ Q (snd xy)) (combine xs ys).
Proof.
  intros Hx; revert ys; induction Hx as [| x xs Hx _ IH]; intros ys Hy; simpl.
  - constructor.
  - destruct Hy as [| y ys Hy Hys]; constructor; auto.
Qed.

Lemma zip_with_length (f : X -> Y -> Z) (xs : list X) (ys : list Y) :
  length xs = length ys -> length (zip_with f xs ys) = length xs.
Proof.
  intros H. unfold zip_with. rewrite length_map, length_combine. lia.
Qed.

Lemma Forall_zip_with (R : Z -> Prop) (f : X -> Y -> Z) (xs : list X) (ys : list Y) :
  Forall (fun xy => R (f (fst xy) (snd xy))) (combine xs ys) ->
  Forall R (zip_with f xs ys).
Proof.
  intros H. unfold zip_with. now apply Forall_map.
Qed.

Lemma bzip_in_same (f : X -> Y -> result Z) (g : X -> Y -> Z) xs ys :
  length ys = length xs ->
  Forall (fun xy => f (fst xy) (snd xy) = Ok (g (fst xy) (snd xy))) (combine xs ys) ->
  bzip_in f xs ys = Ok (zip_with g xs ys).
Proof.
  intros Hl Hf. unfold bzip_in. rewrite bcast_to_same by exact Hl. simpl.
  unfold zip_with. now apply mapM_Ok with (g := fun xy => g (fst xy) (snd xy)).
Qed.

Lemma bzip_same (f : X -> Y -> result Z) (g : X -> Y -> Z) xs ys :
  length xs = length ys ->
  Forall (fun xy => f (fst xy) (snd xy) = Ok (g (fst xy) (snd xy))) (combine xs ys) ->
  bzip f xs ys = Ok (zip_with g xs ys).
Proof.
  intros Hl Hf. unfold bzip. rewrite (proj2 (Nat.eqb_eq _ _) Hl).
  unfold zip_with. now apply mapM_Ok with (g := fun xy => g (fst xy) (snd xy)).
Qed.

Lemma imap_from_length (f : nat -> X -> Y) (l : list X) i :
  length (imap_from i f l) = length l.
Proof.
  revert i; induction l as [| a l IH]; intros i; simpl; [reflexivity |].
  now rewrite IH.
Qed.

Lemma Forall_imap_from (P : X -> Prop) (Q : Y -> Prop) (f : nat -> X -> Y) l i :
  (forall j a, P a -> Q (f j a)) -> Forall P l -> Forall Q (imap_from i f l).
Proof.
  intros Hf Hl; revert i; induction Hl as [| a l Ha _ IH]; intros i; simpl;
    constructor; auto.
Qed.
End ZipFacts.

Lemma map_imap_from_commute {X : Type} (g : X -> X) (f : nat -> X -> X) :
  (forall i a, g (f i a) = f i (g a)) ->
  forall l i, map g (imap_from i f l) = imap_from i f (map g l).
Proof.
  intros H l; induction l as [| a l IH]; intros i; simpl; [reflexivity |].
  now rewrite H, IH.
Qed.

(** ** ReLU and dropout *)

Lemma relu_drop (p : R) (k : bool) (v : R) :
  (0 <= p <= 1)%R -> relu (Dropout.drop p k v) = Dropout.drop p k (relu v).
Proof.
  intros [Hp0 Hp1]. unfold Dropout.drop, relu.
  destruct (Req_dec_T p 1) as [_ | Hne]; [now apply Rmax_left, Rle_refl |].
  destruct k; [| now apply Rmax_left, Rle_refl].
  assert (Hc : (0 <= / (1 - p))%R).
  { left. apply Rinv_0_lt_compat. lra. }
  rewrite (Rmult_comm v), (Rmult_comm (Rmax 0 v)).
  rewrite <- (RmaxRmult 0 v _ Hc). now rewrite Rmult_0_r.
Qed.

Lemma Dropout_init_range (prob : R) (d : Dropout.t) :
  Dropout.init prob = Ok d -> Dropout.p d = prob /\ (0 <= prob <= 1)%R.
Proof.
  unfold Dropout.init.
  destruct (Rle_dec 0 prob); [| discriminate].
  destruct (Rle_dec prob 1); [| discriminate].
  intros H; injection H as <-. simpl. auto.
Qed.

Lemma ReLU_Dropout_commute (d : Dropout.t) (m : mode) (x : tensor3) :
  (0 <= Dropout.p d <= 1)%R ->
  ReLU (Dropout.forward d m x) = Dropout.forward d m (ReLU x).
Proof.
  intros Hp. destruct m as [| keep]; [reflexivity |].
  unfold ReLU, Dropout.forward, imap.
  apply map_imap_from_commute; intros b mb.
  apply map_imap_from_commute; intros s row.
  apply map_imap_from_commute; intros j v.
  now apply relu_drop.
Qed.

(** ** Row-wise operations on rank-3 tensors *)

Lemma mapM_rows_Ok {X Y : Type} (f : list X -> result (list Y)) (g : list X -> list Y)
    (b s d : nat) (x : list (list (list X))) :
  (forall r, length r = d -> f r = Ok (g r)) ->
  shape3 b s d x -> mapM (mapM f) x = Ok (map (map g) x).
Proof.
  intros Hf [_ Hx]. apply mapM_Ok.
  eapply Forall_impl; [| exact Hx]. intros m [_ Hm].
  apply mapM_Ok. eapply Forall_impl; [| exact Hm]. intros r Hr. now apply Hf.
Qed.

Lemma shape3_map_rows {X Y : Type} (g : list X -> list Y) (b s d d' : nat)
    (x : list (list (list X))) :
  (forall r, length r = d -> length (g r) = d') ->
  shape3 b s d x -> shape3 b s d' (map (map g) x).
Proof.
  intros Hg [Hl Hx]. split; [now rewrite length_map |].
  apply Forall_map. eapply Forall_impl; [| exact Hx]. intros m [Hs Hm].
  split; [now rewrite length_map |].
  apply Forall_map. eapply Forall_impl; [| exact Hm]. intros r Hr. now apply Hg.
Qed.

Lemma shape3_zip_with {X Y Z : Type} (f : X -> Y -> Z) (b s d : nat)
    (x : list (list (list X))) (t : list (list (list Y))) :
  shape3 b s d x -> shape3 b s d t ->
  shape3 b s d (zip_with (zip_with (zip_with f)) x t).
Proof.
  intros [Hlx Hx] [Hlt Ht]. split; [rewrite zip_with_length; lia |].
  apply Forall_zip_with.
  eapply Forall_impl; [| exact (Forall_combine Hx Ht)].
  intros [xm tm] [[Hsx Hmx] [Hst Hmt]]; simpl in *.
  split; [rewrite zip_with_length; lia |].
  apply Forall_zip_with.
  eapply Forall_impl; [| exact (Forall_combine Hmx Hmt)].
  intros [xr tr] [Hxr Htr]; simpl in *. rewrite zip_with_length; lia.
Qed.

Lemma iadd3_same (b s d : nat) (x t : tensor3) :
  shape3 b s d x -> shape3 b s d t ->
  iadd3 x t = Ok (zip_with (zip_with (zip_with Rplus)) x t).
Proof.
  intros [Hlx Hx] [Hlt Ht]. unfold iadd3.
  apply bzip_in_same; [lia |].
  eapply Forall_impl; [| exact (Forall_combine Hx Ht)].
  intros [xm tm] [[Hsx Hmx] [Hst Hmt]]; simpl in *.
  apply bzip_in_same; [lia |].
  eapply Forall_impl; [| exact (Forall_combine Hmx Hmt)].
  intros [xr tr] [Hxr Htr]; simpl in *.
  apply bzip_in_same; [lia |].
  apply Forall_forall. reflexivity.
Qed.

Lemma shape3_Dropout (self : Dropout.t) (m : mode) (b s d : nat) (x : tensor3) :
  shape3 b s d x -> shape3 b s d (Dropout.forward self m x).
Proof.
  destruct m as [| keep]; [auto |]. intros [Hl Hx]. unfold Dropout.forward, imap.
  split; [now rewrite imap_from_length |].
  eapply Forall_imap_from; [| exact Hx]. intros i mb [Hs Hm].
  split; [now rewrite imap_from_length |].
  eapply Forall_imap_from; [| exact Hm]. intros j r Hr.
  now rewrite imap_from_length.
Qed.

Lemma shape3_ReLU (b s d : nat) (x : tensor3) :
  shape3 b s d x -> shape3 b s d (ReLU x).
Proof.
  apply shape3_map_rows. intros r Hr. now rewrite length_map.
Qed.

Lemma Linear_forward_Ok (self : Linear.t) (b s : nat) (x : tensor3) :
  shape3 b s (Linear.in_features self) x ->
  Linear.forward self x = Ok (map (map (Linear.apply_row self)) x).
Proof.
  apply mapM_rows_Ok. intros r Hr.
  now rewrite (proj2 (Nat.eqb_eq _ _) Hr).
Qed.

Lemma Linear_init_row_length n_in n_out has_bias w b (r : vector) :
  length (Linear.apply_row (Linear.init n_in n_out has_bias w b) r) = n_out.
Proof.
  unfold Linear.apply_row, Linear.init, tabulate; simpl.
  destruct has_bias; simpl;
    rewrite ?length_map, ?length_combine, ?length_map, ?length_seq; lia.
Qed.

Lemma LayerNorm_forward_Ok (d b s : nat) (x : tensor3) :
  shape3 b s d x ->
  LayerNorm.forward d x = Ok (map (map LayerNorm.normalize) x).
Proof.
  apply mapM_rows_Ok. intros r Hr.
  now rewrite (proj2 (Nat.eqb_eq _ _) Hr).
Qed.

Lemma shape3_LayerNorm (b s d : nat) (x : tensor3) :
  shape3 b s d x -> shape3 b s d (map (map LayerNorm.normalize) x).
Proof.
  apply shape3_map_rows. intros r Hr. unfold LayerNorm.normalize.
  now rewrite length_map.
Qed.

(** ** FeedForWard *)

Lemma FeedForWard_init_fields d_model feed_forward_dim prob w b self :
  FeedForWard.init d_model feed_forward_dim prob w b = Ok self ->
  FeedForWard.d_model self = d_model /\
  FeedForWard.fc_0 self = Linear.init d_model feed_forward_dim true (w 0) (b 0) /\
  FeedForWard.fc_3 self = Linear.init feed_forward_dim d_model true (w 1) (b 1) /\
  Dropout.p (FeedForWard.fc_1 self) = prob /\ (0 <= prob <= 1)%R.
Proof.
  unfold FeedForWard.init. intros H.
  apply bind_Ok in H. destruct H as (drop & Hdrop & H).
  injection H as <-. simpl. apply Dropout_init_range in Hdrop. tauto.
Qed.

(** C6.  For a module built by the constructor and every input,
    [FeedForWard.forward] returns
    [LayerNorm(Linear2(Dropout(ReLU(Linear1(input)))) + input)]: the two
    linear layers with ReLU and dropout between them, the residual around
    the block, then the layer normalization.  On an input of shape
    [[batch, seq, d_model]] the call succeeds with a result of that shape. *)
Theorem FeedForWard_forward_formula :
  forall (d_model feed_forward_dim : nat) (prob : R)
         (w : nat -> nat -> nat -> R) (b : nat -> nat -> R) (self : FeedForWard.t),
    FeedForWard.init d_model feed_forward_dim prob w b = Ok self ->
    forall (m : mode) (inputs : tensor3),
      FeedForWard.forward self m inputs = Spec.feed_forward self m inputs /\
      (forall batch seq_len,
          shape3 batch seq_len d_model inputs ->
          exists out, FeedForWard.forward self m inputs = Ok out /\
                      shape3 batch seq_len d_model out).
Proof.
  intros d_model ffd prob w b self Hinit m inputs.
  destruct (FeedForWard_init_fields _ _ _ _ _ Hinit) as (Hd & H0 & H3 & Hp & Hrange).
  assert (Hcomm : forall x, ReLU (Dropout.forward (FeedForWard.fc_1 self) m x) =
                            Dropout.forward (FeedForWard.fc_1 self) m (ReLU x)).
  { intros x. apply ReLU_Dropout_commute. now rewrite Hp. }
  assert (Heq : FeedForWard.forward self m inputs = Spec.feed_forward self m inputs).
  { unfold FeedForWard.forward, FeedForWard.fc, Spec.feed_forward.
    destruct (Linear.forward (FeedForWard.fc_0 self) inputs) as [h | e]; simpl;
      [| reflexivity].
    now rewrite Hcomm. }
  split; [exact Heq |].
  intros batch seq_len Hx. rewrite Heq. unfold Spec.feed_forward.
  rewrite H0, H3, Hd.
  rewrite (@Linear_forward_Ok _ batch seq_len) by exact Hx. simpl.
  set (h := map (map (Linear.apply_row _)) inputs).
  assert (Hh : shape3 batch seq_len ffd h).
  { eapply shape3_map_rows; [| exact Hx]. intros r _.
    apply Linear_init_row_length. }
  rewrite (@Linear_forward_Ok _ batch seq_len)
    by (apply shape3_Dropout, shape3_ReLU, Hh). simpl.
  set (y := map (map (Linear.apply_row _)) _).
  assert (Hy : shape3 batch seq_len d_model y).
  { eapply shape3_map_rows;
      [| exact (shape3_Dropout (FeedForWard.fc_1 self) m (shape3_ReLU Hh))].
    intros r _. apply Linear_init_row_length. }
  rewrite (iadd3_same Hy Hx). simpl.
  pose proof (shape3_zip_with Rplus Hy Hx) as Hs.
  rewrite (LayerNorm_forward_Ok Hs).
  eexists; split; [reflexivity |]. now apply shape3_LayerNorm.
Qed.

Lemma Dropout_init_Ok (prob : R) :
  (0 <= prob <= 1)%R -> Dropout.init prob = Ok {| Dropout.p := prob |}.
Proof.
  intros [H0 H1]. unfold Dropout.init.
  destruct (Rle_dec 0 prob); [| contradiction].
  destruct (Rle_dec prob 1); [reflexivity | contradiction].
Qed.

(** A feed-forward block of width one with zero weights and dropout
    probability [1/2], on a [[1, 1, 1]] input. *)
Lemma FeedForWard_forward_formula_witness :
  exists self,
    FeedForWard.init 1 1 (1 / 2)%R (fun _ _ _ => 0%R) (fun _ _ => 0%R) = Ok self /\
    FeedForWard.forward self Eval [[[1%R]]] = Spec.feed_forward self Eval [[[1%R]]] /\
    exists out, FeedForWard.forward self Eval [[[1%R]]] = Ok out /\
                shape3 1 1 1 out.
Proof.
  assert (Hinit : FeedForWard.init 1 1 (1 / 2)%R (fun _ _ _ => 0%R) (fun _ _ => 0%R) =
                  Ok {| FeedForWard.d_model := 1;
                        FeedForWard.fc_0 := Linear.init 1 1 true (fun _ _ => 0%R) (fun _ => 0%R);
                        FeedForWard.fc_1 := {| Dropout.p := (1 / 2)%R |};
                        FeedForWard.fc_3 := Linear.init 1 1 true (fun _ _ => 0%R) (fun _ => 0%R) |}).
  { unfold FeedForWard.init. rewrite Dropout_init_Ok by lra. reflexivity. }
  eexists; split; [exact Hinit |].
  destruct (FeedForWard_forward_formula _ _ _ _ _ Hinit Eval [[[1%R]]]) as [H1 H2].
  split; [exact H1 |]. apply H2.
  split; [reflexivity |]. repeat constructor.
Defined.

(** ** Entries of zipped and mapped lists *)

Section NthFacts.
Context {X Y Z : Type}.

Lemma nth_zip_with (f : X -> Y -> Z) (xs : list X) (ys : list Y) i dx dy dz :
  i < length xs -> i < length ys ->
  nth i (zip_with f xs ys) dz = f (nth i xs dx) (nth i ys dy).
Proof.
  revert ys i; induction xs as [| x xs IH]; intros [| y ys] i Hx Hy;
    simpl in *; try lia.
  destruct i as [| i]; [reflexivity |]. apply IH; lia.
Qed.

Lemma nth_map_lt (f : X -> Y) (xs : list X) i dx dy :
  i < length xs -> nth i (map f xs) dy = f (nth i xs dx).
Proof.
  intros H. rewrite (nth_indep _ dy (f dx)) by now rewrite length_map.
  apply map_nth.
Qed.

Lemma combine_map_r (F : Y -> Z) (xs : list X) (ys : list Y) :
  combine xs (map F ys) = map (fun xy => (fst xy, F (snd xy))) (combine xs ys).
Proof.
  revert ys; induction xs as [| x xs IH]; intros [| y ys]; simpl; try reflexivity.
  now rewrite IH.
Qed.

Lemma combine_map_l (F : X -> Z) (xs : list X) (ys : list Y) :
  combine (map F xs) ys = map (fun xy => (F (fst xy), snd xy)) (combine xs ys).
Proof.
  revert ys; induction xs as [| x xs IH]; intros [| y ys]; simpl; try reflexivity.
  now rewrite IH.
Qed.
End NthFacts.

Lemma zip_with_map_l {X X' Y Z : Type} (f : X' -> Y -> Z) (F : X -> X')
    (xs : list X) (ys : list Y) :
  zip_with f (map F xs) ys = zip_with (fun x y => f (F x) y) xs ys.
Proof.
  unfold zip_with. now rewrite combine_map_l, map_map.
Qed.

Section ShapeNth.
Context {X : Type}.

Lemma rect_nth n c (m : list (list X)) i :
  rect n c m -> i < n -> length (nth i m []) = c.
Proof.
  intros [Hl Hf] Hi. subst n.
  exact (proj1 (Forall_nth _ m) Hf i [] Hi).
Qed.

Lemma shape3_nth b s d (x : list (list (list X))) i :
  shape3 b s d x -> i < b -> rect s d (nth i x []).
Proof.
  intros [Hl Hf] Hi. subst b.
  exact (proj1 (Forall_nth _ x) Hf i [] Hi).
Qed.

End ShapeNth.

(** ** Matrix products *)

Lemma matmul2_Ok (n k : nat) (a b : matrix) :
  rect n k a -> length b = k ->
  matmul2 a b = Ok (map (fun row => map (dot row) (transpose (ncols b) b)) a).
Proof.
  intros [_ Ha] Hb. unfold matmul2.
  replace (forallb (fun row => length row =? length b) a) with true; [reflexivity |].
  symmetry. apply forallb_forall. intros r Hr.
  apply Nat.eqb_eq. rewrite Hb.
  exact (proj1 (Forall_forall _ a) Ha r Hr).
Qed.

Lemma weighted_sum_cons d (a : R) (w v : vector) (V : matrix) :
  Spec.weighted_sum d (a :: w) (v :: V) =
  zip_with Rplus (map (Rmult a) v) (Spec.weighted_sum d w V).
Proof. reflexivity. Qed.

Lemma weighted_sum_nil_r d (w : vector) : Spec.weighted_sum d w [] = repeat 0%R d.
Proof. now destruct w. Qed.

Lemma map_dot_cons_cols (a : R) (w v : vector) (T : matrix) :
  length v = length T ->
  map (dot (a :: w)) (cons_cols v T) = zip_with Rplus (map (Rmult a) v) (map (dot w) T).
Proof.
  revert T; induction v as [| x v IH]; intros [| col T] Hl; simpl in Hl;
    try discriminate; [reflexivity |].
  simpl. unfold zip_with in *. simpl. f_equal. apply IH. lia.
Qed.

(** A row of weights times [V]: the weighted sum of the rows of [V]. *)
Lemma row_times_matrix (n d : nat) (w : vector) (V : matrix) :
  length w = n -> rect n d V ->
  map (dot w) (transpose d V) = Spec.weighted_sum d w V.
Proof.
  revert n w; induction V as [| v V IH]; intros n w Hw HV; apply rect_inv in HV.
  - subst n. destruct w; [| discriminate].
    rewrite weighted_sum_nil_r. simpl.
    induction d as [| d IHd]; simpl; [reflexivity |]. now rewrite IHd.
  - destruct HV as (n' & -> & Hv & HV).
    destruct w as [| a w]; [discriminate |]. simpl in Hw.
    rewrite weighted_sum_cons, <- (IH n' w) by (auto; lia).
    pose proof (transpose_rect HV) as [Hl _].
    simpl. apply map_dot_cons_cols. lia.
Qed.

(** ** Two leading axes *)

Section Grid.
Context {X Y Z : Type}.

Lemma grid_bzip (f : X -> Y -> result Z) (g : X -> Y -> Z)
    (P : X -> Prop) (Q : Y -> Prop) b h xs ys :
  (forall x y, P x -> Q y -> f x y = Ok (g x y)) ->
  grid b h P xs -> grid b h Q ys ->
  bzip (bzip f) xs ys = Ok (zip_with (zip_with g) xs ys).
Proof.
  intros Hf [Hlx Hx] [Hly Hy].
  apply bzip_same; [lia |].
  eapply Forall_impl; [| exact (Forall_combine Hx Hy)].
  intros [xl yl] [[Hxl Hxp] [Hyl Hyp]]; simpl in *.
  apply bzip_same; [lia |].
  eapply Forall_impl; [| exact (Forall_combine Hxp Hyp)].
  intros [x y] [Hp Hq]; simpl in *. now apply Hf.
Qed.

Lemma grid_bzip_in (f : X -> Y -> result Z) (g : X -> Y -> Z)
    (P : X -> Prop) (Q : Y -> Prop) b h xs ys :
  (forall x y, P x -> Q y -> f x y = Ok (g x y)) ->
  grid b h P xs -> grid b h Q ys ->
  bzip_in (bzip_in f) xs ys = Ok (zip_with (zip_with g) xs ys).
Proof.
  intros Hf [Hlx Hx] [Hly Hy].
  apply bzip_in_same; [lia |].
  eapply Forall_impl; [| exact (Forall_combine Hx Hy)].
  intros [xl yl] [[Hxl Hxp] [Hyl Hyp]]; simpl in *.
  apply bzip_in_same; [lia |].
  eapply Forall_impl; [| exact (Forall_combine Hxp Hyp)].
  intros [x y] [Hp Hq]; simpl in *. now apply Hf.
Qed.

Lemma grid_zip_with (g : X -> Y -> Z)
    (P : X -> Prop) (Q : Y -> Prop) (R : Z -> Prop) b h xs ys :
  (forall x y, P x -> Q y -> R (g x y)) ->
  grid b h P xs -> grid b h Q ys ->
  grid b h R (zip_with (zip_with g) xs ys).
Proof.
  intros Hg [Hlx Hx] [Hly Hy]. split; [rewrite zip_with_length; lia |].
  apply Forall_zip_with.
  eapply Forall_impl; [| exact (Forall_combine Hx Hy)].
  intros [xl yl] [[Hxl Hxp] [Hyl Hyp]]; simpl in *.
  split; [rewrite zip_with_length; lia |].
  apply Forall_zip_with.
  eapply Forall_impl; [| exact (Forall_combine Hxp Hyp)].
  intros [x y] [Hp Hq]; simpl in *. now apply Hg.
Qed.

Lemma grid_map (F : X -> Y) (P : X -> Prop) (Q : Y -> Prop) b h xs :
  (forall x, P x -> Q (F x)) ->
  grid b h P xs -> grid b h Q (map (map F) xs).
Proof.
  intros HF [Hl Hx]. split; [now rewrite length_map |].
  apply Forall_map. eapply Forall_impl; [| exact Hx]. intros l [Hh Hp].
  split; [now rewrite length_map |].
  apply Forall_map. eapply Forall_impl; [| exact Hp]. auto.
Qed.

Lemma grid_nth (P : X -> Prop) b h xs ib ih d :
  grid b h P xs -> ib < b -> ih < h ->
  length (nth ib xs []) = h /\ P (nth ih (nth ib xs []) d).
Proof.
  intros [Hl Hx] Hb Hh. subst b.
  destruct (proj1 (Forall_nth _ xs) Hx ib [] Hb) as [Hlen Hp].
  split; [exact Hlen |].
  apply (proj1 (Forall_nth _ _) Hp). lia.
Qed.

Lemma nth_grid_zip_with (g : X -> Y -> Z)
    (P : X -> Prop) (Q : Y -> Prop) b h xs ys ib ih dx dy dz :
  grid b h P xs -> grid b h Q ys -> ib < b -> ih < h ->
  nth ih (nth ib (zip_with (zip_with g) xs ys) []) dz =
  g (nth ih (nth ib xs []) dx) (nth ih (nth ib ys []) dy).
Proof.
  intros Hx Hy Hb Hh.
  destruct (@grid_nth _ _ _ _ _ _ dx Hx Hb Hh) as [Hlx _].
  assert (Hly : length (nth ib ys []) = h).
  { destruct Hy as [Hl Hf]. subst b.
    exact (proj1 (proj1 (Forall_nth _ ys) Hf ib [] Hb)). }
  destruct Hx as [Hx _], Hy as [Hy _].
  rewrite (nth_zip_with (zip_with g) xs ys [] [] []) by lia.
  apply nth_zip_with; lia.
Qed.

Lemma nth_grid_map (F : X -> Y) (P : X -> Prop) b h xs ib ih dx dy :
  grid b h P xs -> ib < b -> ih < h ->
  nth ih (nth ib (map (map F) xs) []) dy = F (nth ih (nth ib xs []) dx).
Proof.
  intros Hx Hb Hh.
  destruct (@grid_nth _ _ _ _ _ _ dx Hx Hb Hh) as [Hlx _].
  destruct Hx as [Hx _].
  rewrite (nth_map_lt (map F) xs [] []) by lia.
  apply nth_map_lt; lia.
Qed.
End Grid.

(** ** Scaled dot-product attention *)

Lemma rect_grid {X : Type} n c (m : list (list X)) :
  rect n c m -> grid n c (fun _ => True) m.
Proof.
  intros [Hl Hf]. split; [exact Hl |].
  eapply Forall_impl; [| exact Hf]. intros r Hr. split; [exact Hr |].
  apply Forall_forall. auto.
Qed.

Lemma grid_rect {X : Type} (P : X -> Prop) n c (m : list (list X)) :
  grid n c P m -> rect n c m.
Proof.
  intros [Hl Hf]. split; [exact Hl |].
  eapply Forall_impl; [| exact Hf]. now intros r [Hr _].
Qed.

(** The product of a matrix [q] with a matrix [kt]. *)
Lemma matmul2_rect (n k c : nat) (a b : matrix) :
  0 < k -> rect n k a -> rect k c b ->
  exists p, matmul2 a b = Ok p /\ rect n c p /\
            p = map (fun row => map (dot row) (transpose c b)) a.
Proof.
  intros Hk Ha Hb. destruct k as [| k']; [lia |].
  rewrite (matmul2_Ok b Ha (proj1 Hb)), (ncols_rect Hb).
  eexists; split; [reflexivity |]. split; [| reflexivity].
  destruct Ha as [Hl _]. split; [now rewrite length_map |].
  apply Forall_map, Forall_forall. intros r _. rewrite length_map.
  apply (transpose_rect Hb).
Qed.

Lemma masked_fill4_same b h s d (scores : tensor4) (mask : mask4) (v : R) :
  shape4 b h s d scores -> shape4 b h s d mask ->
  masked_fill4 scores mask v =
  Ok (zip_with (zip_with (zip_with (zip_with (fun x (m : bool) => if m then v else x))))
               scores mask).
Proof.
  intros Hs Hm. unfold masked_fill4.
  eapply (grid_bzip_in _ _ (P := rect s d) (Q := rect s d)); [| exact Hs | exact Hm].
  intros x y Hx Hy.
  eapply (grid_bzip_in _ _); [| exact (rect_grid Hx) | exact (rect_grid Hy)].
  reflexivity.
Qed.

Lemma rect_map_rows {X Y : Type} (F : list X -> list Y) n c c' (m : list (list X)) :
  (forall r, length r = c -> length (F r) = c') ->
  rect n c m -> rect n c' (map F m).
Proof.
  intros HF [Hl Hf]. split; [now rewrite length_map |].
  apply Forall_map. eapply Forall_impl; [| exact Hf]. auto.
Qed.

Lemma rect_zip_with {X Y Z : Type} (f : X -> Y -> Z) n c
    (x : list (list X)) (y : list (list Y)) :
  rect n c x -> rect n c y -> rect n c (zip_with (zip_with f) x y).
Proof.
  intros [Hlx Hx] [Hly Hy]. split; [rewrite zip_with_length; lia |].
  apply Forall_zip_with.
  eapply Forall_impl; [| exact (Forall_combine Hx Hy)].
  intros [xr yr] [Hxr Hyr]; simpl in *. rewrite zip_with_length; lia.
Qed.

Lemma softmax_length (r : vector) : length (softmax r) = length r.
Proof. unfold softmax. apply length_map. Qed.

Lemma attn_rows b h sq sk dk (Q K : tensor4) (mask : mask4) :
  0 < sk -> 0 < dk ->
  shape4 b h sq dk Q -> shape4 b h sk dk K -> shape4 b h sq sk mask ->
  exists A, ScaleDotProductAttention.attn Q K mask dk = Ok A /\
    shape4 b h sq sk A /\
    forall ib ih i, ib < b -> ih < h -> i < sq ->
      row4 A ib ih i =
      softmax (Spec.scores_row dk (row4 Q ib ih i) (head4 K ib ih) (row4 mask ib ih i)).
Proof.
  intros Hsk Hdk HQ HK Hmask. unfold ScaleDotProductAttention.attn.
  assert (HKt : grid b h (rect dk sk) (transpose_last2 K)).
  { unfold transpose_last2. eapply grid_map; [| exact HK]. intros k Hk.
    destruct sk as [| sk']; [lia |]. rewrite (ncols_rect Hk).
    now apply transpose_rect. }
  set (mm := fun (q kt : matrix) => map (fun row => map (dot row) (transpose sk kt)) q).
  assert (H1 : matmul4 Q (transpose_last2 K) =
               Ok (zip_with (zip_with mm) Q (transpose_last2 K))).
  { unfold matmul4. eapply grid_bzip; [| exact HQ | exact HKt].
    intros q kt Hq Hkt. destruct (matmul2_rect Hdk Hq Hkt) as (p & Hp & _ & ->).
    exact Hp. }
  rewrite H1. simpl.
  set (qk := zip_with (zip_with mm) Q (transpose_last2 K)).
  assert (Hqk : shape4 b h sq sk qk).
  { eapply grid_zip_with; [| exact HQ | exact HKt].
    intros q kt Hq Hkt. destruct (matmul2_rect Hdk Hq Hkt) as (p & _ & Hp & ->).
    exact Hp. }
  set (div := fun v : R => (v / sqrt (INR dk))%R).
  set (scores := map (map (map (map div))) qk).
  assert (Hsc : shape4 b h sq sk scores).
  { eapply grid_map; [| exact Hqk]. intros m Hm.
    eapply rect_map_rows; [| exact Hm]. intros r Hr. now rewrite length_map. }
  rewrite (masked_fill4_same _ Hsc Hmask). simpl.
  set (fillv := fun (x : R) (m : bool) => if m then (-1e9)%R else x).
  set (filled := zip_with (zip_with (zip_with (zip_with fillv))) scores mask).
  assert (Hfilled : shape4 b h sq sk filled).
  { eapply grid_zip_with; [| exact Hsc | exact Hmask].
    intros x y Hx Hy. now apply rect_zip_with. }
  eexists; split; [reflexivity |]. split.
  - unfold softmax_last. eapply grid_map; [| exact Hfilled]. intros m Hm.
    eapply rect_map_rows; [| exact Hm]. intros r Hr. now rewrite softmax_length.
  - intros ib ih i Hib Hih Hi. unfold row4, head4, softmax_last.
    rewrite (nth_grid_map _ [] [] Hfilled Hib Hih).
    unfold filled.
    rewrite (nth_grid_zip_with _ [] [] [] Hsc Hmask Hib Hih).
    unfold scores.
    rewrite (nth_grid_map _ [] [] Hqk Hib Hih).
    unfold qk.
    rewrite (nth_grid_zip_with _ [] [] [] HQ HKt Hib Hih).
    unfold transpose_last2.
    rewrite (nth_grid_map _ [] [] HK Hib Hih).
    destruct (grid_nth [] HQ Hib Hih) as [_ Hq].
    destruct (grid_nth [] HK Hib Hih) as [_ Hk].
    destruct (grid_nth [] Hmask Hib Hih) as [_ Hm].
    set (q := nth ih (nth ib Q []) []) in *.
    set (k := nth ih (nth ib K []) []) in *.
    set (m := nth ih (nth ib mask []) []) in *.
    assert (Hmm : mm q (transpose (ncols k) k) = map (fun row => map (dot row) k) q).
    { unfold mm. destruct sk as [| sk']; [lia |].
      rewrite (ncols_rect Hk), (transpose_involutive Hk). reflexivity. }
    rewrite Hmm, !map_map.
    destruct Hq as [Hql _], Hm as [Hml _].
    rewrite (nth_map_lt softmax _ [] [])
      by (rewrite zip_with_length; rewrite length_map; lia).
    f_equal.
    rewrite (nth_zip_with (zip_with fillv) _ _ [] [] [])
      by (rewrite ?length_map; lia).
    rewrite (nth_map_lt _ q [] []) by lia.
    rewrite map_map, zip_with_map_l. reflexivity.
Qed.

(** C7.  For [Q] of shape [[batch, heads, seq_q, d_k]], [K] and [V] of shape
    [[batch, heads, seq_k, d_k]] and a boolean mask of shape
    [[batch, heads, seq_q, seq_k]], [ScaleDotProductAttention.forward]
    succeeds, its result has shape [[batch, heads, seq_q, d_k]], and row [i]
    of head [h] of batch element [b] is [softmax(scores_i) . V], where
    [scores_i[j]] is [q_i . k_j / sqrt(d_k)], overwritten by [-1e9] where the
    mask is set. *)
Theorem ScaleDotProductAttention_forward_formula :
  forall (b h sq sk dk : nat) (Q K V : tensor4) (mask : mask4),
    0 < sk -> 0 < dk ->
    shape4 b h sq dk Q -> shape4 b h sk dk K -> shape4 b h sk dk V ->
    shape4 b h sq sk mask ->
    exists context,
      ScaleDotProductAttention.forward Q K V mask dk = Ok context /\
      shape4 b h sq dk context /\
      forall ib ih i, ib < b -> ih < h -> i < sq ->
        row4 context ib ih i =
        Spec.weighted_sum dk
          (softmax (Spec.scores_row dk (row4 Q ib ih i) (head4 K ib ih)
                                    (row4 mask ib ih i)))
          (head4 V ib ih).
Proof.
  intros b h sq sk dk Q K V mask Hsk Hdk HQ HK HV Hmask.
  unfold ScaleDotProductAttention.forward.
  destruct (attn_rows Hsk Hdk HQ HK Hmask) as (A & HA & HAs & HArows).
  rewrite HA. simpl.
  set (mv := fun (a v : matrix) => map (fun w => map (dot w) (transpose dk v)) a).
  assert (H1 : matmul4 A V = Ok (zip_with (zip_with mv) A V)).
  { unfold matmul4. eapply grid_bzip; [| exact HAs | exact HV].
    intros a v Ha Hv. destruct (matmul2_rect Hsk Ha Hv) as (p & Hp & _ & ->).
    exact Hp. }
  rewrite H1. eexists; split; [reflexivity |]. split.
  - eapply grid_zip_with; [| exact HAs | exact HV].
    intros a v Ha Hv. destruct (matmul2_rect Hsk Ha Hv) as (p & _ & Hp & ->).
    exact Hp.
  - intros ib ih i Hib Hih Hi. unfold row4 at 1. unfold head4 at 1.
    rewrite (nth_grid_zip_with _ [] [] [] HAs HV Hib Hih).
    destruct (grid_nth [] HAs Hib Hih) as [_ Ha].
    destruct (grid_nth [] HV Hib Hih) as [_ Hv].
    fold (head4 A ib ih) in *. fold (head4 V ib ih) in *.
    unfold mv. rewrite (nth_map_lt _ (head4 A ib ih) [] []) by (destruct Ha; lia).
    fold (row4 A ib ih i).
    rewrite (@row_times_matrix sk dk); [now rewrite HArows | | exact Hv].
    apply (rect_nth Ha Hi).
Qed.

(** One head, one query, one key of width one. *)
Lemma ScaleDotProductAttention_forward_formula_witness :
  exists context,
    ScaleDotProductAttention.forward [[[[1%R]]]] [[[[1%R]]]] [[[[1%R]]]]
                                     [[[[false]]]] 1 = Ok context /\
    shape4 1 1 1 1 context /\
    forall ib ih i, ib < 1 -> ih < 1 -> i < 1 ->
      row4 context ib ih i =
      Spec.weighted_sum 1
        (softmax (Spec.scores_row 1 (row4 [[[[1%R]]]] ib ih i) (head4 [[[[1%R]]]] ib ih)
                                  (row4 [[[[false]]]] ib ih i)))
        (head4 [[[[1%R]]]] ib ih).
Proof.
  apply (@ScaleDotProductAttention_forward_formula 1 1 1 1 1);
    try lia; (split; [reflexivity |]); repeat constructor.
Defined.

(** ** The decoder's self-attention mask *)

Lemma map_zip_with {X Y Z W : Type} (F : Z -> W) (g : X -> Y -> Z)
    (xs : list X) (ys : list Y) :
  map F (zip_with g xs ys) = zip_with (fun x y => F (g x y)) xs ys.
Proof. unfold zip_with. now rewrite map_map. Qed.

Lemma zip_with_ext {X Y Z : Type} (f g : X -> Y -> Z) (xs : list X) (ys : list Y) :
  (forall x y, f x y = g x y) -> zip_with f xs ys = zip_with g xs ys.
Proof. intros H. unfold zip_with. apply map_ext. intros [x y]. apply H. Qed.

Lemma shape3_pad_mask (b lq lk : nat) (seq_q seq_k : list (list nat)) :
  rect b lq seq_q -> rect b lk seq_k ->
  shape3 b lq lk (get_attn_pad_mask seq_q seq_k).
Proof.
  intros Hq [Hl Hk]. unfold get_attn_pad_mask.
  split; [now rewrite length_map |].
  apply Forall_map. destruct b as [| b'].
  - destruct seq_k; [constructor | discriminate].
  - rewrite (ncols_rect Hq).
    eapply Forall_impl; [| exact Hk]. intros keys Hkeys.
    split; [apply repeat_length |].
    apply Forall_forall. intros r Hr. apply repeat_spec in Hr. subst r.
    now rewrite length_map.
Qed.

Lemma shape3_subsequence_mask (b l : nat) (seq : list (list nat)) :
  rect b l seq -> shape3 b l l (get_attn_subsequence_mask seq).
Proof.
  intros [Hl Hs]. unfold get_attn_subsequence_mask, tabulate.
  split; [now rewrite length_map |].
  apply Forall_map. eapply Forall_impl; [| exact Hs]. intros row Hrow.
  rewrite Hrow. split; [now rewrite length_map, length_seq |].
  apply Forall_map, Forall_forall. intros i _.
  now rewrite length_map, length_seq.
Qed.

Lemma mask_add_same (b s d : nat) (x y : mask3) :
  shape3 b s d x -> shape3 b s d y ->
  mask_add x y =
  Ok (zip_with (zip_with (zip_with (fun p q => Nat.b2n p + Nat.b2n q))) x y).
Proof.
  intros Hx Hy. unfold mask_add.
  eapply (grid_bzip _ _ (P := fun r => length r = d) (Q := fun r => length r = d));
    [| exact Hx | exact Hy].
  intros xr yr Hxr Hyr. apply bzip_same; [lia |].
  apply Forall_forall. reflexivity.
Qed.

Lemma gt_0_sum (x y : mask3) :
  gt_0 (zip_with (zip_with (zip_with (fun p q => Nat.b2n p + Nat.b2n q))) x y) =
  Spec.mask_or x y.
Proof.
  unfold gt_0, Spec.mask_or.
  rewrite map_zip_with. apply zip_with_ext. intros xm ym.
  rewrite map_zip_with. apply zip_with_ext. intros xr yr.
  rewrite map_zip_with. apply zip_with_ext. intros p q.
  now destruct p, q.
Qed.

Lemma self_attn_mask_Ok (b l : nat) (dec_inputs : list (list nat)) :
  rect b l dec_inputs ->
  TransformerDecoder.self_attn_mask dec_inputs =
  Ok (Spec.mask_or (get_attn_pad_mask dec_inputs dec_inputs)
                   (get_attn_subsequence_mask dec_inputs)).
Proof.
  intros H. unfold TransformerDecoder.self_attn_mask.
  rewrite (mask_add_same (shape3_pad_mask H H) (shape3_subsequence_mask H)).
  simpl. now rewrite gt_0_sum.
Qed.

(** C8.  For decoder token ids of shape [[batch, len]], the self-attention
    mask built by [TransformerDecoder.forward] is the entrywise logical or of
    the padding mask of the target and the strict upper-triangular
    subsequence mask, and the loop over the layers passes this one mask to
    every decoder layer. *)
Theorem decoder_self_attn_mask_is_or :
  forall (b l : nat) (dec_inputs : list (list nat)),
    rect b l dec_inputs ->
    let or_mask := Spec.mask_or (get_attn_pad_mask dec_inputs dec_inputs)
                                (get_attn_subsequence_mask dec_inputs) in
    TransformerDecoder.self_attn_mask dec_inputs = Ok or_mask /\
    (forall self pos_mode layer_mode enc_inputs enc_outputs,
        TransformerDecoder.forward self pos_mode layer_mode
                                   enc_inputs dec_inputs enc_outputs =
        (emb <- Embedding.forward (TransformerDecoder.tgt_emb self) dec_inputs ;;
         x <- PositionalEncoding.forward (TransformerDecoder.pos_emb self) pos_mode emb ;;
         TransformerDecoder.run_layers (TransformerDecoder.layers self) 0 layer_mode
           x enc_outputs or_mask (get_attn_pad_mask dec_inputs enc_inputs))) /\
    (forall layer ls i layer_mode x enc_outputs cross_mask,
        TransformerDecoder.run_layers (layer :: ls) i layer_mode
                                      x enc_outputs or_mask cross_mask =
        (out <- TransformerDecoderLayer.forward layer (layer_mode i)
                  x enc_outputs or_mask cross_mask ;;
         TransformerDecoder.run_layers ls (S i) layer_mode
                                       out enc_outputs or_mask cross_mask)).
Proof.
  intros b l dec_inputs H or_mask.
  pose proof (self_attn_mask_Ok H) as Hmask. fold or_mask in Hmask.
  split; [exact Hmask |]. split.
  - intros. unfold TransformerDecoder.forward. rewrite Hmask. reflexivity.
  - reflexivity.
Qed.

Lemma decoder_self_attn_mask_is_or_witness :
  TransformerDecoder.self_attn_mask [[4; 5; 0; 0]] =
  Ok [[[false; true; true; true];
       [false; false; true; true];
       [false; false; true; true];
       [false; false; true; true]]].
Proof.
  assert (H : rect 1 4 [[4; 5; 0; 0]]) by (split; [reflexivity | repeat constructor]).
  destruct (@decoder_self_attn_mask_is_or 1 4 [[4; 5; 0; 0]] H) as [H1 _].
  exact H1.
Defined.

(** ** Causal masking and the attention weights *)

Lemma sum_exp_ge (r : vector) (u : nat) :
  u < length r -> (exp (nth u r 0) <= sum (map exp r))%R.
Proof.
  revert u; induction r as [| a r IH]; intros u Hu; simpl in Hu; [lia |].
  assert (Hpos : (0 <= sum (map exp r))%R).
  { clear. induction r as [| b r IH]; simpl; [lra |].
    pose proof (exp_pos b). lra. }
  destruct u as [| u]; simpl.
  - lra.
  - assert (Hu' : u < length r) by lia. specialize (IH u Hu').
    pose proof (exp_pos a). lra.
Qed.

Lemma softmax_bound (r : vector) (j u : nat) :
  j < length r -> u < length r ->
  (nth j (softmax r) 0 <= exp (nth j r 0 - nth u r 0))%R.
Proof.
  intros Hj Hu. unfold softmax.
  rewrite (nth_map_lt _ r 0%R 0%R Hj).
  pose proof (sum_exp_ge r Hu) as Hz.
  pose proof (exp_pos (nth u r 0%R)) as Hpu.
  pose proof (exp_pos (nth j r 0%R)) as Hpj.
  unfold Rminus. rewrite exp_plus, exp_Ropp. unfold Rdiv.
  apply Rmult_le_compat_l; [lra |].
  apply Rinv_le_contravar; assumption.
Qed.

Lemma nth_scores_row (d_k : nat) (q : vector) (K : matrix) (mask : list bool) (j : nat) :
  j < length K -> j < length mask ->
  nth j (Spec.scores_row d_k q K mask) 0%R =
  if nth j mask true then (-1e9)%R else (dot q (nth j K []) / sqrt (INR d_k))%R.
Proof.
  intros HK Hm. unfold Spec.scores_row.
  now rewrite (nth_zip_with _ K mask [] true 0%R HK Hm).
Qed.

Lemma scores_row_length (d_k : nat) (q : vector) (K : matrix) (mask : list bool) :
  length K = length mask -> length (Spec.scores_row d_k q K mask) = length K.
Proof. intros H. unfold Spec.scores_row. now apply zip_with_length. Qed.

(** Above the diagonal the decoder's mask is set. *)
Lemma self_attn_mask_causal (b l : nat) (dec_inputs : list (list nat)) (M : mask3)
    (ib i j : nat) :
  rect b l dec_inputs ->
  TransformerDecoder.self_attn_mask dec_inputs = Ok M ->
  ib < b -> i < j -> j < l ->
  shape3 b l l M /\ nth j (nth i (nth ib M []) []) true = true.
Proof.
  intros H HM Hib Hij Hj.
  rewrite (self_attn_mask_Ok H) in HM. injection HM as <-.
  pose proof (shape3_pad_mask H H) as Hp.
  pose proof (shape3_subsequence_mask H) as Hs.
  split; [now apply shape3_zip_with |].
  unfold Spec.mask_or.
  rewrite (nth_grid_zip_with _ [] [] [] Hp Hs Hib) by lia.
  destruct (grid_nth (ih := i) [] Hp Hib) as [_ Hpr]; [lia |].
  destruct (grid_nth (ih := i) [] Hs Hib) as [_ Hsr]; [lia |].
  rewrite (nth_zip_with _ _ _ true true true) by lia.
  apply orb_true_iff. right.
  unfold get_attn_subsequence_mask, tabulate.
  destruct H as [Hl Hrows].
  rewrite (nth_map_lt _ dec_inputs [] []) by lia.
  assert (Hrow : length (nth ib dec_inputs []) = l).
  { apply (proj1 (Forall_nth _ dec_inputs) Hrows). lia. }
  rewrite Hrow.
  rewrite (nth_map_lt _ (seq 0 l) 0 []) by (rewrite length_seq; lia).
  rewrite (nth_map_lt _ (seq 0 l) 0 true) by (rewrite length_seq; lia).
  rewrite !seq_nth by lia. simpl. apply Nat.ltb_lt. lia.
Qed.

Lemma shape4_repeat_heads (b h l : nat) (M : mask3) :
  shape3 b l l M -> shape4 b h l l (map (fun m => repeat m h) M).
Proof.
  intros [Hl HM]. split; [now rewrite length_map |].
  apply Forall_map. eapply Forall_impl; [| exact HM]. intros m Hm.
  split; [apply repeat_length |].
  apply Forall_forall. intros x Hx. apply repeat_spec in Hx. now subst x.
Qed.

Lemma row4_repeat_heads (h : nat) (M : mask3) (ib ih i : nat) :
  ib < length M -> ih < h ->
  row4 (map (fun m => repeat m h) M) ib ih i = nth i (nth ib M []) [].
Proof.
  intros Hib Hih. unfold row4, head4.
  rewrite (nth_map_lt _ M [] []) by exact Hib.
  now rewrite (nth_repeat_lt _ [] Hih).
Qed.

(** C2 (as amended).  In every decoder self-attention, at query position [i]
    and key position [j > i] the score is overwritten by [-1e9], and the
    weight after the softmax is at most [exp(-1e9 - s)] for the score [s] of
    any key [u] of row [i] that is not masked. *)
Theorem decoder_causal_weight_bound :
  forall (b h l dk : nat) (dec_inputs : list (list nat)) (Q K : tensor4) (M : mask3),
    0 < l -> 0 < dk ->
    rect b l dec_inputs ->
    shape4 b h l dk Q -> shape4 b h l dk K ->
    TransformerDecoder.self_attn_mask dec_inputs = Ok M ->
    exists A,
      ScaleDotProductAttention.attn Q K (map (fun m => repeat m h) M) dk = Ok A /\
      forall ib ih i j u,
        ib < b -> ih < h -> i < j -> j < l -> u < l ->
        nth u (nth i (nth ib M []) []) true = false ->
        (entry4 A ib ih i j <=
         exp (-1e9 - dot (row4 Q ib ih i) (nth u (head4 K ib ih) []) / sqrt (INR dk)))%R.
Proof.
  intros b h l dk dec_inputs Q K M Hl Hdk Hin HQ HK HM.
  assert (HMs : shape3 b l l M).
  { rewrite (self_attn_mask_Ok Hin) in HM. injection HM as <-.
    apply shape3_zip_with;
      [now apply shape3_pad_mask | now apply shape3_subsequence_mask]. }
  destruct (attn_rows Hl Hdk HQ HK (shape4_repeat_heads h HMs))
    as (A & HA & _ & Hrows).
  exists A. split; [exact HA |].
  intros ib ih i j u Hib Hih Hij Hj Hu Hfree.
  destruct (self_attn_mask_causal Hin HM Hib Hij Hj) as [_ Hmasked].
  unfold entry4. rewrite (Hrows ib ih i Hib Hih) by lia.
  rewrite row4_repeat_heads by (destruct HMs; lia).
  set (mrow := nth i (nth ib M []) []) in *.
  assert (Hmrow : length mrow = l).
  { apply (rect_nth (shape3_nth HMs Hib)). lia. }
  assert (HKh : length (head4 K ib ih) = l).
  { destruct (grid_nth [] HK Hib Hih) as [_ [Hk _]]. exact Hk. }
  set (r := Spec.scores_row dk (row4 Q ib ih i) (head4 K ib ih) mrow).
  assert (Hr : length r = l).
  { unfold r. rewrite scores_row_length; lia. }
  assert (Hrj : nth j r 0%R = (-1e9)%R).
  { unfold r. rewrite nth_scores_row by lia. now rewrite Hmasked. }
  assert (Hru : nth u r 0%R =
                (dot (row4 Q ib ih i) (nth u (head4 K ib ih) []) / sqrt (INR dk))%R).
  { unfold r. rewrite nth_scores_row by lia. now rewrite Hfree. }
  rewrite <- Hrj, <- Hru. apply softmax_bound; lia.
Qed.

(** The bound on the decoder input [[5, 0]] with zero queries and keys: the
    weight of query 0 on key 1 is at most [exp(-1e9)]. *)
Lemma decoder_causal_weight_bound_witness :
  exists A,
    ScaleDotProductAttention.attn [[[[0%R]; [0%R]]]] [[[[0%R]; [0%R]]]]
      (map (fun m => repeat m 1) [[[false; true]; [false; true]]]) 1 = Ok A /\
    (entry4 A 0 0 0 1 <=
     exp (-1e9 - dot (row4 [[[[0%R]; [0%R]]]] 0 0 0)
                     (nth 0 (head4 [[[[0%R]; [0%R]]]] 0 0) []) / sqrt (INR 1)))%R.
Proof.
  assert (Hin : rect 1 2 [[5; 0]]) by (split; [reflexivity | repeat constructor]).
  assert (HQ : shape4 1 1 2 1 [[[[0%R]; [0%R]]]])
    by (split; [reflexivity | repeat constructor]).
  destruct (@decoder_causal_weight_bound 1 1 2 1 [[5; 0]]
              [[[[0%R]; [0%R]]]] [[[[0%R]; [0%R]]]]
              [[[false; true]; [false; true]]])
    as (A & HA & Hbound); try lia; try assumption; try reflexivity.
  exists A. split; [exact HA |].
  apply (Hbound 0 0 0 1 0); try lia. reflexivity.
Defined.

(** C2 fails as stated.  On the decoder input [[0, 5]], whose first token is
    the padding token, every key of query 0 is masked (key 0 by the padding
    mask, key 1 by the subsequence mask): its row of weights is uniform, and
    the weight on the later key 1 is [1/2], not zero. *)
Lemma decoder_causal_weight_not_zero :
  exists M A,
    TransformerDecoder.self_attn_mask [[0; 5]] = Ok M /\
    ScaleDotProductAttention.attn [[[[0%R]; [0%R]]]] [[[[0%R]; [0%R]]]]
      (map (fun m => repeat m 1) M) 1 = Ok A /\
    entry4 A 0 0 0 1 = (1 / 2)%R /\
    entry4 A 0 0 0 1 <> 0%R.
Proof.
  exists [[[true; true]; [true; false]]].
  assert (HQ : shape4 1 1 2 1 [[[[0%R]; [0%R]]]])
    by (split; [reflexivity | repeat constructor]).
  assert (Hm : shape4 1 1 2 2 (map (fun m => repeat m 1) [[[true; true]; [true; false]]]))
    by (split; [reflexivity | repeat constructor]).
  destruct (@attn_rows 1 1 2 2 1 _ _ _ ltac:(lia) ltac:(lia) HQ HQ Hm)
    as (A & HA & _ & Hrows).
  exists A. split; [reflexivity |]. split; [exact HA |].
  assert (Hval : entry4 A 0 0 0 1 = (1 / 2)%R).
  { unfold entry4. rewrite (Hrows 0 0 0) by lia.
    unfold row4, head4, Spec.scores_row, zip_with, softmax, sum. simpl.
    pose proof (exp_pos (-1e9)) as Hpos. field. lra. }
  split; [exact Hval |]. rewrite Hval. lra.
Qed.

(** ** Positional encoding *)

(** The table for [d_model = 2] and [max_len = 2]: row 0 is [[0, 1]], row 1
    is [[sin 1, cos 1]]. *)
Lemma PositionalEncoding_init_2_2 :
  PositionalEncoding.init 2 0%R 2 =
  Ok {| PositionalEncoding.dropout := {| Dropout.p := 0%R |};
        PositionalEncoding.pe := [[[0; 1]]; [[sin 1; cos 1]]]%R |}.
Proof.
  unfold PositionalEncoding.init. rewrite Dropout_init_Ok by lra.
  simpl. now rewrite !Rmult_0_l, exp_0, Rmult_1_r, sin_0, cos_0.
Qed.

Lemma sin_1_neq_0 : sin 1 <> 0%R.
Proof.
  assert (H : (0 < sin 1)%R).
  { apply sin_gt_0; [lra |]. pose proof PI2_1. lra. }
  lra.
Qed.

(** C1 fails on the code.  With the table for [d_model = 2], on a zero
    input of shape [[batch = 1, seq_len = 2, d_model = 2]] (evaluation mode)
    [forward] adds row 0 of the table, the row of the batch index, at both
    positions, where [x + pe[:seq_len]] has row 1, [[sin 1, cos 1]], at
    position 1. *)
Theorem PositionalEncoding_forward_adds_batch_row :
  exists self,
    PositionalEncoding.init 2 0%R 2 = Ok self /\
    PositionalEncoding.forward self Eval [[[0; 0]; [0; 0]]]%R =
      Ok [[[0; 1]; [0; 1]]]%R /\
    Spec.positional_encoding self Eval [[[0; 0]; [0; 0]]]%R =
      Ok [[[0; 1]; [sin 1; cos 1]]]%R /\
    PositionalEncoding.forward self Eval [[[0; 0]; [0; 0]]]%R <>
      Spec.positional_encoding self Eval [[[0; 0]; [0; 0]]]%R.
Proof.
  eexists. split; [exact PositionalEncoding_init_2_2 |].
  assert (H1 : PositionalEncoding.forward
                 {| PositionalEncoding.dropout := {| Dropout.p := 0%R |};
                    PositionalEncoding.pe := [[[0; 1]]; [[sin 1; cos 1]]]%R |}
                 Eval [[[0; 0]; [0; 0]]]%R = Ok [[[0; 1]; [0; 1]]]%R).
  { unfold PositionalEncoding.forward, iadd3. simpl.
    now rewrite !Rplus_0_l. }
  assert (H2 : Spec.positional_encoding
                 {| PositionalEncoding.dropout := {| Dropout.p := 0%R |};
                    PositionalEncoding.pe := [[[0; 1]]; [[sin 1; cos 1]]]%R |}
                 Eval [[[0; 0]; [0; 0]]]%R = Ok [[[0; 1]; [sin 1; cos 1]]]%R).
  { unfold Spec.positional_encoding, zip_with. simpl.
    now rewrite !Rplus_0_l. }
  split; [exact H1 |]. split; [exact H2 |].
  rewrite H1, H2. intros H. injection H as H. apply sin_1_neq_0. lra.
Qed.

(** C3 fails on the code.  With a table of [max_len = 2] rows, an input of
    shape [[batch = 1, seq_len = 3, d_model = 2]] is longer than the table,
    and [forward] returns a result, row 0 of the table added at each of the
    three positions, where a check of [seq_len] against the table raises. *)
Theorem PositionalEncoding_forward_long_sequence :
  exists self,
    PositionalEncoding.init 2 0%R 2 = Ok self /\
    length (PositionalEncoding.pe self) = 2 /\
    PositionalEncoding.forward self Eval [[[0; 0]; [0; 0]; [0; 0]]]%R =
      Ok [[[0; 1]; [0; 1]; [0; 1]]]%R /\
    Spec.positional_encoding self Eval [[[0; 0]; [0; 0]; [0; 0]]]%R =
      Raise IndexError.
Proof.
  eexists. split; [exact PositionalEncoding_init_2_2 |].
  split; [reflexivity |]. split.
  - unfold PositionalEncoding.forward, iadd3. simpl.
    now rewrite !Rplus_0_l.
  - reflexivity.
Qed.

(** ** Shapes through the attention module *)

Lemma grid_concat {X : Type} (P : X -> Prop) b s (x : list (list X)) :
  grid b s P x -> length (concat x) = b * s /\ Forall P (concat x).
Proof.
  intros Hx. split.
  - apply rect_concat_length. now apply grid_rect with P.
  - apply Forall_concat. destruct Hx as [_ Hf].
    eapply Forall_impl; [| exact Hf]. now intros m [_ Hm].
Qed.

Lemma view4_Ok (b s h dk : nat) (y : tensor3) :
  0 < b -> 0 < h -> 0 < dk ->
  shape3 b s (h * dk) y ->
  exists v, view4 b h dk y = Ok v /\ shape4 b s h dk v /\
            concat (concat (concat v)) = concat (concat y).
Proof.
  intros Hb Hh Hdk Hy.
  pose proof (shape3_concat Hy) as Hrows.
  pose proof (rect_concat_length Hrows) as Hflat.
  set (flat := concat (concat y)).
  change (length flat = b * s * (h * dk)) in Hflat.
  assert (Hk : b * h * dk <> 0)
    by (apply Nat.neq_mul_0; split; [apply Nat.neq_mul_0 |]; lia).
  exists (chunks b s (chunks (b * s) h (chunks (b * s * h) dk flat))).
  assert (Hpieces : rect (b * s * h) dk (chunks (b * s * h) dk flat))
    by (apply chunks_rect; rewrite Hflat; ring).
  assert (H3 : shape3 (b * s) h dk (chunks (b * s) h (chunks (b * s * h) dk flat)))
    by now apply shape3_chunks.
  split; [| split].
  - unfold view4. fold flat.
    destruct (Nat.eqb_spec (b * h * dk) 0) as [E | _]; [contradiction |].
    replace (length flat) with (s * (b * h * dk)) by (rewrite Hflat; ring).
    rewrite Nat.Div0.mod_mul, Nat.div_mul by exact Hk. reflexivity.
  - destruct (shape3_chunks b s (shape3_rect H3)) as [Hl H4].
    split; [exact Hl |].
    pose proof (Forall_chunks b s (proj2 H3)) as H5.
    revert H4 H5. generalize (chunks b s (chunks (b * s) h (chunks (b * s * h) dk flat))).
    intros v H4 H5. induction v as [| m v IH]; constructor;
      inversion H4; inversion H5; subst; [| now apply IH].
    split; [apply H1 | assumption].
  - rewrite !concat_chunks; try reflexivity; rewrite ?chunks_length; try reflexivity.
    rewrite Hflat; ring.
Qed.

Lemma shape4_transpose_1_2 (b s h dk : nat) (v : tensor4) :
  shape4 b s h dk v -> shape4 b h s dk (transpose_1_2 h v).
Proof.
  intros [Hl Hv]. unfold transpose_1_2. split; [now rewrite length_map |].
  apply Forall_map. eapply Forall_impl; [| exact Hv].
  intros m Hm. now apply shape3_transpose.
Qed.

Lemma split_heads_Ok (b s h dk : nat) (y : tensor3) :
  0 < b -> 0 < h -> 0 < dk ->
  shape3 b s (h * dk) y ->
  exists t, MultiheadAttention.split_heads b h dk y = Ok t /\ shape4 b h s dk t.
Proof.
  intros Hb Hh Hdk Hy.
  destruct (view4_Ok Hb Hh Hdk Hy) as (v & Hv & Hs & _).
  unfold MultiheadAttention.split_heads. rewrite Hv. simpl.
  eexists; split; [reflexivity |]. now apply shape4_transpose_1_2.
Qed.

Lemma merge_heads_Ok (b h s dk : nat) (c : tensor4) :
  0 < b -> 0 < h -> 0 < dk ->
  shape4 b h s dk c ->
  exists out, MultiheadAttention.merge_heads b (h * dk) c = Ok out /\
              shape3 b s (h * dk) out.
Proof.
  intros Hb Hh Hdk Hc. unfold MultiheadAttention.merge_heads.
  set (t := map (fun m => transpose (ncols m) m) c).
  assert (Ht : shape4 b s h dk t).
  { destruct Hc as [Hl Hc]. split; [unfold t; now rewrite length_map |].
    apply Forall_map. eapply Forall_impl; [| exact Hc]. intros m Hm.
    destruct h as [| h']; [lia |].
    rewrite (ncols_rect (shape3_rect Hm)). now apply shape3_transpose. }
  destruct (grid_concat Ht) as [Hl1 Hf1].
  assert (H1 : grid (b * s) h (fun r : vector => length r = dk) (concat t))
    by (split; assumption).
  destruct (grid_concat H1) as [Hl2 Hf2].
  assert (H2 : rect (b * s * h) dk (concat (concat t))) by (split; assumption).
  pose proof (rect_concat_length H2) as Hflat.
  set (flat := concat (concat (concat t))).
  change (length flat = b * s * h * dk) in Hflat.
  unfold reshape3. fold flat.
  destruct (Nat.eqb_spec (b * (h * dk)) 0) as [E | _]; [lia |].
  replace (length flat) with (s * (b * (h * dk))) by (rewrite Hflat; ring).
  rewrite Nat.Div0.mod_mul, Nat.div_mul by lia.
  eexists; split; [reflexivity |].
  apply shape3_chunks, chunks_rect. rewrite Hflat; ring.
Qed.

Lemma sdpa_forward_shape (b h sq sk dk : nat) (Q K V : tensor4) (mask : mask4) :
  0 < sk -> 0 < dk ->
  shape4 b h sq dk Q -> shape4 b h sk dk K -> shape4 b h sk dk V ->
  shape4 b h sq sk mask ->
  exists context,
    ScaleDotProductAttention.forward Q K V mask dk = Ok context /\
    shape4 b h sq dk context.
Proof.
  intros Hsk Hdk HQ HK HV Hmask. unfold ScaleDotProductAttention.forward.
  destruct (attn_rows Hsk Hdk HQ HK Hmask) as (A & HA & HAs & _).
  rewrite HA. simpl.
  set (mv := fun (a v : matrix) => map (fun w => map (dot w) (transpose dk v)) a).
  exists (zip_with (zip_with mv) A V). split.
  - unfold matmul4. eapply grid_bzip; [| exact HAs | exact HV].
    intros a v Ha Hv. destruct (matmul2_rect Hsk Ha Hv) as (p & Hp & _ & ->).
    exact Hp.
  - eapply grid_zip_with; [| exact HAs | exact HV].
    intros a v Ha Hv. destruct (matmul2_rect Hsk Ha Hv) as (p & _ & Hp & ->).
    exact Hp.
Qed.

Lemma shape4_repeat (b h s1 s2 : nat) (M : mask3) :
  shape3 b s1 s2 M -> shape4 b h s1 s2 (map (fun m => repeat m h) M).
Proof.
  intros [Hl HM]. split; [now rewrite length_map |].
  apply Forall_map. eapply Forall_impl; [| exact HM]. intros m Hm.
  split; [apply repeat_length |].
  apply Forall_forall. intros x Hx. apply repeat_spec in Hx. now subst x.
Qed.

Lemma Linear_init_forward (n_in n_out : nat) (has_bias : bool)
    (w : nat -> nat -> R) (bv : nat -> R) (b s : nat) (x : tensor3) :
  shape3 b s n_in x ->
  exists y, Linear.forward (Linear.init n_in n_out has_bias w bv) x = Ok y /\
            shape3 b s n_out y.
Proof.
  intros Hx.
  rewrite (@Linear_forward_Ok (Linear.init n_in n_out has_bias w bv) b s x Hx).
  eexists; split; [reflexivity |].
  eapply shape3_map_rows; [| exact Hx]. intros r _. apply Linear_init_row_length.
Qed.

Lemma MultiheadAttention_init_fields e h p w self :
  MultiheadAttention.init e h p w = Ok self ->
  h <> 0 /\ e = h * (e / h) /\
  MultiheadAttention.embed_dim self = e /\
  MultiheadAttention.num_heads self = h /\
  MultiheadAttention.dropout self = p /\
  MultiheadAttention.q_w self = Linear.init e e false (w 0) (fun _ => 0%R) /\
  MultiheadAttention.k_w self = Linear.init e e false (w 1) (fun _ => 0%R) /\
  MultiheadAttention.v_w self = Linear.init e e false (w 2) (fun _ => 0%R) /\
  MultiheadAttention.fc self = Linear.init e e false (w 3) (fun _ => 0%R).
Proof.
  unfold MultiheadAttention.init.
  destruct (Nat.eqb_spec h 0) as [| Hh]; [discriminate |].
  destruct (Nat.eqb_spec (e / h * h) e) as [He |]; [| discriminate].
  destruct (MultiheadAttention._reset_parameters e) as [[] | x]; [| discriminate].
  intros H; injection H as <-. simpl. repeat split; auto. lia.
Qed.

(** A constructed attention module on a query of shape [[b, sq, e]], a key
    and a value of shape [[b, sk, e]] and a mask of shape [[b, sq, sk]]:
    the result has the shape of the query. *)
Lemma MultiheadAttention_forward_Ok e h p w self (b sq sk : nat)
    (query key value : tensor3) (attn_mask : mask3) :
  MultiheadAttention.init e h p w = Ok self ->
  0 < e -> 0 < b -> 0 < sk ->
  shape3 b sq e query -> shape3 b sk e key -> shape3 b sk e value ->
  shape3 b sq sk attn_mask ->
  exists out, MultiheadAttention.forward self query key value attn_mask = Ok out /\
              shape3 b sq e out.
Proof.
  intros Hinit He Hb Hsk Hq Hk Hv Hm.
  destruct (MultiheadAttention_init_fields _ _ _ _ Hinit)
    as (Hh & Hdiv & He' & Hh'' & _ & Hqw & Hkw & Hvw & Hfc).
  set (dk := e / h) in *.
  assert (Hdk : 0 < dk) by (destruct dk; [lia | lia]).
  assert (Hh' : 0 < h) by lia.
  unfold MultiheadAttention.forward. rewrite He', Hh'', Hqw, Hkw, Hvw, Hfc.
  destruct (Nat.eqb_spec h 0) as [| _]; [contradiction |].
  fold dk.
  assert (Hlen : length query = b) by apply Hq. rewrite Hlen.
  destruct (Linear_init_forward e false (w 0) (fun _ => 0%R) Hq) as (q & -> & Hq').
  simpl. rewrite Hdiv in Hq'.
  destruct (split_heads_Ok Hb Hh' Hdk Hq') as (Q & -> & HQ). simpl.
  destruct (Linear_init_forward e false (w 1) (fun _ => 0%R) Hk) as (k & -> & Hk').
  simpl. rewrite Hdiv in Hk'.
  destruct (split_heads_Ok Hb Hh' Hdk Hk') as (K & -> & HK). simpl.
  destruct (Linear_init_forward e false (w 2) (fun _ => 0%R) Hv) as (v & -> & Hv').
  simpl. rewrite Hdiv in Hv'.
  destruct (split_heads_Ok Hb Hh' Hdk Hv') as (V & -> & HV). simpl.
  destruct (sdpa_forward_shape Hsk Hdk HQ HK HV (shape4_repeat h Hm))
    as (c & -> & Hc). simpl.
  destruct (merge_heads_Ok Hb Hh' Hdk Hc) as (c' & Hc' & Hcs).
  rewrite <- Hdiv in Hc', Hcs. rewrite Hc'. simpl.
  destruct (Linear_init_forward e false (w 3) (fun _ => 0%R) Hcs) as (o & -> & Ho).
  simpl. rewrite (iadd3_same Ho Hq). simpl.
  pose proof (shape3_zip_with Rplus Ho Hq) as Hs.
  rewrite (LayerNorm_forward_Ok Hs).
  eexists; split; [reflexivity |]. now apply shape3_LayerNorm.
Qed.

Lemma FeedForWard_forward_Ok d ffd prob w bv self (m : mode) (b s : nat) (x : tensor3) :
  FeedForWard.init d ffd prob w bv = Ok self ->
  shape3 b s d x ->
  exists out, FeedForWard.forward self m x = Ok out /\ shape3 b s d out.
Proof.
  intros Hinit Hx.
  destruct (FeedForWard_init_fields _ _ _ _ _ Hinit) as (Hd & H0 & H3 & _).
  unfold FeedForWard.forward, FeedForWard.fc. rewrite H0, H3, Hd.
  destruct (Linear_init_forward ffd true (w 0) (bv 0) Hx) as (x0 & -> & Hx0). simpl.
  pose proof (shape3_ReLU (shape3_Dropout (FeedForWard.fc_1 self) m Hx0)) as Hx2.
  destruct (Linear_init_forward d true (w 1) (bv 1) Hx2) as (y & -> & Hy). simpl.
  rewrite (iadd3_same Hy Hx). simpl.
  pose proof (shape3_zip_with Rplus Hy Hx) as Hs.
  rewrite (LayerNorm_forward_Ok Hs).
  eexists; split; [reflexivity |]. now apply shape3_LayerNorm.
Qed.

(** ** The decoder layer *)

Lemma TransformerDecoderLayer_init_fields d h ffd prob w bv self :
  TransformerDecoderLayer.init d h ffd prob w bv = Ok self ->
  MultiheadAttention.init d h 0%R (w 0) = Ok (TransformerDecoderLayer.dec_self_attn self) /\
  MultiheadAttention.init d h 0%R (w 1) = Ok (TransformerDecoderLayer.dec_enc_attn self) /\
  FeedForWard.init d ffd prob (w 2) bv = Ok (TransformerDecoderLayer.feedforward self).
Proof.
  unfold TransformerDecoderLayer.init. intros H.
  apply bind_Ok in H. destruct H as (a1 & H1 & H).
  apply bind_Ok in H. destruct H as (a2 & H2 & H).
  apply bind_Ok in H. destruct H as (ff & H3 & H).
  injection H as <-. simpl. auto.
Qed.

(** C4.  In [TransformerDecoderLayer.forward] the cross-attention module
    [dec_enc_attn] receives the encoder output as its query argument and the
    output of the decoder self-attention as its key and its value: the
    encoder output goes through [q_w], fixes the batch size of the views and
    is the residual; the self-attention output goes through [k_w] and
    [v_w].  So on decoder states of shape [[batch, len_dec, d_model]], an
    encoder output of shape [[batch, len_enc, d_model]] and a cross mask of
    shape [[batch, len_enc, len_dec]] (queries from the encoder, keys from
    the decoder) the layer returns a tensor of the encoder's shape. *)
Theorem TransformerDecoderLayer_cross_attention_operands :
  forall (d_model num_heads feedforward_dim : nat) (prob : R)
         (w : nat -> nat -> nat -> nat -> R) (bv : nat -> nat -> R)
         (self : TransformerDecoderLayer.t),
    TransformerDecoderLayer.init d_model num_heads feedforward_dim prob w bv = Ok self ->
    0 < d_model ->
    let cross := TransformerDecoderLayer.dec_enc_attn self in
    let d_k := d_model / num_heads in
    (forall m dec_inputs enc_inputs dec_self_attn_mask dec_enc_attn_mask,
        TransformerDecoderLayer.forward self m dec_inputs enc_inputs
                                        dec_self_attn_mask dec_enc_attn_mask =
        (self_out <- MultiheadAttention.forward (TransformerDecoderLayer.dec_self_attn self)
                       dec_inputs dec_inputs dec_inputs dec_self_attn_mask ;;
         q <- Linear.forward (MultiheadAttention.q_w cross) enc_inputs ;;
         Q <- MultiheadAttention.split_heads (length enc_inputs) num_heads d_k q ;;
         k <- Linear.forward (MultiheadAttention.k_w cross) self_out ;;
         K <- MultiheadAttention.split_heads (length enc_inputs) num_heads d_k k ;;
         v <- Linear.forward (MultiheadAttention.v_w cross) self_out ;;
         V <- MultiheadAttention.split_heads (length enc_inputs) num_heads d_k v ;;
         context <- ScaleDotProductAttention.forward Q K V
                      (map (fun mk => repeat mk num_heads) dec_enc_attn_mask) d_k ;;
         merged <- MultiheadAttention.merge_heads (length enc_inputs) d_model context ;;
         projected <- Linear.forward (MultiheadAttention.fc cross) merged ;;
         with_residual <- iadd3 projected enc_inputs ;;
         cross_out <- LayerNorm.forward d_model with_residual ;;
         FeedForWard.forward (TransformerDecoderLayer.feedforward self) m cross_out)) /\
    (forall m batch len_dec len_enc dec_inputs enc_inputs
            dec_self_attn_mask dec_enc_attn_mask,
        0 < batch -> 0 < len_dec ->
        shape3 batch len_dec d_model dec_inputs ->
        shape3 batch len_enc d_model enc_inputs ->
        shape3 batch len_dec len_dec dec_self_attn_mask ->
        shape3 batch len_enc len_dec dec_enc_attn_mask ->
        exists out,
          TransformerDecoderLayer.forward self m dec_inputs enc_inputs
                                          dec_self_attn_mask dec_enc_attn_mask = Ok out /\
          shape3 batch len_enc d_model out).
Proof.
  intros d h ffd prob w bv self Hinit Hd cross d_k.
  destruct (TransformerDecoderLayer_init_fields _ _ _ _ _ _ Hinit) as (H1 & H2 & H3).
  split.
  - intros m dec enc m1 m2. unfold TransformerDecoderLayer.forward.
    destruct (MultiheadAttention.forward _ dec dec dec m1) as [self_out | e];
      [simpl | reflexivity].
    fold cross.
    destruct (MultiheadAttention_init_fields _ _ _ _ H2)
      as (Hh & _ & He & Hh' & _).
    fold cross in He, Hh'.
    unfold MultiheadAttention.forward. rewrite He, Hh'.
    destruct (Nat.eqb_spec h 0) as [| _]; [contradiction |]. fold d_k.
    repeat match goal with
           | |- bind (bind ?r _) _ = bind ?r _ =>
               destruct r; simpl; [| reflexivity]
           end.
    reflexivity.
  - intros m b ld le dec enc m1 m2 Hb Hld Hdec Henc Hm1 Hm2.
    unfold TransformerDecoderLayer.forward.
    destruct (@MultiheadAttention_forward_Ok _ _ _ _ _ _ _ _ _ _ _ _ H1 Hd Hb Hld Hdec Hdec Hdec Hm1)
      as (self_out & -> & Hso). simpl.
    destruct (@MultiheadAttention_forward_Ok _ _ _ _ _ _ _ _ _ _ _ _ H2 Hd Hb Hld Henc Hso Hso Hm2)
      as (cross_out & -> & Hco). simpl.
    exact (@FeedForWard_forward_Ok _ _ _ _ _ _ m _ _ _ H3 Hco).
Qed.

(** A layer of width one with one head: one decoder position, two encoder
    positions; the result has the two positions of the encoder output. *)
Lemma TransformerDecoderLayer_cross_attention_operands_witness :
  exists self,
    TransformerDecoderLayer.init 1 1 1 0%R (fun _ _ _ _ => 0%R) (fun _ _ => 0%R) = Ok self /\
    exists out,
      TransformerDecoderLayer.forward self Eval [[[1%R]]] [[[1%R]; [2%R]]]
                                      [[[false]]] [[[false]; [false]]] = Ok out /\
      shape3 1 2 1 out.
Proof.
  assert (Hinit : exists self,
             TransformerDecoderLayer.init 1 1 1 0%R (fun _ _ _ _ => 0%R) (fun _ _ => 0%R) =
             Ok self).
  { unfold TransformerDecoderLayer.init, FeedForWard.init. simpl.
    rewrite Dropout_init_Ok by lra. simpl. eexists; reflexivity. }
  destruct Hinit as (self & Hinit). exists self. split; [exact Hinit |].
  destruct (@TransformerDecoderLayer_cross_attention_operands 1 1 1 0%R _ _ self Hinit)
    as [_ Hshape]; [lia |].
  apply (Hshape Eval 1 1 2); try lia; (split; [reflexivity | repeat constructor]).
Defined.

(** ** Dropout and the attention modules *)

Lemma MultiheadAttention_forward_same_weights e h p p' w m m'
    (query key value : tensor3) (attn_mask : mask3) :
  MultiheadAttention.init e h p w = Ok m ->
  MultiheadAttention.init e h p' w = Ok m' ->
  MultiheadAttention.forward m query key value attn_mask =
  MultiheadAttention.forward m' query key value attn_mask.
Proof.
  intros H H'.
  destruct (MultiheadAttention_init_fields _ _ _ _ H)
    as (_ & _ & He & Hh & _ & Hq & Hk & Hv & Hfc).
  destruct (MultiheadAttention_init_fields _ _ _ _ H')
    as (_ & _ & He' & Hh' & _ & Hq' & Hk' & Hv' & Hfc').
  unfold MultiheadAttention.forward.
  now rewrite He, Hh, Hq, Hk, Hv, Hfc, He', Hh', Hq', Hk', Hv', Hfc'.
Qed.

(** ** The sinusoidal table *)

Lemma set_odd_set_even_cons (a b v x : R) (row vs cs : vector) :
  PositionalEncoding.set_odd (PositionalEncoding.set_even (a :: b :: row) (v :: vs)) (x :: cs) =
  v :: x :: PositionalEncoding.set_odd (PositionalEncoding.set_even row vs) cs.
Proof.
  simpl. now destruct (PositionalEncoding.set_even row vs).
Qed.

Lemma set_odd_set_even_nth (n : nat) (row s c : vector) :
  length row = 2 * n -> length s = n -> length c = n ->
  length (PositionalEncoding.set_odd (PositionalEncoding.set_even row s) c) = 2 * n /\
  forall i, i < n ->
    nth (2 * i) (PositionalEncoding.set_odd (PositionalEncoding.set_even row s) c) 0%R =
      nth i s 0%R /\
    nth (2 * i + 1) (PositionalEncoding.set_odd (PositionalEncoding.set_even row s) c) 0%R =
      nth i c 0%R.
Proof.
  revert row s c; induction n as [| n IH]; intros row s c Hr Hs Hc.
  - destruct row; [| discriminate]. split; [reflexivity | intros i Hi; lia].
  - destruct row as [| a [| b row]]; try (simpl in Hr; lia).
    destruct s as [| v vs]; [discriminate |].
    destruct c as [| x cs]; [discriminate |].
    rewrite set_odd_set_even_cons.
    assert (Hr' : length row = 2 * n) by (simpl in Hr; lia).
    assert (Hs' : length vs = n) by (simpl in Hs; lia).
    assert (Hc' : length cs = n) by (simpl in Hc; lia).
    destruct (IH row vs cs Hr' Hs' Hc') as [Hl Hn].
    split; [cbn [length]; rewrite Hl; lia |].
    intros [| i] Hi; [split; reflexivity |].
    replace (2 * S i) with (S (S (2 * i))) by lia.
    replace (S (S (2 * i)) + 1) with (S (S (2 * i + 1))) by lia.
    cbn [nth]. apply Hn. lia.
Qed.

Lemma arange2_length (d : nat) :
  length (PositionalEncoding.arange2 d) = Nat.div2 (d + 1).
Proof. unfold PositionalEncoding.arange2. now rewrite length_map, length_seq. Qed.

Lemma div_term_length (d : nat) :
  length (PositionalEncoding.div_term d) = Nat.div2 (d + 1).
Proof. unfold PositionalEncoding.div_term. now rewrite length_map, arange2_length. Qed.

Lemma div_term_nth (d i : nat) :
  i < Nat.div2 (d + 1) ->
  nth i (PositionalEncoding.div_term d) 0%R =
  exp (INR (2 * i) * (- ln 10000 / INR d))%R.
Proof.
  intros Hi. unfold PositionalEncoding.div_term, PositionalEncoding.arange2.
  rewrite map_map.
  rewrite (nth_map_lt _ (seq 0 (Nat.div2 (d + 1))) 0 0%R) by now rewrite length_seq.
  now rewrite seq_nth by exact Hi.
Qed.

Lemma assign_cols_Ok (set : vector -> vector -> vector) (slots : nat)
    (target value : matrix) :
  length value = length target ->
  Forall (fun vals => length vals = slots) value ->
  PositionalEncoding.assign_cols set slots slots target value =
  Ok (zip_with set target value).
Proof.
  intros Hl Hv. unfold PositionalEncoding.assign_cols.
  rewrite (bcast_to_same (repeat tt slots) (repeat_length tt slots)).
  cbv beta iota delta [bind].
  apply bzip_in_same; [exact Hl |].
  assert (Ht : Forall (fun _ : vector => True) target) by (apply Forall_forall; auto).
  eapply Forall_impl; [| exact (Forall_combine Ht Hv)].
  intros [row vals] [_ Hvals]; simpl in *.
  now rewrite (bcast_to_same vals Hvals).
Qed.

(** The table a positional encoding of even width is built with: row [pos]
    holds [sin (pos * w_i)] at column [2 i] and [cos (pos * w_i)] at column
    [2 i + 1]. *)
Lemma PositionalEncoding_init_even (n : nat) (prob : R) (max_len : nat) :
  0 < n -> (0 <= prob <= 1)%R ->
  exists self,
    PositionalEncoding.init (2 * n) prob max_len = Ok self /\
    PositionalEncoding.dropout self = {| Dropout.p := prob |} /\
    shape3 max_len 1 (2 * n) (PositionalEncoding.pe self) /\
    forall pos i, pos < max_len -> i < n ->
      entry3 (PositionalEncoding.pe self) pos 0 (2 * i) =
        sin (INR pos * exp (INR (2 * i) * (- ln 10000 / INR (2 * n))))%R /\
      entry3 (PositionalEncoding.pe self) pos 0 (2 * i + 1) =
        cos (INR pos * exp (INR (2 * i) * (- ln 10000 / INR (2 * n))))%R.
Proof.
  intros Hn Hp. unfold PositionalEncoding.init.
  rewrite (Dropout_init_Ok Hp). cbv beta iota delta [bind].
  destruct (Nat.eqb_spec (2 * n) 0) as [E | _]; [lia |].
  replace (Nat.div2 (2 * n + 1)) with n
    by (replace (2 * n + 1) with (S (2 * n)) by lia; now rewrite Nat.div2_succ_double).
  rewrite Nat.div2_double.
  set (d := 2 * n).
  set (angle := map (fun pos => map (fun w => (pos * w)%R) (PositionalEncoding.div_term d))
                    (PositionalEncoding.position max_len)).
  assert (Hdt : length (PositionalEncoding.div_term d) = n).
  { rewrite div_term_length. unfold d.
    replace (2 * n + 1) with (S (2 * n)) by lia. apply Nat.div2_succ_double. }
  rewrite Hdt.
  assert (Hal : length angle = max_len).
  { unfold angle, PositionalEncoding.position. now rewrite !length_map, length_seq. }
  assert (Har : forall f : R -> R, Forall (fun vals => length vals = n) (map (map f) angle)).
  { intros f. apply Forall_map, Forall_map, Forall_forall. intros pos _.
    now rewrite !length_map. }
  set (pe0 := repeat (repeat 0%R d) max_len).
  rewrite (@assign_cols_Ok PositionalEncoding.set_even n pe0 (map (map sin) angle))
    by (rewrite ?length_map; unfold pe0; rewrite ?repeat_length; auto).
  cbv beta iota delta [bind].
  rewrite (@assign_cols_Ok PositionalEncoding.set_odd n _ (map (map cos) angle))
    by (rewrite ?zip_with_length; rewrite ?length_map; unfold pe0;
        rewrite ?repeat_length; auto).
  eexists; split; [reflexivity |]. simpl PositionalEncoding.dropout.
  simpl PositionalEncoding.pe. split; [reflexivity |].
  set (pe1 := zip_with PositionalEncoding.set_even pe0 (map (map sin) angle)).
  set (pe2 := zip_with PositionalEncoding.set_odd pe1 (map (map cos) angle)).
  assert (Hl0 : length pe0 = max_len) by apply repeat_length.
  assert (Hl1 : length pe1 = max_len)
    by (unfold pe1; rewrite zip_with_length; rewrite ?length_map; lia).
  assert (Hl2 : length pe2 = max_len)
    by (unfold pe2; rewrite zip_with_length; rewrite ?length_map; lia).
  assert (Hrow : forall pos, pos < max_len ->
            let a := map (fun w => (INR pos * w)%R) (PositionalEncoding.div_term d) in
            nth pos pe2 [] =
            PositionalEncoding.set_odd
              (PositionalEncoding.set_even (repeat 0%R d) (map sin a)) (map cos a)).
  { intros pos Hpos a. unfold pe2, pe1.
    rewrite (nth_zip_with _ _ _ [] [] []) by (rewrite ?length_map; fold pe1; lia).
    rewrite (nth_zip_with _ _ _ [] [] []) by (rewrite ?length_map; lia).
    rewrite !(nth_map_lt _ angle [] []) by lia.
    unfold angle, PositionalEncoding.position. rewrite map_map.
    rewrite (nth_map_lt _ (seq 0 max_len) 0 []) by now rewrite length_seq.
    rewrite seq_nth by exact Hpos. simpl (0 + pos).
    unfold pe0. now rewrite (nth_repeat_lt _ [] Hpos). }
  assert (Hnth : forall pos, pos < max_len ->
            let a := map (fun w => (INR pos * w)%R) (PositionalEncoding.div_term d) in
            length (nth pos pe2 []) = d /\
            forall i, i < n ->
              nth (2 * i) (nth pos pe2 []) 0%R = nth i (map sin a) 0%R /\
              nth (2 * i + 1) (nth pos pe2 []) 0%R = nth i (map cos a) 0%R).
  { intros pos Hpos a. rewrite (Hrow pos Hpos). fold a.
    apply set_odd_set_even_nth; unfold a; rewrite ?length_map, ?repeat_length; auto. }
  split.
  - split; [now rewrite length_map |].
    apply Forall_map. apply Forall_nth. intros pos dflt Hpos.
    rewrite Hl2 in Hpos. rewrite (nth_indep _ dflt [] (n := pos)) by lia.
    split; [reflexivity |]. constructor; [| constructor].
    apply (Hnth pos Hpos).
  - intros pos i Hpos Hi. unfold entry3.
    rewrite (nth_map_lt _ pe2 [] []) by lia. simpl (nth 0 [_] []).
    destruct (Hnth pos Hpos) as [_ Hent]. destruct (Hent i Hi) as [Hs Hc].
    rewrite Hs, Hc.
    rewrite (nth_map_lt sin _ 0%R 0%R), (nth_map_lt cos _ 0%R 0%R)
      by (rewrite length_map; lia).
    rewrite (nth_map_lt _ (PositionalEncoding.div_term d) 0%R 0%R) by lia.
    rewrite div_term_nth by (rewrite <- div_term_length; lia).
    split; reflexivity.
Qed.

Lemma mapM_Raise_head {A B : Type} (f : A -> result B) (a : A) (l : list A) (e : exn) :
  f a = Raise e -> mapM f (a :: l) = Raise e.
Proof. intros H. simpl. now rewrite H. Qed.

(** X1.  For an even width [d_model = 2 n > 0] and a dropout probability in
    [[0, 1]] the constructor succeeds; the buffer has shape
    [[max_len, 1, d_model]]; row [pos] holds [sin (pos * w_i)] at column
    [2 i] and [cos (pos * w_i)] at column [2 i + 1], with
    [w_i = exp (2 i * (- ln 10000 / d_model))]; row 0 is [0, 1, 0, 1, ...]. *)
Theorem PositionalEncoding_table :
  forall (n : nat) (prob : R) (max_len : nat),
    0 < n -> (0 <= prob <= 1)%R ->
    exists self,
      PositionalEncoding.init (2 * n) prob max_len = Ok self /\
      shape3 max_len 1 (2 * n) (PositionalEncoding.pe self) /\
      (forall pos i, pos < max_len -> i < n ->
          entry3 (PositionalEncoding.pe self) pos 0 (2 * i) =
            sin (INR pos * exp (INR (2 * i) * (- ln 10000 / INR (2 * n))))%R /\
          entry3 (PositionalEncoding.pe self) pos 0 (2 * i + 1) =
            cos (INR pos * exp (INR (2 * i) * (- ln 10000 / INR (2 * n))))%R) /\
      (forall i, 0 < max_len -> i < n ->
          entry3 (PositionalEncoding.pe self) 0 0 (2 * i) = 0%R /\
          entry3 (PositionalEncoding.pe self) 0 0 (2 * i + 1) = 1%R).
Proof.
  intros n prob max_len Hn Hp.
  destruct (PositionalEncoding_init_even max_len Hn Hp) as (self & Hinit & _ & Hs & Hent).
  exists self. split; [exact Hinit |]. split; [exact Hs |]. split; [exact Hent |].
  intros i Hlen Hi. destruct (Hent 0 i Hlen Hi) as [Es Ec].
  rewrite Es, Ec. change (INR 0) with 0%R.
  now rewrite Rmult_0_l, sin_0, cos_0.
Qed.

Lemma PositionalEncoding_table_witness :
  exists self,
    PositionalEncoding.init (2 * 1) (1 / 10)%R 3 = Ok self /\
    shape3 3 1 (2 * 1) (PositionalEncoding.pe self) /\
    (forall pos i, pos < 3 -> i < 1 ->
        entry3 (PositionalEncoding.pe self) pos 0 (2 * i) =
          sin (INR pos * exp (INR (2 * i) * (- ln 10000 / INR (2 * 1))))%R /\
        entry3 (PositionalEncoding.pe self) pos 0 (2 * i + 1) =
          cos (INR pos * exp (INR (2 * i) * (- ln 10000 / INR (2 * 1))))%R) /\
    (forall i, 0 < 3 -> i < 1 ->
        entry3 (PositionalEncoding.pe self) 0 0 (2 * i) = 0%R /\
        entry3 (PositionalEncoding.pe self) 0 0 (2 * i + 1) = 1%R).
Proof.
  apply (@PositionalEncoding_table 1 (1 / 10)%R 3); [lia | lra].
Defined.

(** X2.  The constructor raises: a [ValueError] for a dropout probability
    outside [[0, 1]]; otherwise a [ZeroDivisionError] for [d_model = 0]; and a
    [RuntimeError] for an odd [d_model >= 3] with a non-empty table, where
    the cosines, one per even column, do not fit the odd columns. *)
Theorem PositionalEncoding_init_errors :
  forall (prob : R) (max_len : nat),
    (~ (0 <= prob <= 1)%R ->
     forall d_model, PositionalEncoding.init d_model prob max_len = Raise ValueError) /\
    ((0 <= prob <= 1)%R ->
     PositionalEncoding.init 0 prob max_len = Raise ZeroDivisionError /\
     forall n, 0 < n -> 0 < max_len ->
       PositionalEncoding.init (2 * n + 1) prob max_len = Raise RuntimeError).
Proof.
  intros prob max_len. split.
  - intros Hp d. unfold PositionalEncoding.init, Dropout.init.
    destruct (Rle_dec 0 prob); [| reflexivity].
    destruct (Rle_dec prob 1); [| reflexivity]. exfalso. apply Hp. lra.
  - intros Hp. split.
    + unfold PositionalEncoding.init. now rewrite (Dropout_init_Ok Hp).
    + intros n Hn Hlen. unfold PositionalEncoding.init.
      rewrite (Dropout_init_Ok Hp). cbv beta iota delta [bind].
      destruct (Nat.eqb_spec (2 * n + 1) 0) as [E | _]; [lia |].
      set (d := 2 * n + 1).
      assert (Hd1 : Nat.div2 (d + 1) = S n).
      { unfold d. replace (2 * n + 1 + 1) with (2 * S n) by lia.
        apply Nat.div2_double. }
      assert (Hd2 : Nat.div2 d = n).
      { unfold d. replace (2 * n + 1) with (S (2 * n)) by lia.
        apply Nat.div2_succ_double. }
      rewrite Hd1, Hd2.
      assert (Hdt : length (PositionalEncoding.div_term d) = S n)
        by (rewrite div_term_length; exact Hd1).
      rewrite Hdt.
      set (angle := map (fun pos => map (fun w => (pos * w)%R) (PositionalEncoding.div_term d))
                        (PositionalEncoding.position max_len)).
      assert (Hal : length angle = max_len).
      { unfold angle, PositionalEncoding.position. now rewrite !length_map, length_seq. }
      assert (Har : forall f : R -> R, Forall (fun vals => length vals = S n) (map (map f) angle)).
      { intros f. apply Forall_map, Forall_map, Forall_forall. intros pos _.
        now rewrite !length_map. }
      rewrite (@assign_cols_Ok PositionalEncoding.set_even (S n) _ (map (map sin) angle))
        by (rewrite ?length_map, ?repeat_length; auto).
      cbv beta iota delta [bind].
      unfold PositionalEncoding.assign_cols, bcast_to. rewrite repeat_length.
      destruct (Nat.eqb_spec (S n) n) as [E | _]; [lia |].
      destruct n as [| n']; [lia | reflexivity].
Qed.

Lemma PositionalEncoding_init_errors_witness :
  PositionalEncoding.init 4 2%R 5 = Raise ValueError /\
  PositionalEncoding.init 0 0%R 5 = Raise ZeroDivisionError /\
  PositionalEncoding.init (2 * 1 + 1) 0%R 5 = Raise RuntimeError.
Proof.
  destruct (PositionalEncoding_init_errors 2%R 5) as [H1 _].
  destruct (PositionalEncoding_init_errors 0%R 5) as [_ H2].
  split; [apply H1; lra |].
  destruct H2 as [H2 H3]; [lra |].
  split; [exact H2 | apply H3; lia].
Defined.

(** ** The forward pass of the positional encoding *)

Lemma combine_repeat_r {X Y : Type} (xs : list X) (y : Y) :
  combine xs (repeat y (length xs)) = map (fun x => (x, y)) xs.
Proof. induction xs as [| x xs IH]; simpl; [reflexivity | now rewrite IH]. Qed.

Lemma bzip_in_singleton {X Y Z : Type} (f : X -> Y -> result Z) (xs : list X) (y : Y) :
  bzip_in f xs [y] = mapM (fun x => f x y) xs.
Proof.
  unfold bzip_in, bcast_to. cbn [length].
  destruct (Nat.eqb_spec 1 (length xs)) as [E | _]; cbv beta iota delta [bind].
  - destruct xs as [| x [| x' xs]]; try discriminate. reflexivity.
  - rewrite combine_repeat_r. clear. induction xs as [| x xs IH]; simpl; [reflexivity |].
    destruct (f x y); simpl; [| reflexivity]. now rewrite IH.
Qed.

Lemma Forall_firstn {X : Type} (P : X -> Prop) (n : nat) (l : list X) :
  Forall P l -> Forall P (firstn n l).
Proof.
  intros H. rewrite <- (firstn_skipn n l) in H. now apply Forall_app in H.
Qed.

(** [x += t] for a [t] with one row per batch element. *)
Lemma iadd3_rows (b s d : nat) (x t : tensor3) :
  shape3 b s d x -> shape3 b 1 d t ->
  iadd3 x t =
  Ok (zip_with (fun xb tb => map (fun xr => zip_with Rplus xr (nth 0 tb [])) xb) x t).
Proof.
  intros [Hlx Hx] [Hlt Ht]. unfold iadd3.
  apply bzip_in_same; [lia |].
  eapply Forall_impl; [| exact (Forall_combine Hx Ht)].
  intros [xb tb] [[Hs Hxb] Htb]; cbn [fst snd] in *.
  apply rect_inv in Htb. destruct tb as [| row tb]; [discriminate |].
  destruct Htb as (n' & Hn' & Hrow & Htb). injection Hn' as <-.
  apply rect_inv in Htb. destruct tb; [| destruct Htb as (? & ? & _); discriminate].
  rewrite bzip_in_singleton. cbn [nth].
  apply mapM_Ok. eapply Forall_impl; [| exact Hxb]. intros xr Hxr.
  cbv beta in Hxr.
  apply bzip_in_same; [lia |]. apply Forall_forall. reflexivity.
Qed.

Lemma PositionalEncoding_forward_Ok (self : PositionalEncoding.t) (m : mode)
    (b s d max_len : nat) (x : tensor3) :
  shape3 max_len 1 d (PositionalEncoding.pe self) ->
  shape3 b s d x -> b <= max_len ->
  exists x',
    PositionalEncoding.forward self m x =
      Ok (Dropout.forward (PositionalEncoding.dropout self) m x') /\
    shape3 b s d x' /\
    forall ib i j, ib < b -> i < s -> j < d ->
      entry3 x' ib i j = (entry3 x ib i j + entry3 (PositionalEncoding.pe self) ib 0 j)%R.
Proof.
  intros Hpe Hx Hb. unfold PositionalEncoding.forward.
  assert (Hlen : length x = b) by apply Hx. rewrite Hlen.
  set (t := firstn b (PositionalEncoding.pe self)).
  assert (Ht : shape3 b 1 d t).
  { destruct Hpe as [Hl Hf]. split; [unfold t; rewrite length_firstn; lia |].
    now apply Forall_firstn. }
  rewrite (iadd3_rows Hx Ht). cbv beta iota delta [bind].
  eexists; split; [reflexivity |]. split.
  - destruct Hx as [Hlx Hfx], Ht as [Hlt Hft].
    split; [rewrite zip_with_length; lia |].
    apply Forall_zip_with.
    eapply Forall_impl; [| exact (Forall_combine Hfx Hft)].
    intros [xb tb] [[Hs Hxb] Htb]; cbn [fst snd] in *.
    split; [now rewrite length_map |].
    apply Forall_map. eapply Forall_impl; [| exact Hxb]. intros xr Hxr.
    rewrite zip_with_length; [exact Hxr |].
    rewrite Hxr. symmetry. apply (rect_nth Htb). lia.
  - intros ib i j Hib Hi Hj. unfold entry3.
    destruct Hx as [Hlx Hfx]. destruct Ht as [Hlt Hft].
    rewrite (nth_zip_with _ x t [] [] []) by lia.
    pose proof (proj1 (Forall_nth _ x) Hfx ib [] ltac:(lia)) as [Hs Hxb].
    pose proof (proj1 (Forall_nth _ t) Hft ib [] ltac:(lia)) as Htb.
    rewrite (nth_map_lt _ (nth ib x []) [] []) by lia.
    pose proof (proj1 (Forall_nth _ _) Hxb i [] ltac:(lia)) as Hxr.
    cbv beta in Hxr.
    pose proof (rect_nth Htb (i := 0) ltac:(lia)) as Htr.
    rewrite (nth_zip_with Rplus _ _ 0%R 0%R 0%R) by lia.
    unfold t. rewrite (nth_firstn _ _ _) .
    destruct (Nat.ltb_spec ib b) as [_ | F]; [reflexivity | lia].
Qed.

(** X3.  For a module built with an even width and a batch no larger than
    the table, [forward] in evaluation mode succeeds, keeps the shape of
    [x], and adds to every position [s] of batch element [b] row [b] of the
    table: the sine and cosine of the batch index, the same at every
    position of the sequence. *)
Theorem PositionalEncoding_forward_entries :
  forall (n : nat) (prob : R) (max_len : nat) (self : PositionalEncoding.t)
         (b s : nat) (x : tensor3),
    0 < n ->
    PositionalEncoding.init (2 * n) prob max_len = Ok self ->
    shape3 b s (2 * n) x -> b <= max_len ->
    exists out,
      PositionalEncoding.forward self Eval x = Ok out /\
      shape3 b s (2 * n) out /\
      forall ib pos i, ib < b -> pos < s -> i < n ->
        entry3 out ib pos (2 * i) =
          (entry3 x ib pos (2 * i) +
           sin (INR ib * exp (INR (2 * i) * (- ln 10000 / INR (2 * n)))))%R /\
        entry3 out ib pos (2 * i + 1) =
          (entry3 x ib pos (2 * i + 1) +
           cos (INR ib * exp (INR (2 * i) * (- ln 10000 / INR (2 * n)))))%R.
Proof.
  intros n prob max_len self b s x Hn Hinit Hx Hb.
  assert (Hp : (0 <= prob <= 1)%R).
  { unfold PositionalEncoding.init, Dropout.init in Hinit.
    destruct (Rle_dec 0 prob); [| discriminate].
    destruct (Rle_dec prob 1); [lra | discriminate]. }
  destruct (PositionalEncoding_init_even max_len Hn Hp) as (self' & Hinit' & _ & Hpe & Hent).
  rewrite Hinit in Hinit'. injection Hinit' as <-.
  destruct (PositionalEncoding_forward_Ok self Eval Hpe Hx Hb) as (out & Hout & Hs & Hsum).
  exists out. split; [exact Hout |]. split; [exact Hs |].
  intros ib pos i Hib Hpos Hi.
  destruct (Hent ib i ltac:(lia) Hi) as [Es Ec].
  rewrite !Hsum by lia. now rewrite Es, Ec.
Qed.

Lemma PositionalEncoding_init_2_3 :
  exists self, PositionalEncoding.init (2 * 1) 0%R 3 = Ok self.
Proof.
  destruct (@PositionalEncoding_init_even 1 0%R 3) as (self & H & _); [lia | lra |].
  now exists self.
Defined.

Lemma PositionalEncoding_forward_entries_witness :
  exists self out,
    PositionalEncoding.init (2 * 1) 0%R 3 = Ok self /\
    PositionalEncoding.forward self Eval [[[1; 2]; [3; 4]]]%R = Ok out /\
    shape3 1 2 (2 * 1) out.
Proof.
  destruct PositionalEncoding_init_2_3 as (self & Hinit).
  destruct (@PositionalEncoding_forward_entries 1 0%R 3 self 1 2 [[[1; 2]; [3; 4]]]%R)
    as (out & Hout & Hs & _); try lia; try assumption.
  - split; [reflexivity | repeat constructor].
  - exists self, out. auto.
Defined.

(** X4.  A batch larger than a table of [max_len <> 1] rows makes [forward]
    raise a [RuntimeError]: the slice [pe[:x.size(0)]] is the whole table and
    cannot be broadcast along the batch axis. *)
Theorem PositionalEncoding_forward_batch_overflow :
  forall (self : PositionalEncoding.t) (m : mode) (x : tensor3),
    length (PositionalEncoding.pe self) < length x ->
    length (PositionalEncoding.pe self) <> 1 ->
    PositionalEncoding.forward self m x = Raise RuntimeError.
Proof.
  intros self m x Hlt Hne. unfold PositionalEncoding.forward, iadd3, bzip_in.
  rewrite firstn_all2 by lia. unfold bcast_to.
  destruct (Nat.eqb_spec (length (PositionalEncoding.pe self)) (length x)) as [E | _];
    [lia |].
  destruct (PositionalEncoding.pe self) as [| a [| a' t]]; try reflexivity.
  simpl in Hne. lia.
Qed.

Lemma PositionalEncoding_forward_batch_overflow_witness :
  PositionalEncoding.forward
    {| PositionalEncoding.dropout := {| Dropout.p := 0%R |};
       PositionalEncoding.pe := [[[0; 1]]; [[sin 1; cos 1]]]%R |}
    Eval [[[0; 0]]; [[0; 0]]; [[0; 0]]]%R = Raise RuntimeError.
Proof.
  apply PositionalEncoding_forward_batch_overflow; simpl; lia.
Defined.

(** ** nn.Embedding *)

Lemma mapM_raises {A B : Type} (f : A -> result B) (e : exn) (l : list A) :
  (forall a e', f a = Raise e' -> e' = e) ->
  Exists (fun a => exists e', f a = Raise e') l ->
  mapM f l = Raise e.
Proof.
  intros Hf Hex. induction Hex as [a l (e' & Ha) | a l _ IH]; simpl.
  - rewrite Ha. simpl. now rewrite (Hf a e' Ha).
  - destruct (f a) as [b | e'] eqn:Ha; simpl.
    + now rewrite IH.
    + now rewrite (Hf a e' Ha).
Qed.

(** The lookup succeeds exactly on ids below the number of rows of the
    table: then position [(b, s)] of the result is row [ids[b][s]] of the
    table; an id out of range raises an [IndexError]. *)
Theorem Embedding_forward_bounds :
  forall (table : matrix) (ids : list (list nat)),
    (Forall (Forall (fun i => i < length table)) ids ->
     Embedding.forward table ids = Ok (map (map (fun i => nth i table [])) ids)) /\
    (Exists (Exists (fun i => length table <= i)) ids ->
     Embedding.forward table ids = Raise IndexError).
Proof.
  intros table ids.
  set (look := fun i : nat => match nth_error table i with
                              | Some row => Ok row
                              | None => Raise IndexError
                              end).
  assert (Hok : forall i, i < length table -> look i = Ok (nth i table [])).
  { intros i Hi. unfold look.
    destruct (nth_error table i) as [row |] eqn:E.
    - now rewrite (nth_error_nth _ _ _ E).
    - apply nth_error_None in E. lia. }
  assert (Herr : forall i e, look i = Raise e -> e = IndexError).
  { intros i e. unfold look. destruct (nth_error table i); congruence. }
  split; intros H; unfold Embedding.forward; fold look.
  - apply mapM_Ok. eapply Forall_impl; [| exact H]. intros row Hrow.
    apply mapM_Ok. eapply Forall_impl; [| exact Hrow]. intros i Hi. now apply Hok.
  - apply mapM_raises.
    + intros row e Hrow. revert e Hrow.
      induction row as [| i row IH]; intros e Hrow; simpl in Hrow; [discriminate |].
      destruct (look i) as [r |] eqn:Ei; simpl in Hrow.
      * destruct (mapM look row) as [rs |]; simpl in Hrow; [discriminate |].
        apply IH. congruence.
      * injection Hrow as <-. now apply Herr with i.
    + eapply Exists_impl; [| exact H]. intros row Hrow.
      exists IndexError. apply mapM_raises; [exact Herr |].
      eapply Exists_impl; [| exact Hrow]. intros i Hi. cbv beta in Hi.
      exists IndexError. unfold look.
      destruct (nth_error table i) as [r |] eqn:E; [| reflexivity].
      assert (i < length table) by (apply nth_error_Some; congruence). lia.
Qed.

Lemma Embedding_forward_bounds_witness :
  Embedding.forward [[1; 2]; [3; 4]]%R [[1; 0]] = Ok [[[3; 4]; [1; 2]]]%R /\
  Embedding.forward [[1; 2]; [3; 4]]%R [[1; 2]] = Raise IndexError.
Proof.
  destruct (Embedding_forward_bounds [[1; 2]; [3; 4]]%R [[1; 0]]) as [H1 _].
  destruct (Embedding_forward_bounds [[1; 2]; [3; 4]]%R [[1; 2]]) as [_ H2].
  split.
  - apply H1. repeat constructor.
  - apply H2. constructor. apply Exists_cons_tl. constructor. simpl. lia.
Defined.

(** ** The attention weights as distributions *)

Lemma sum_map_div (f : R -> R) (z : R) (r : vector) :
  sum (map (fun v => (f v / z)%R) r) = (sum (map f r) / z)%R.
Proof.
  induction r as [| a r IH]; simpl.
  - unfold Rdiv. now rewrite Rmult_0_l.
  - rewrite IH. unfold Rdiv. ring.
Qed.

Lemma sum_exp_pos (r : vector) : r <> [] -> (0 < sum (map exp r))%R.
Proof.
  intros Hr. destruct r as [| a r]; [contradiction |].
  pose proof (@sum_exp_ge (a :: r) 0 ltac:(simpl; lia)) as H. simpl nth in H.
  pose proof (exp_pos a). lra.
Qed.

Lemma softmax_sum (r : vector) : r <> [] -> sum (softmax r) = 1%R.
Proof.
  intros Hr. unfold softmax. rewrite sum_map_div.
  pose proof (sum_exp_pos Hr). field. lra.
Qed.

Lemma softmax_range (r : vector) : Forall (fun w => (0 < w <= 1)%R) (softmax r).
Proof.
  unfold softmax. apply Forall_map, Forall_forall. intros v Hv.
  destruct (In_nth r v 0%R Hv) as (u & Hu & Hnth).
  pose proof (sum_exp_ge r Hu) as Hge. rewrite Hnth in Hge.
  pose proof (exp_pos v) as Hpos.
  split.
  - apply Rdiv_lt_0_compat; lra.
  - apply Rmult_le_reg_r with (sum (map exp r)); [lra |].
    unfold Rdiv. rewrite Rmult_assoc, Rinv_l by lra. lra.
Qed.

Lemma sum_repeat (c : R) (n : nat) : sum (repeat c n) = (INR n * c)%R.
Proof.
  induction n as [| n IH]; [simpl; ring |].
  cbn [repeat sum fold_right]. fold (sum (repeat c n)). rewrite IH, S_INR. ring.
Qed.

Lemma softmax_repeat (c : R) (n : nat) :
  0 < n -> softmax (repeat c n) = repeat (/ INR n)%R n.
Proof.
  intros Hn. unfold softmax. rewrite !map_repeat, sum_repeat. f_equal.
  pose proof (exp_pos c). assert (INR n <> 0%R) by (apply not_0_INR; lia).
  field. split; lra.
Qed.

Lemma scores_row_all_masked (d_k : nat) (q : vector) (K : matrix) (mask : list bool) :
  length mask = length K -> Forall (fun m => m = true) mask ->
  Spec.scores_row d_k q K mask = repeat (-1e9)%R (length K).
Proof.
  unfold Spec.scores_row, zip_with.
  revert mask; induction K as [| k K IH]; intros [| m mask] Hl Hm;
    simpl in Hl; try discriminate; [reflexivity |].
  inversion Hm; subst. simpl. f_equal. apply IH; [lia | assumption].
Qed.

(** X5.  On well-shaped inputs every row of the attention weights is a
    distribution over the keys: it has one weight per key, every weight lies
    in [[0, 1]] and the weights of a row add up to one, whatever the mask.
    The lower bound is not strict: the weight of a masked key beside an
    unmasked one rounds to zero in floating point. *)
Theorem attention_weights_distribution :
  forall (b h sq sk dk : nat) (Q K : tensor4) (mask : mask4),
    0 < sk -> 0 < dk ->
    shape4 b h sq dk Q -> shape4 b h sk dk K -> shape4 b h sq sk mask ->
    exists A,
      ScaleDotProductAttention.attn Q K mask dk = Ok A /\
      forall ib ih i, ib < b -> ih < h -> i < sq ->
        length (row4 A ib ih i) = sk /\
        Forall (fun w => (0 <= w <= 1)%R) (row4 A ib ih i) /\
        sum (row4 A ib ih i) = 1%R.
Proof.
  intros b h sq sk dk Q K mask Hsk Hdk HQ HK Hmask.
  destruct (attn_rows Hsk Hdk HQ HK Hmask) as (A & HA & HAs & Hrows).
  exists A. split; [exact HA |]. intros ib ih i Hib Hih Hi.
  destruct (grid_nth [] HAs Hib Hih) as [_ Hhead].
  assert (Hlen : length (row4 A ib ih i) = sk) by apply (rect_nth Hhead Hi).
  split; [exact Hlen |].
  rewrite (Hrows ib ih i Hib Hih Hi) in *.
  split.
  { eapply Forall_impl; [| apply softmax_range]. intros w Hw. cbv beta in Hw. lra. }
  apply softmax_sum. rewrite softmax_length in Hlen.
  intros E. rewrite E in Hlen. simpl in Hlen. lia.
Qed.

(** One query, two keys, the second one masked. *)
Lemma attention_weights_distribution_witness :
  exists A,
    ScaleDotProductAttention.attn [[[[1%R]]]] [[[[1%R]; [2%R]]]] [[[[false; true]]]] 1 = Ok A /\
    forall ib ih i, ib < 1 -> ih < 1 -> i < 1 ->
      length (row4 A ib ih i) = 2 /\
      Forall (fun w => (0 <= w <= 1)%R) (row4 A ib ih i) /\
      sum (row4 A ib ih i) = 1%R.
Proof.
  apply (@attention_weights_distribution 1 1 1 2 1);
    try lia; (split; [reflexivity |]); repeat constructor.
Defined.

(** X6.  A query row whose keys are all masked gets uniform weights
    [1 / seq_k], whatever the queries and keys are. *)
Theorem attention_fully_masked_row_uniform :
  forall (b h sq sk dk : nat) (Q K : tensor4) (mask : mask4),
    0 < sk -> 0 < dk ->
    shape4 b h sq dk Q -> shape4 b h sk dk K -> shape4 b h sq sk mask ->
    exists A,
      ScaleDotProductAttention.attn Q K mask dk = Ok A /\
      forall ib ih i, ib < b -> ih < h -> i < sq ->
        Forall (fun m => m = true) (row4 mask ib ih i) ->
        row4 A ib ih i = repeat (/ INR sk)%R sk.
Proof.
  intros b h sq sk dk Q K mask Hsk Hdk HQ HK Hmask.
  destruct (attn_rows Hsk Hdk HQ HK Hmask) as (A & HA & _ & Hrows).
  exists A. split; [exact HA |]. intros ib ih i Hib Hih Hi Hall.
  rewrite (Hrows ib ih i Hib Hih Hi).
  destruct (grid_nth [] HK Hib Hih) as [_ [HKl _]]. fold (head4 K ib ih) in HKl.
  destruct (grid_nth [] Hmask Hib Hih) as [_ Hm]. fold (head4 mask ib ih) in Hm.
  pose proof (rect_nth Hm Hi) as Hml. fold (row4 mask ib ih i) in Hml.
  rewrite scores_row_all_masked by (auto; lia).
  rewrite HKl. now apply softmax_repeat.
Qed.

Lemma attention_fully_masked_row_uniform_witness :
  exists A,
    ScaleDotProductAttention.attn [[[[1%R]]]] [[[[1%R]; [2%R]]]] [[[[true; true]]]] 1 = Ok A /\
    row4 A 0 0 0 = repeat (/ INR 2)%R 2.
Proof.
  destruct (@attention_fully_masked_row_uniform 1 1 1 2 1
              [[[[1%R]]]] [[[[1%R]; [2%R]]]] [[[[true; true]]]])
    as (A & HA & Hrow);
    try lia; try (split; [reflexivity |]; repeat constructor).
  exists A. split; [exact HA |].
  apply Hrow; try lia. repeat constructor.
Defined.

(** ** The context of the attention *)

Lemma sdpa_forward_rows (b h sq sk dk : nat) (Q K V : tensor4) (mask : mask4) :
  0 < sk -> 0 < dk ->
  shape4 b h sq dk Q -> shape4 b h sk dk K -> shape4 b h sk dk V ->
  shape4 b h sq sk mask ->
  exists context,
    ScaleDotProductAttention.forward Q K V mask dk = Ok context /\
    shape4 b h sq dk context /\
    forall ib ih i, ib < b -> ih < h -> i < sq ->
      row4 context ib ih i =
      Spec.weighted_sum dk
        (softmax (Spec.scores_row dk (row4 Q ib ih i) (head4 K ib ih) (row4 mask ib ih i)))
        (head4 V ib ih).
Proof.
  intros Hsk Hdk HQ HK HV Hmask.
  unfold ScaleDotProductAttention.forward.
  destruct (attn_rows Hsk Hdk HQ HK Hmask) as (A & HA & HAs & HArows).
  rewrite HA. simpl.
  set (mv := fun (a v : matrix) => map (fun w => map (dot w) (transpose dk v)) a).
  assert (H1 : matmul4 A V = Ok (zip_with (zip_with mv) A V)).
  { unfold matmul4. eapply grid_bzip; [| exact HAs | exact HV].
    intros a v Ha Hv. destruct (matmul2_rect Hsk Ha Hv) as (p & Hp & _ & ->).
    exact Hp. }
  rewrite H1. eexists; split; [reflexivity |]. split.
  - eapply grid_zip_with; [| exact HAs | exact HV].
    intros a v Ha Hv. destruct (matmul2_rect Hsk Ha Hv) as (p & _ & Hp & ->).
    exact Hp.
  - intros ib ih i Hib Hih Hi. unfold row4 at 1. unfold head4 at 1.
    rewrite (nth_grid_zip_with _ [] [] [] HAs HV Hib Hih).
    destruct (grid_nth [] HAs Hib Hih) as [_ Ha].
    destruct (grid_nth [] HV Hib Hih) as [_ Hv].
    fold (head4 A ib ih) in *. fold (head4 V ib ih) in *.
    unfold mv. rewrite (nth_map_lt _ (head4 A ib ih) [] []) by (destruct Ha; lia).
    fold (row4 A ib ih i).
    rewrite (@row_times_matrix sk dk); [now rewrite HArows | | exact Hv].
    apply (rect_nth Ha Hi).
Qed.

Lemma weighted_sum_single (v : vector) :
  Spec.weighted_sum (length v) [1%R] [v] = v.
Proof.
  unfold Spec.weighted_sum, zip_with. cbn [combine fold_right fst snd].
  induction v as [| a v IH]; [reflexivity |].
  cbn [length repeat map combine fst snd]. rewrite IH. f_equal. ring.
Qed.

(** X7.  With a single key, the context of every query is the value of that
    key: neither the queries and keys nor the mask change it. *)
Theorem attention_single_key :
  forall (b h sq dk : nat) (Q K V : tensor4) (mask : mask4),
    0 < dk ->
    shape4 b h sq dk Q -> shape4 b h 1 dk K -> shape4 b h 1 dk V ->
    shape4 b h sq 1 mask ->
    exists context,
      ScaleDotProductAttention.forward Q K V mask dk = Ok context /\
      forall ib ih i, ib < b -> ih < h -> i < sq ->
        row4 context ib ih i = row4 V ib ih 0.
Proof.
  intros b h sq dk Q K V mask Hdk HQ HK HV Hmask.
  destruct (@sdpa_forward_rows b h sq 1 dk Q K V mask) as (ctx & Hctx & _ & Hrows);
    try assumption; [lia |].
  exists ctx. split; [exact Hctx |]. intros ib ih i Hib Hih Hi.
  rewrite (Hrows ib ih i Hib Hih Hi).
  destruct (grid_nth [] HK Hib Hih) as [_ HKh]. fold (head4 K ib ih) in HKh.
  destruct (grid_nth [] HV Hib Hih) as [_ HVh]. fold (head4 V ib ih) in HVh.
  destruct (grid_nth [] Hmask Hib Hih) as [_ Hmh]. fold (head4 mask ib ih) in Hmh.
  pose proof (rect_nth Hmh Hi) as Hml. fold (row4 mask ib ih i) in Hml.
  pose proof (rect_nth HVh (i := 0) ltac:(lia)) as Hvl.
  change (row4 V ib ih 0) with (nth 0 (head4 V ib ih) []).
  destruct HKh as [HKl _], HVh as [HVl _].
  destruct (head4 K ib ih) as [| k [| ? ?]]; try discriminate.
  destruct (head4 V ib ih) as [| v [| ? ?]]; try discriminate.
  destruct (row4 mask ib ih i) as [| m [| ? ?]]; try discriminate.
  cbn [nth] in *.
  unfold Spec.scores_row, zip_with, softmax. cbn [combine map fst snd sum fold_right].
  match goal with
  | |- context [(exp ?s / (exp ?s + 0))%R] =>
      replace (exp s / (exp s + 0))%R with 1%R
        by (pose proof (exp_pos s); field; lra)
  end.
  rewrite <- Hvl. apply weighted_sum_single.
Qed.

Lemma attention_single_key_witness :
  exists context,
    ScaleDotProductAttention.forward [[[[5%R]; [7%R]]]] [[[[2%R]]]] [[[[3%R]]]]
                                     [[[[false]; [true]]]] 1 = Ok context /\
    forall ib ih i, ib < 1 -> ih < 1 -> i < 2 ->
      row4 context ib ih i = row4 [[[[3%R]]]] ib ih 0.
Proof.
  apply (@attention_single_key 1 1 2 1);
    try lia; (split; [reflexivity |]); repeat constructor.
Defined.

(** ** Layer normalization of the outputs *)

Lemma mapM_Forall {A B : Type} (f : A -> result B) (P : B -> Prop) (l : list A)
    (out : list B) :
  (forall a b, f a = Ok b -> P b) -> mapM f l = Ok out -> Forall P out.
Proof.
  intros Hf. revert out; induction l as [| a l IH]; intros out H; simpl in H.
  - injection H as <-. constructor.
  - apply bind_Ok in H. destruct H as (b & Hb & H).
    apply bind_Ok in H. destruct H as (bs & Hbs & H).
    injection H as <-. constructor; [now apply Hf with a | now apply IH].
Qed.

Lemma sum_map_affine (m c : R) (v : vector) :
  sum (map (fun a => ((a - m) / c * 1 + 0)%R) v) = ((sum v - INR (length v) * m) / c)%R.
Proof.
  induction v as [| a v IH].
  - simpl. unfold Rdiv. ring.
  - cbn [map sum fold_right length]. fold (sum v).
    fold (sum (map (fun a => ((a - m) / c * 1 + 0)%R) v)).
    rewrite IH, S_INR. unfold Rdiv. ring.
Qed.

Lemma normalize_sum (v : vector) : v <> [] -> sum (LayerNorm.normalize v) = 0%R.
Proof.
  intros Hv. unfold LayerNorm.normalize. rewrite sum_map_affine.
  unfold LayerNorm.mean.
  assert (Hn : INR (length v) <> 0%R).
  { apply not_0_INR. destruct v; [contradiction | discriminate]. }
  replace (sum v - INR (length v) * (sum v / INR (length v)))%R with 0%R
    by (field; exact Hn).
  unfold Rdiv. ring.
Qed.

Lemma LayerNorm_forward_rows (d : nat) (x out : tensor3) :
  0 < d -> LayerNorm.forward d x = Ok out ->
  Forall (Forall (fun row => length row = d /\ sum row = 0%R)) out.
Proof.
  intros Hd H. unfold LayerNorm.forward in H.
  eapply mapM_Forall; [| exact H]. intros m om Hm. cbv beta in Hm.
  eapply mapM_Forall; [| exact Hm]. intros row orow Hrow. cbv beta in Hrow.
  destruct (Nat.eqb_spec (length row) d) as [E | _]; [| discriminate].
  injection Hrow as <-. split.
  - unfold LayerNorm.normalize. now rewrite length_map.
  - apply normalize_sum. intros ->. simpl in E. lia.
Qed.

(** X8.  Whatever the module and its arguments, a result of
    [MultiheadAttention.forward] consists of rows of [embed_dim] entries that
    add up to zero: the layer normalization built inside the call has unit
    weight and zero bias.  A module built by the constructor does return on
    well-shaped arguments, with the shape of the query. *)
Theorem MultiheadAttention_forward_normalized :
  (forall (self : MultiheadAttention.t) (query key value : tensor3)
          (attn_mask : mask3) (out : tensor3),
      0 < MultiheadAttention.embed_dim self ->
      MultiheadAttention.forward self query key value attn_mask = Ok out ->
      Forall (Forall (fun row => length row = MultiheadAttention.embed_dim self /\
                                 sum row = 0%R)) out) /\
  (forall e h p w self b sq sk (query key value : tensor3) (attn_mask : mask3),
      MultiheadAttention.init e h p w = Ok self ->
      0 < e -> 0 < b -> 0 < sk ->
      shape3 b sq e query -> shape3 b sk e key -> shape3 b sk e value ->
      shape3 b sq sk attn_mask ->
      exists out,
        MultiheadAttention.forward self query key value attn_mask = Ok out /\
        shape3 b sq e out).
Proof.
  split.
  - intros self query key value attn_mask out He H.
    unfold MultiheadAttention.forward in H.
    destruct (MultiheadAttention.num_heads self =? 0); [discriminate |].
    repeat (apply bind_Ok in H; destruct H as (? & _ & H)).
    eapply LayerNorm_forward_rows; [exact He | exact H].
  - intros e h p w self b sq sk query key value attn_mask Hinit He Hb Hsk Hq Hk Hv Hm.
    exact (@MultiheadAttention_forward_Ok e h p w self b sq sk query key value attn_mask
             Hinit He Hb Hsk Hq Hk Hv Hm).
Qed.

(** One head of width two on a single position. *)
Lemma MultiheadAttention_forward_normalized_witness :
  exists self out,
    MultiheadAttention.init 2 1 0%R (fun _ r c => if r =? c then 1%R else 0%R) = Ok self /\
    MultiheadAttention.forward self [[[1; 2]]]%R [[[1; 2]]]%R [[[1; 2]]]%R [[[false]]] = Ok out /\
    shape3 1 1 2 out /\
    Forall (Forall (fun row => length row = MultiheadAttention.embed_dim self /\
                               sum row = 0%R)) out.
Proof.
  destruct MultiheadAttention_forward_normalized as [Hnorm Hok].
  assert (Hinit : exists self,
             MultiheadAttention.init 2 1 0%R (fun _ r c => if r =? c then 1%R else 0%R) =
             Ok self) by (eexists; reflexivity).
  destruct Hinit as (self & Hinit).
  assert (Hx : shape3 1 1 2 [[[1; 2]]]%R) by (split; [reflexivity | repeat constructor]).
  assert (Hm : shape3 1 1 1 [[[false]]]) by (split; [reflexivity | repeat constructor]).
  destruct (Hok 2 1 0%R _ self 1 1 1 _ _ _ _ Hinit ltac:(lia) ltac:(lia) ltac:(lia) Hx Hx Hx Hm)
    as (out & Hout & Hs).
  exists self, out. repeat split; try assumption; try apply Hs.
  apply (Hnorm self _ _ _ _ out) with (2 := Hout).
  unfold MultiheadAttention.init in Hinit. simpl in Hinit. injection Hinit as <-.
  simpl. lia.
Defined.

(** X9.  A result of [FeedForWard.forward] consists of rows of [d_model]
    entries that add up to zero; a block built by the constructor returns on
    every input of shape [[batch, seq, d_model]], in either mode. *)
Theorem FeedForWard_forward_normalized :
  (forall (self : FeedForWard.t) (m : mode) (inputs out : tensor3),
      0 < FeedForWard.d_model self ->
      FeedForWard.forward self m inputs = Ok out ->
      Forall (Forall (fun row => length row = FeedForWard.d_model self /\
                                 sum row = 0%R)) out) /\
  (forall d ffd prob w bv self (m : mode) b s (x : tensor3),
      FeedForWard.init d ffd prob w bv = Ok self ->
      shape3 b s d x ->
      exists out, FeedForWard.forward self m x = Ok out /\ shape3 b s d out).
Proof.
  split.
  - intros self m inputs out Hd H. unfold FeedForWard.forward in H.
    repeat (apply bind_Ok in H; destruct H as (? & _ & H)).
    eapply LayerNorm_forward_rows; [exact Hd | exact H].
  - intros d ffd prob w bv self m b s x Hinit Hx.
    exact (@FeedForWard_forward_Ok d ffd prob w bv self m b s x Hinit Hx).
Qed.

Lemma FeedForWard_forward_normalized_witness :
  exists self out,
    FeedForWard.init 2 3 (1 / 2)%R (fun _ _ _ => 1%R) (fun _ _ => 0%R) = Ok self /\
    FeedForWard.forward self Eval [[[1; 2]]]%R = Ok out /\
    shape3 1 1 2 out /\
    Forall (Forall (fun row => length row = FeedForWard.d_model self /\ sum row = 0%R)) out.
Proof.
  destruct FeedForWard_forward_normalized as [Hnorm Hok].
  assert (Hinit : exists self,
             FeedForWard.init 2 3 (1 / 2)%R (fun _ _ _ => 1%R) (fun _ _ => 0%R) = Ok self).
  { unfold FeedForWard.init. rewrite Dropout_init_Ok by lra. eexists; reflexivity. }
  destruct Hinit as (self & Hinit).
  assert (Hx : shape3 1 1 2 [[[1; 2]]]%R) by (split; [reflexivity | repeat constructor]).
  destruct (Hok 2 3 (1 / 2)%R _ _ self Eval 1 1 _ Hinit Hx) as (out & Hout & Hs).
  exists self, out. repeat split; try assumption; try apply Hs.
  apply (Hnorm self Eval _ out) with (2 := Hout).
  destruct (FeedForWard_init_fields _ _ _ _ _ Hinit) as (Hd & _). rewrite Hd. lia.
Defined.

(** X10.  On an empty batch a constructed attention module raises a
    [RuntimeError]: the inferred size of [view(b_s, -1, heads, d_k)] is
    ambiguous for zero elements. *)
Theorem MultiheadAttention_forward_empty_batch :
  forall e h p w self (key value : tensor3) (attn_mask : mask3),
    MultiheadAttention.init e h p w = Ok self ->
    MultiheadAttention.forward self [] key value attn_mask = Raise RuntimeError.
Proof.
  intros e h p w self key value attn_mask Hinit.
  destruct (MultiheadAttention_init_fields _ _ _ _ Hinit)
    as (Hh & _ & He & Hh' & _ & Hqw & _).
  unfold MultiheadAttention.forward. rewrite Hh'.
  destruct (Nat.eqb_spec h 0) as [| _]; [contradiction |].
  reflexivity.
Qed.

Lemma MultiheadAttention_forward_empty_batch_witness :
  exists self,
    MultiheadAttention.init 2 1 0%R (fun _ _ _ => 0%R) = Ok self /\
    MultiheadAttention.forward self [] [] [] [] = Raise RuntimeError.
Proof.
  assert (Hinit : exists self,
             MultiheadAttention.init 2 1 0%R (fun _ _ _ => 0%R) = Ok self)
    by (eexists; reflexivity).
  destruct Hinit as (self & Hinit). exists self. split; [exact Hinit |].
  exact (@MultiheadAttention_forward_empty_batch 2 1 0%R _ self [] [] [] Hinit).
Defined.

(** ** The residual connection of the attention module *)

Lemma MultiheadAttention_forward_closed e h p w self (b sq sk : nat)
    (query key value : tensor3) (attn_mask : mask3) :
  MultiheadAttention.init e h p w = Ok self ->
  0 < e -> 0 < b -> 0 < sk ->
  shape3 b sq e query -> shape3 b sk e key -> shape3 b sk e value ->
  shape3 b sq sk attn_mask ->
  exists merged,
    shape3 b sq e merged /\
    MultiheadAttention.forward self query key value attn_mask =
    Ok (map (map LayerNorm.normalize)
          (zip_with (zip_with (zip_with Rplus))
             (map (map (Linear.apply_row (Linear.init e e false (w 3) (fun _ => 0%R))))
                  merged)
             query)).
Proof.
  intros Hinit He Hb Hsk Hq Hk Hv Hm.
  destruct (MultiheadAttention_init_fields _ _ _ _ Hinit)
    as (Hh & Hdiv & He' & Hh'' & _ & Hqw & Hkw & Hvw & Hfc).
  set (dk := e / h) in *.
  assert (Hdk : 0 < dk) by (destruct dk; [lia | lia]).
  assert (Hh' : 0 < h) by lia.
  unfold MultiheadAttention.forward. rewrite He', Hh'', Hqw, Hkw, Hvw, Hfc.
  destruct (Nat.eqb_spec h 0) as [| _]; [contradiction |].
  fold dk.
  assert (Hlen : length query = b) by apply Hq. rewrite Hlen.
  destruct (Linear_init_forward e false (w 0) (fun _ => 0%R) Hq) as (q & -> & Hq').
  simpl. rewrite Hdiv in Hq'.
  destruct (split_heads_Ok Hb Hh' Hdk Hq') as (Q & -> & HQ). simpl.
  destruct (Linear_init_forward e false (w 1) (fun _ => 0%R) Hk) as (k & -> & Hk').
  simpl. rewrite Hdiv in Hk'.
  destruct (split_heads_Ok Hb Hh' Hdk Hk') as (K & -> & HK). simpl.
  destruct (Linear_init_forward e false (w 2) (fun _ => 0%R) Hv) as (v & -> & Hv').
  simpl. rewrite Hdiv in Hv'.
  destruct (split_heads_Ok Hb Hh' Hdk Hv') as (V & -> & HV). simpl.
  destruct (sdpa_forward_shape Hsk Hdk HQ HK HV (shape4_repeat h Hm))
    as (c & -> & Hc). simpl.
  destruct (merge_heads_Ok Hb Hh' Hdk Hc) as (c' & Hc' & Hcs).
  rewrite <- Hdiv in Hc', Hcs. rewrite Hc'. simpl.
  exists c'. split; [exact Hcs |].
  rewrite (@Linear_forward_Ok (Linear.init e e false (w 3) (fun _ => 0%R)) b sq c' Hcs).
  simpl.
  assert (Ho : shape3 b sq e
                 (map (map (Linear.apply_row (Linear.init e e false (w 3) (fun _ => 0%R)))) c')).
  { eapply shape3_map_rows; [| exact Hcs]. intros r _. apply Linear_init_row_length. }
  rewrite (iadd3_same Ho Hq). simpl.
  pose proof (shape3_zip_with Rplus Ho Hq) as Hs.
  now rewrite (LayerNorm_forward_Ok Hs).
Qed.

Lemma dot_zeros (row : vector) (n : nat) : dot row (repeat 0%R n) = 0%R.
Proof.
  unfold dot. revert n; induction row as [| a row IH]; intros [| n]; simpl;
    try reflexivity.
  rewrite IH. ring.
Qed.

Lemma zip_with_plus_zeros (n : nat) (v : vector) :
  length v = n -> zip_with Rplus (repeat 0%R n) v = v.
Proof.
  unfold zip_with. revert n; induction v as [| a v IH]; intros [| n] H;
    simpl in *; try discriminate; [reflexivity |].
  rewrite IH by lia. f_equal. ring.
Qed.

Lemma zip_with_same_shape {X Y : Type} (f : X -> Y -> Y) (P : X -> Prop) (Q : Y -> Prop)
    (xs : list X) (ys : list Y) :
  (forall x y, P x -> Q y -> f x y = y) ->
  length xs = length ys -> Forall P xs -> Forall Q ys ->
  zip_with f xs ys = ys.
Proof.
  intros Hf. unfold zip_with. revert ys; induction xs as [| x xs IH];
    intros [| y ys] Hl Hx Hy; simpl in *; try discriminate; [reflexivity |].
  inversion Hx; inversion Hy; subst. rewrite Hf by assumption.
  f_equal. apply IH; auto.
Qed.

(** X11.  When the output projection [fc] of a constructed module is zero,
    the result is the layer normalization of the query, whatever the keys,
    the values and the mask: the residual is the query argument. *)
Theorem MultiheadAttention_forward_residual :
  forall e h p w self (b sq sk : nat) (query key value : tensor3) (attn_mask : mask3),
    MultiheadAttention.init e h p w = Ok self ->
    (forall r c, w 3 r c = 0%R) ->
    0 < e -> 0 < b -> 0 < sk ->
    shape3 b sq e query -> shape3 b sk e key -> shape3 b sk e value ->
    shape3 b sq sk attn_mask ->
    MultiheadAttention.forward self query key value attn_mask =
    Ok (map (map LayerNorm.normalize) query) /\
    LayerNorm.forward e query = Ok (map (map LayerNorm.normalize) query).
Proof.
  intros e h p w self b sq sk query key value attn_mask Hinit Hw He Hb Hsk Hq Hk Hv Hm.
  destruct (@MultiheadAttention_forward_closed e h p w self b sq sk query key value
              attn_mask Hinit He Hb Hsk Hq Hk Hv Hm)
    as (merged & Hmg & Hfw).
  split; [| exact (LayerNorm_forward_Ok Hq)].
  rewrite Hfw. do 2 f_equal.
  assert (Hrow : forall r : vector,
             Linear.apply_row (Linear.init e e false (w 3) (fun _ => 0%R)) r = repeat 0%R e).
  { intros r. unfold Linear.apply_row, Linear.init, tabulate. simpl.
    rewrite map_map.
    assert (Hz : forall j, map (fun i => w 3 j i) (seq 0 e) = repeat 0%R e).
    { intros j. rewrite (map_ext _ (fun _ => 0%R)) by (intros; apply Hw).
      clear. generalize 0. induction e as [| e' IH]; intros s; simpl;
        [reflexivity | now rewrite IH]. }
    rewrite (map_ext _ (fun _ => 0%R)) by (intros j; rewrite Hz; apply dot_zeros).
    clear. generalize 0. induction e as [| e' IH]; intros s; simpl;
      [reflexivity | now rewrite IH]. }
  rewrite (map_ext _ (map (fun _ => repeat 0%R e)))
    by (intros m; apply map_ext; exact Hrow).
  destruct Hmg as [Hlm Hfm], Hq as [Hlq Hfq].
  apply zip_with_same_shape
    with (P := fun m : list vector => Forall (fun r => r = repeat 0%R e) m /\ length m = sq)
         (Q := rect sq e);
    [| rewrite length_map; lia | | exact Hfq].
  - intros zm qm [Hz Hzl] [Hql Hqr].
    apply zip_with_same_shape
      with (P := fun r => r = repeat 0%R e) (Q := fun r : vector => length r = e);
      [| lia | exact Hz | exact Hqr].
    intros z qr -> Hqr'. now apply zip_with_plus_zeros.
  - apply Forall_map. eapply Forall_impl; [| exact Hfm]. intros m [Hms _].
    split; [| now rewrite length_map].
    apply Forall_map, Forall_forall. reflexivity.
Qed.

Lemma MultiheadAttention_forward_residual_witness :
  exists self,
    MultiheadAttention.init 2 1 0%R (fun i r c => if i =? 3 then 0%R else 1%R) = Ok self /\
    MultiheadAttention.forward self [[[1; 2]]]%R [[[3; 4]]]%R [[[5; 6]]]%R [[[false]]] =
    Ok (map (map LayerNorm.normalize) [[[1; 2]]]%R).
Proof.
  assert (Hinit : exists self,
             MultiheadAttention.init 2 1 0%R (fun i r c => if i =? 3 then 0%R else 1%R) =
             Ok self) by (eexists; reflexivity).
  destruct Hinit as (self & Hinit). exists self. split; [exact Hinit |].
  apply (@MultiheadAttention_forward_residual 2 1 0%R _ self 1 1 1
           [[[1; 2]]]%R [[[3; 4]]]%R [[[5; 6]]]%R [[[false]]] Hinit);
    try lia; try reflexivity;
    (split; [reflexivity | repeat constructor]).
Defined.

(** ** Construction of the layers *)

Lemma mapM_exists {A B : Type} (f : A -> result B) (P : B -> Prop) (l : list A) :
  (forall a, In a l -> exists b, f a = Ok b /\ P b) ->
  exists out, mapM f l = Ok out /\ Forall P out /\ length out = length l.
Proof.
  induction l as [| a l IH]; intros H.
  - exists []. repeat split. constructor.
  - destruct (H a (or_introl eq_refl)) as (b & Hb & HP).
    destruct IH as (out & Hout & HF & Hl); [intros a' Ha'; apply H; now right |].
    exists (b :: out). simpl. rewrite Hb, Hout. simpl.
    repeat split; [now constructor | lia].
Qed.

Lemma MultiheadAttention_init_Ok (e h : nat) (p : R) (w : nat -> nat -> nat -> R) :
  0 < e -> 0 < h -> Nat.divide h e -> exists m, MultiheadAttention.init e h p w = Ok m.
Proof.
  intros He Hh [q Hq]. unfold MultiheadAttention.init.
  destruct (Nat.eqb_spec h 0) as [| _]; [lia |].
  assert (Hdiv : e / h = q) by (subst e; apply Nat.div_mul; lia).
  rewrite Hdiv. destruct (Nat.eqb_spec (q * h) e) as [_ | E]; [| congruence].
  rewrite (reset_parameters_Ok He).
  eexists; reflexivity.
Qed.

Lemma TransformerDecoderLayer_init_Ok (d h ffd : nat) (p : R)
    (w : nat -> nat -> nat -> nat -> R) (b : nat -> nat -> R) :
  0 < d -> 0 < h -> Nat.divide h d -> (0 <= p <= 1)%R ->
  exists l, TransformerDecoderLayer.init d h ffd p w b = Ok l.
Proof.
  intros Hpos Hh Hd Hp. unfold TransformerDecoderLayer.init, FeedForWard.init.
  destruct (MultiheadAttention_init_Ok 0%R (w 0) Hpos Hh Hd) as (a1 & ->).
  destruct (MultiheadAttention_init_Ok 0%R (w 1) Hpos Hh Hd) as (a2 & ->).
  rewrite (Dropout_init_Ok Hp). simpl. eexists; reflexivity.
Qed.

Lemma TransformerEncoderLayer_init_Ok (d h ffd : nat) (p : R)
    (w : nat -> nat -> nat -> nat -> R) (b : nat -> nat -> R) :
  0 < d -> 0 < h -> Nat.divide h d -> (0 <= p <= 1)%R ->
  exists l, TransformerEncoderLayer.init d h p ffd w b = Ok l.
Proof.
  intros Hpos Hh Hd Hp. unfold TransformerEncoderLayer.init, FeedForWard.init.
  destruct (MultiheadAttention_init_Ok p (w 0) Hpos Hh Hd) as (a1 & ->).
  rewrite (Dropout_init_Ok Hp). simpl. eexists; reflexivity.
Qed.

Lemma TransformerEncoderLayer_init_fields d h ffd prob w bv self :
  TransformerEncoderLayer.init d h prob ffd w bv = Ok self ->
  MultiheadAttention.init d h prob (w 0) = Ok (TransformerEncoderLayer.self_attn self) /\
  FeedForWard.init d ffd prob (w 1) bv = Ok (TransformerEncoderLayer.feedforward self).
Proof.
  unfold TransformerEncoderLayer.init. intros H.
  apply bind_Ok in H. destruct H as (a1 & H1 & H).
  apply bind_Ok in H. destruct H as (ff & H3 & H).
  injection H as <-. simpl. auto.
Qed.

(** ** Masks of the wrong orientation *)

Lemma bzip_in_head_Raise {X Y Z : Type} (f : X -> Y -> result Z)
    (x : X) (xs : list X) (y : Y) (ys : list Y) (e : exn) :
  length ys = length xs -> f x y = Raise e ->
  bzip_in f (x :: xs) (y :: ys) = Raise e.
Proof.
  intros Hl Hf. unfold bzip_in.
  rewrite bcast_to_same by (simpl; lia). simpl. now rewrite Hf.
Qed.

(** A mask of shape [[sk, sq]] cannot be broadcast to scores of shape
    [[sq, sk]] when the two sizes differ. *)
Lemma masked_fill_transposed_Raise (sq sk : nat) (v : R)
    (sc : matrix) (mk : list (list bool)) :
  0 < sq -> 0 < sk -> sq <> sk -> rect sq sk sc -> rect sk sq mk ->
  bzip_in (bzip_in (fun s (m : bool) => Ok (if m then v else s))) sc mk = Raise RuntimeError.
Proof.
  intros Hsq Hsk Hne [Hlsc Hsc] [Hlmk Hmk].
  destruct sc as [| srow sc]; [simpl in Hlsc; lia |].
  pose proof (Forall_inv Hsc) as Hsrow. cbv beta in Hsrow.
  unfold bzip_in at 1. unfold bcast_to.
  destruct (Nat.eqb_spec (length mk) (length (srow :: sc))) as [E | _]; [lia |].
  destruct mk as [| mrow [| mrow' mk]]; try reflexivity.
  pose proof (Forall_inv Hmk) as Hmrow. cbv beta in Hmrow. simpl in Hlmk.
  cbv beta iota delta [bind]. cbn [length repeat combine].
  apply mapM_Raise_head. cbn [fst snd].
  unfold bzip_in, bcast_to.
  destruct (Nat.eqb_spec (length mrow) (length srow)) as [E | _]; [lia |].
  destruct mrow as [| m0 [| m1 mrow]]; try reflexivity.
  simpl in Hmrow. lia.
Qed.

Lemma masked_fill4_transposed_Raise (b h sq sk : nat) (v : R)
    (scores : tensor4) (mask : mask4) :
  0 < b -> 0 < h -> 0 < sq -> 0 < sk -> sq <> sk ->
  shape4 b h sq sk scores -> shape4 b h sk sq mask ->
  masked_fill4 scores mask v = Raise RuntimeError.
Proof.
  intros Hb Hh Hsq Hsk Hne [Hls Hs] [Hlm Hm]. unfold masked_fill4.
  destruct scores as [| s0 scores]; [simpl in Hls; lia |].
  destruct mask as [| m0 mask]; [simpl in Hlm; lia |].
  apply bzip_in_head_Raise; [simpl in *; lia |].
  pose proof (Forall_inv Hs) as [Hls0 Hs0]. pose proof (Forall_inv Hm) as [Hlm0 Hm0].
  destruct s0 as [| sc s0]; [simpl in Hls0; lia |].
  destruct m0 as [| mk m0]; [simpl in Hlm0; lia |].
  apply bzip_in_head_Raise; [simpl in *; lia |].
  apply masked_fill_transposed_Raise with sq sk; auto;
    [exact (Forall_inv Hs0) | exact (Forall_inv Hm0)].
Qed.

Lemma scores_Ok (b h sq sk dk : nat) (Q K : tensor4) :
  0 < sk -> 0 < dk ->
  shape4 b h sq dk Q -> shape4 b h sk dk K ->
  exists qk, matmul4 Q (transpose_last2 K) = Ok qk /\ shape4 b h sq sk qk.
Proof.
  intros Hsk Hdk HQ HK.
  assert (HKt : grid b h (rect dk sk) (transpose_last2 K)).
  { unfold transpose_last2. eapply grid_map; [| exact HK]. intros k Hk.
    destruct sk as [| sk']; [lia |]. rewrite (ncols_rect Hk).
    now apply transpose_rect. }
  set (mm := fun (q kt : matrix) => map (fun row => map (dot row) (transpose sk kt)) q).
  exists (zip_with (zip_with mm) Q (transpose_last2 K)). split.
  - unfold matmul4. eapply grid_bzip; [| exact HQ | exact HKt].
    intros q kt Hq Hkt. destruct (matmul2_rect Hdk Hq Hkt) as (p & Hp & _ & ->).
    exact Hp.
  - eapply grid_zip_with; [| exact HQ | exact HKt].
    intros q kt Hq Hkt. destruct (matmul2_rect Hdk Hq Hkt) as (p & _ & Hp & ->).
    exact Hp.
Qed.

Lemma sdpa_forward_transposed_mask (b h sq sk dk : nat) (Q K V : tensor4) (mask : mask4) :
  0 < b -> 0 < h -> 0 < sq -> 0 < sk -> 0 < dk -> sq <> sk ->
  shape4 b h sq dk Q -> shape4 b h sk dk K -> shape4 b h sk sq mask ->
  ScaleDotProductAttention.forward Q K V mask dk = Raise RuntimeError.
Proof.
  intros Hb Hh Hsq Hsk Hdk Hne HQ HK Hm.
  unfold ScaleDotProductAttention.forward, ScaleDotProductAttention.attn.
  destruct (scores_Ok Hsk Hdk HQ HK) as (qk & -> & Hqk). cbv beta iota delta [bind].
  rewrite (@masked_fill4_transposed_Raise b h sq sk); auto.
  eapply grid_map; [| exact Hqk]. intros m0 Hm0.
  eapply rect_map_rows; [| exact Hm0]. intros r Hr. now rewrite length_map.
Qed.

Lemma MultiheadAttention_forward_transposed_mask e h p w self (b sq sk : nat)
    (query key value : tensor3) (attn_mask : mask3) :
  MultiheadAttention.init e h p w = Ok self ->
  0 < e -> 0 < b -> 0 < sq -> 0 < sk -> sq <> sk ->
  shape3 b sq e query -> shape3 b sk e key -> shape3 b sk e value ->
  shape3 b sk sq attn_mask ->
  MultiheadAttention.forward self query key value attn_mask = Raise RuntimeError.
Proof.
  intros Hinit He Hb Hsq Hsk Hne Hq Hk Hv Hm.
  destruct (MultiheadAttention_init_fields _ _ _ _ Hinit)
    as (Hh & Hdiv & He' & Hh'' & _ & Hqw & Hkw & Hvw & Hfc).
  set (dk := e / h) in *.
  assert (Hdk : 0 < dk) by (destruct dk; [lia | lia]).
  assert (Hh' : 0 < h) by lia.
  unfold MultiheadAttention.forward. rewrite He', Hh'', Hqw, Hkw, Hvw, Hfc.
  destruct (Nat.eqb_spec h 0) as [| _]; [contradiction |].
  fold dk.
  assert (Hlen : length query = b) by apply Hq. rewrite Hlen.
  destruct (Linear_init_forward e false (w 0) (fun _ => 0%R) Hq) as (q & -> & Hq').
  simpl. rewrite Hdiv in Hq'.
  destruct (split_heads_Ok Hb Hh' Hdk Hq') as (Q & -> & HQ). simpl.
  destruct (Linear_init_forward e false (w 1) (fun _ => 0%R) Hk) as (k & -> & Hk').
  simpl. rewrite Hdiv in Hk'.
  destruct (split_heads_Ok Hb Hh' Hdk Hk') as (K & -> & HK). simpl.
  destruct (Linear_init_forward e false (w 2) (fun _ => 0%R) Hv) as (v & -> & Hv').
  simpl. rewrite Hdiv in Hv'.
  destruct (split_heads_Ok Hb Hh' Hdk Hv') as (V & -> & HV). simpl.
  now rewrite (@sdpa_forward_transposed_mask b h sq sk dk Q K V _
                 Hb Hh' Hsq Hsk Hdk Hne HQ HK (shape4_repeat h Hm)).
Qed.

(** ** The decoder layer on the masks of the decoder *)

Lemma TransformerDecoderLayer_forward_lengths d h ffd prob w bv self (m : mode)
    (b ld le : nat) (dec enc : tensor3) (m1 m2 : mask3) :
  TransformerDecoderLayer.init d h ffd prob w bv = Ok self ->
  0 < d -> 0 < b -> 0 < ld -> 0 < le ->
  shape3 b ld d dec -> shape3 b le d enc ->
  shape3 b ld ld m1 -> shape3 b ld le m2 ->
  (ld = le -> exists out, TransformerDecoderLayer.forward self m dec enc m1 m2 = Ok out /\
                          shape3 b le d out) /\
  (ld <> le -> TransformerDecoderLayer.forward self m dec enc m1 m2 = Raise RuntimeError).
Proof.
  intros Hinit Hd Hb Hld Hle Hdec Henc Hm1 Hm2.
  destruct (TransformerDecoderLayer_init_fields _ _ _ _ _ _ Hinit) as (H1 & H2 & H3).
  unfold TransformerDecoderLayer.forward.
  destruct (@MultiheadAttention_forward_Ok _ _ _ _ _ _ _ _ _ _ _ _
              H1 Hd Hb Hld Hdec Hdec Hdec Hm1) as (self_out & -> & Hso).
  cbv beta iota delta [bind]. split.
  - intros <-.
    destruct (@MultiheadAttention_forward_Ok _ _ _ _ _ _ _ _ _ _ _ _
                H2 Hd Hb Hld Henc Hso Hso Hm2) as (cross_out & -> & Hco).
    cbv beta iota delta [bind].
    exact (@FeedForWard_forward_Ok _ _ _ _ _ _ m _ _ _ H3 Hco).
  - intros Hne.
    now rewrite (@MultiheadAttention_forward_transposed_mask _ _ _ _ _ b le ld _ _ _ _
                   H2 Hd Hb Hle Hld (not_eq_sym Hne) Henc Hso Hso Hm2).
Qed.

Lemma decoder_run_layers_Ok d h ffd prob (ls : list TransformerDecoderLayer.t)
    (layer_mode : nat -> mode) (b l : nat) (enc : tensor3) (m1 m2 : mask3) :
  Forall (fun layer => exists w bv,
              TransformerDecoderLayer.init d h ffd prob w bv = Ok layer) ls ->
  0 < d -> 0 < b -> 0 < l ->
  shape3 b l d enc -> shape3 b l l m1 -> shape3 b l l m2 ->
  forall i x, shape3 b l d x ->
    exists out, TransformerDecoder.run_layers ls i layer_mode x enc m1 m2 = Ok out /\
                shape3 b l d out.
Proof.
  intros Hls Hd Hb Hl Henc Hm1 Hm2.
  induction Hls as [| layer ls (w & bv & Hinit) _ IH]; intros i x Hx.
  - exists x. split; [reflexivity | exact Hx].
  - cbn [TransformerDecoder.run_layers].
    destruct (@TransformerDecoderLayer_forward_lengths d h ffd prob w bv layer
                (layer_mode i) b l l x enc m1 m2 Hinit Hd Hb Hl Hl Hx Henc Hm1 Hm2)
      as [Hok _].
    destruct (Hok eq_refl) as (out & -> & Hout). cbv beta iota delta [bind].
    now apply IH.
Qed.

(** ** Embedding followed by the positional encoding *)

Lemma nn_Embedding_rect (vocab d : nat) (emb : nat -> nat -> R) :
  rect vocab d (nn_Embedding vocab d emb).
Proof.
  unfold nn_Embedding, tabulate. split; [now rewrite length_map, length_seq |].
  apply Forall_map, Forall_forall. intros i _. now rewrite length_map, length_seq.
Qed.

Lemma Embedding_forward_Ok (vocab d b l : nat) (table : matrix) (ids : list (list nat)) :
  rect vocab d table -> rect b l ids ->
  Forall (Forall (fun i => i < vocab)) ids ->
  exists emb, Embedding.forward table ids = Ok emb /\ shape3 b l d emb.
Proof.
  intros [Hlt Ht] [Hli Hi] Hids.
  exists (map (map (fun i => nth i table [])) ids). split.
  - unfold Embedding.forward. apply mapM_Ok.
    eapply Forall_impl; [| exact Hids]. intros row Hrow.
    apply mapM_Ok. eapply Forall_impl; [| exact Hrow]. intros i Hlt'. cbv beta in Hlt'.
    destruct (nth_error table i) as [r |] eqn:E.
    + now rewrite (nth_error_nth _ _ _ E).
    + apply nth_error_None in E. lia.
  - split; [now rewrite length_map |].
    apply Forall_map.
    eapply Forall_impl; [| exact (Forall_and Hi Hids)].
    intros row [Hrl Hrow]. split; [now rewrite length_map |].
    apply Forall_map. eapply Forall_impl; [| exact Hrow]. intros i Hi'. cbv beta in Hi'.
    apply (proj1 (Forall_nth _ table) Ht). lia.
Qed.

Lemma embed_and_encode_Ok (vocab d max_len b l : nat) (table : matrix)
    (pos : PositionalEncoding.t) (m : mode) (ids : list (list nat)) :
  rect vocab d table ->
  shape3 max_len 1 d (PositionalEncoding.pe pos) ->
  rect b l ids -> Forall (Forall (fun i => i < vocab)) ids -> b <= max_len ->
  exists x,
    (emb <- Embedding.forward table ids ;; PositionalEncoding.forward pos m emb) = Ok x /\
    shape3 b l d x.
Proof.
  intros Ht Hpe Hids Hrange Hb.
  destruct (Embedding_forward_Ok Ht Hids Hrange) as (emb & -> & Hemb).
  cbv beta iota delta [bind].
  destruct (PositionalEncoding_forward_Ok pos m Hpe Hemb Hb) as (x' & -> & Hx' & _).
  eexists; split; [reflexivity |]. now apply shape3_Dropout.
Qed.

(** ** The decoder *)

Lemma TransformerDecoder_forward_lengths (self : TransformerDecoder.t)
    (vocab d h ffd max_len : nat) (prob : R)
    (pos_mode : mode) (layer_mode : nat -> mode) (b ld le : nat)
    (enc_inputs dec_inputs : list (list nat)) (enc_outputs : tensor3) :
  rect vocab d (TransformerDecoder.tgt_emb self) ->
  shape3 max_len 1 d (PositionalEncoding.pe (TransformerDecoder.pos_emb self)) ->
  Forall (fun layer => exists w bv,
              TransformerDecoderLayer.init d h ffd prob w bv = Ok layer)
         (TransformerDecoder.layers self) ->
  0 < d -> 0 < b -> b <= max_len -> 0 < ld -> 0 < le ->
  rect b le enc_inputs -> rect b ld dec_inputs ->
  Forall (Forall (fun i => i < vocab)) dec_inputs ->
  shape3 b le d enc_outputs ->
  (ld = le ->
   exists out,
     TransformerDecoder.forward self pos_mode layer_mode
                                enc_inputs dec_inputs enc_outputs = Ok out /\
     shape3 b le d out) /\
  (ld <> le -> TransformerDecoder.layers self <> [] ->
   TransformerDecoder.forward self pos_mode layer_mode
                              enc_inputs dec_inputs enc_outputs = Raise RuntimeError).
Proof.
  intros Ht Hpe Hls Hd Hb Hbm Hld Hle Henc Hdec Hrange Heo.
  unfold TransformerDecoder.forward.
  destruct (@embed_and_encode_Ok vocab d max_len b ld _ _ pos_mode dec_inputs
              Ht Hpe Hdec Hrange Hbm) as (x & Hx & Hxs).
  destruct (Embedding.forward (TransformerDecoder.tgt_emb self) dec_inputs) as [emb | e];
    [| discriminate].
  cbv beta iota delta [bind] in Hx |- *. rewrite Hx.
  rewrite (self_attn_mask_Ok Hdec). cbv beta iota delta [bind].
  pose proof (shape3_zip_with orb (shape3_pad_mask Hdec Hdec)
                (shape3_subsequence_mask Hdec)) as Hm1.
  fold (Spec.mask_or (get_attn_pad_mask dec_inputs dec_inputs)
                     (get_attn_subsequence_mask dec_inputs)) in Hm1.
  pose proof (shape3_pad_mask Hdec Henc) as Hm2.
  split.
  - intros E. subst le.
    exact (@decoder_run_layers_Ok d h ffd prob _ layer_mode b ld enc_outputs _ _
             Hls Hd Hb Hld Heo Hm1 Hm2 0 x Hxs).
  - intros Hne Hnil.
    destruct (TransformerDecoder.layers self) as [| layer ls]; [contradiction |].
    pose proof (Forall_inv Hls) as (w & bv & Hinit).
    cbn [TransformerDecoder.run_layers].
    destruct (@TransformerDecoderLayer_forward_lengths d h ffd prob w bv layer
                (layer_mode 0) b ld le x enc_outputs _ _
                Hinit Hd Hb Hld Hle Hxs Heo Hm1 Hm2) as [_ Hraise].
    now rewrite (Hraise Hne).
Qed.

Lemma TransformerDecoder_init_Ok (args : Args.t) (emb : nat -> nat -> R)
    (w : nat -> nat -> nat -> nat -> nat -> R) (bv : nat -> nat -> nat -> R) (n : nat) :
  Args.d_model args = 2 * n -> 0 < n ->
  0 < Args.nums_head args -> Nat.divide (Args.nums_head args) (Args.d_model args) ->
  (0 <= Args.dropout args <= 1)%R ->
  exists self,
    TransformerDecoder_init args emb w bv = Ok self /\
    TransformerDecoder.tgt_emb self =
      nn_Embedding (Args.vocab_dec_size args) (Args.d_model args) emb /\
    shape3 default_max_len 1 (Args.d_model args)
           (PositionalEncoding.pe (TransformerDecoder.pos_emb self)) /\
    length (TransformerDecoder.layers self) = Args.n_layers args /\
    Forall (fun layer => exists w' bv',
                TransformerDecoderLayer.init (Args.d_model args) (Args.nums_head args)
                  (Args.feedforward_dim args) (Args.dropout args) w' bv' = Ok layer)
           (TransformerDecoder.layers self).
Proof.
  intros Hdm Hn Hh Hdiv Hp. unfold TransformerDecoder_init.
  destruct (PositionalEncoding_init_even default_max_len Hn Hp)
    as (pos & Hpos & _ & Hshape & _).
  rewrite <- Hdm in Hpos, Hshape. rewrite Hpos. cbv beta iota delta [bind].
  destruct (@mapM_exists _ _
              (fun i => TransformerDecoderLayer.init (Args.d_model args)
                          (Args.nums_head args) (Args.feedforward_dim args)
                          (Args.dropout args) (w i) (bv i))
              (fun layer => exists w' bv',
                   TransformerDecoderLayer.init (Args.d_model args) (Args.nums_head args)
                     (Args.feedforward_dim args) (Args.dropout args) w' bv' = Ok layer)
              (seq 0 (Args.n_layers args)))
    as (ls & Hls & HF & Hlen).
  { intros i _.
    assert (Hdpos : 0 < Args.d_model args) by lia.
    destruct (TransformerDecoderLayer_init_Ok (Args.feedforward_dim args)
                (w i) (bv i) Hdpos Hh Hdiv Hp) as (l & Hl).
    exists l. split; [exact Hl |]. now exists (w i), (bv i). }
  rewrite Hls. cbv beta iota delta [bind].
  eexists; split; [reflexivity |]. cbn.
  rewrite length_seq in Hlen. auto.
Qed.

(** X12.  A decoder built from valid arguments (even [d_model], a head count
    dividing it, a dropout probability in [[0, 1]]) runs on target ids in
    range when target and source have the same length, and returns a tensor
    of shape [[batch, len, d_model]].  When the lengths differ and the
    decoder has a layer, [forward] raises a [RuntimeError]: the
    cross-attention puts the encoder output in the query position, so its
    scores are [[len_enc, len_dec]] while the mask is [[len_dec, len_enc]]. *)
Theorem TransformerDecoder_forward_source_target_lengths :
  forall (args : Args.t) (emb : nat -> nat -> R)
         (w : nat -> nat -> nat -> nat -> nat -> R) (bv : nat -> nat -> nat -> R) (n : nat),
    Args.d_model args = 2 * n -> 0 < n ->
    0 < Args.nums_head args -> Nat.divide (Args.nums_head args) (Args.d_model args) ->
    (0 <= Args.dropout args <= 1)%R ->
    exists self,
      TransformerDecoder_init args emb w bv = Ok self /\
      forall pos_mode layer_mode b ld le enc_inputs dec_inputs enc_outputs,
        0 < b -> b <= default_max_len -> 0 < ld -> 0 < le ->
        rect b le enc_inputs -> rect b ld dec_inputs ->
        Forall (Forall (fun i => i < Args.vocab_dec_size args)) dec_inputs ->
        shape3 b le (Args.d_model args) enc_outputs ->
        (ld = le ->
         exists out,
           TransformerDecoder.forward self pos_mode layer_mode
                                      enc_inputs dec_inputs enc_outputs = Ok out /\
           shape3 b le (Args.d_model args) out) /\
        (ld <> le -> 0 < Args.n_layers args ->
         TransformerDecoder.forward self pos_mode layer_mode
                                    enc_inputs dec_inputs enc_outputs = Raise RuntimeError).
Proof.
  intros args emb w bv n Hdm Hn Hh Hdiv Hp.
  destruct (TransformerDecoder_init_Ok args emb w bv Hdm Hn Hh Hdiv Hp)
    as (self & Hinit & Htab & Hpe & Hlen & Hls).
  exists self. split; [exact Hinit |].
  intros pos_mode layer_mode b ld le enc_inputs dec_inputs enc_outputs
         Hb Hbm Hld Hle Henc Hdec Hrange Heo.
  assert (Hd : 0 < Args.d_model args) by lia.
  assert (Ht : rect (Args.vocab_dec_size args) (Args.d_model args)
                    (TransformerDecoder.tgt_emb self))
    by (rewrite Htab; apply nn_Embedding_rect).
  destruct (@TransformerDecoder_forward_lengths self _ _ _ _ _ _ pos_mode layer_mode
              b ld le enc_inputs dec_inputs enc_outputs
              Ht Hpe Hls Hd Hb Hbm Hld Hle Henc Hdec Hrange Heo) as [Hok Hraise].
  split; [exact Hok |].
  intros Hne Hlayers. apply Hraise; [exact Hne |].
  intros E. rewrite E in Hlen. simpl in Hlen. lia.
Qed.

(** Two layers of width two, one head; a source of two tokens. *)
Lemma TransformerDecoder_forward_source_target_lengths_witness :
  let args := {| Args.vocab_enc_size := 3; Args.vocab_dec_size := 3; Args.d_model := 2;
                 Args.nums_head := 1; Args.n_layers := 2; Args.dropout := 0%R;
                 Args.feedforward_dim := 2 |} in
  exists self,
    TransformerDecoder_init args (fun _ _ => 1%R) (fun _ _ _ _ _ => 1%R) (fun _ _ _ => 0%R) =
      Ok self /\
    (exists out,
        TransformerDecoder.forward self Eval (fun _ => Eval) [[1; 2]] [[2; 0]]
                                   [[[1; 2]; [3; 4]]]%R = Ok out /\
        shape3 1 2 2 out) /\
    TransformerDecoder.forward self Eval (fun _ => Eval) [[1; 2]] [[2]]
                               [[[1; 2]; [3; 4]]]%R = Raise RuntimeError.
Proof.
  intros args.
  destruct (@TransformerDecoder_forward_source_target_lengths args
              (fun _ _ => 1%R) (fun _ _ _ _ _ => 1%R) (fun _ _ _ => 0%R) 1)
    as (self & Hinit & Hfw);
    [reflexivity | lia | cbn; lia | exists 2; reflexivity | cbn; lra |].
  exists self. split; [exact Hinit |].
  assert (Heo : shape3 1 2 (Args.d_model args) [[[1; 2]; [3; 4]]]%R)
    by (split; [reflexivity | repeat constructor]).
  assert (Hsrc : rect 1 2 [[1; 2]]) by (split; [reflexivity | repeat constructor]).
  assert (Hd2 : rect 1 2 [[2; 0]]) by (split; [reflexivity | repeat constructor]).
  assert (Hd1 : rect 1 1 [[2]]) by (split; [reflexivity | repeat constructor]).
  assert (Hr2 : Forall (Forall (fun i => i < Args.vocab_dec_size args)) [[2; 0]])
    by (repeat constructor).
  assert (Hr1 : Forall (Forall (fun i => i < Args.vocab_dec_size args)) [[2]])
    by (repeat constructor).
  assert (Hb : 1 <= default_max_len) by (unfold default_max_len; lia).
  split.
  - destruct (Hfw Eval (fun _ => Eval) 1 2 2 [[1; 2]] [[2; 0]] [[[1; 2]; [3; 4]]]%R
                ltac:(lia) Hb ltac:(lia) ltac:(lia) Hsrc Hd2 Hr2 Heo) as [Hok _].
    now apply Hok.
  - destruct (Hfw Eval (fun _ => Eval) 1 1 2 [[1; 2]] [[2]] [[[1; 2]; [3; 4]]]%R
                ltac:(lia) Hb ltac:(lia) ltac:(lia) Hsrc Hd1 Hr1 Heo) as [_ Hraise].
    apply Hraise; [lia | cbn; lia].
Defined.

(** ** The encoder *)

Lemma TransformerEncoderLayer_forward_Ok d h ffd prob w bv self (m : mode)
    (b l : nat) (x : tensor3) (mask : mask3) :
  TransformerEncoderLayer.init d h prob ffd w bv = Ok self ->
  0 < d -> 0 < b -> 0 < l ->
  shape3 b l d x -> shape3 b l l mask ->
  exists out, TransformerEncoderLayer.forward self m x mask = Ok out /\ shape3 b l d out.
Proof.
  intros Hinit Hd Hb Hl Hx Hm.
  destruct (TransformerEncoderLayer_init_fields _ _ _ _ _ _ Hinit) as (H1 & H3).
  unfold TransformerEncoderLayer.forward.
  destruct (@MultiheadAttention_forward_Ok _ _ _ _ _ _ _ _ _ _ _ _
              H1 Hd Hb Hl Hx Hx Hx Hm) as (o & -> & Ho).
  cbv beta iota delta [bind].
  exact (@FeedForWard_forward_Ok _ _ _ _ _ _ m _ _ _ H3 Ho).
Qed.

Lemma encoder_run_layers_Ok d h ffd prob (ls : list TransformerEncoderLayer.t)
    (layer_mode : nat -> mode) (b l : nat) (mask : mask3) :
  Forall (fun layer => exists w bv,
              TransformerEncoderLayer.init d h prob ffd w bv = Ok layer) ls ->
  0 < d -> 0 < b -> 0 < l -> shape3 b l l mask ->
  forall i x, shape3 b l d x ->
    exists out, TransformerEncoder.run_layers ls i layer_mode x mask = Ok out /\
                shape3 b l d out.
Proof.
  intros Hls Hd Hb Hl Hm.
  induction Hls as [| layer ls (w & bv & Hinit) _ IH]; intros i x Hx.
  - exists x. split; [reflexivity | exact Hx].
  - cbn [TransformerEncoder.run_layers].
    destruct (@TransformerEncoderLayer_forward_Ok d h ffd prob w bv layer
                (layer_mode i) b l x mask Hinit Hd Hb Hl Hx Hm) as (out & -> & Hout).
    cbv beta iota delta [bind]. now apply IH.
Qed.

Lemma TransformerEncoder_init_Ok (args : Args.t) (emb : nat -> nat -> R)
    (w : nat -> nat -> nat -> nat -> nat -> R) (bv : nat -> nat -> nat -> R) (n : nat) :
  Args.d_model args = 2 * n -> 0 < n ->
  0 < Args.nums_head args -> Nat.divide (Args.nums_head args) (Args.d_model args) ->
  (0 <= Args.dropout args <= 1)%R ->
  exists self,
    TransformerEncoder.init args emb w bv = Ok self /\
    TransformerEncoder.src_emb self =
      nn_Embedding (Args.vocab_enc_size args) (Args.d_model args) emb /\
    shape3 default_max_len 1 (Args.d_model args)
           (PositionalEncoding.pe (TransformerEncoder.pos_emb self)) /\
    length (TransformerEncoder.layers self) = Args.n_layers args /\
    Forall (fun layer => exists w' bv',
                TransformerEncoderLayer.init (Args.d_model args) (Args.nums_head args)
                  (Args.dropout args) (Args.feedforward_dim args) w' bv' = Ok layer)
           (TransformerEncoder.layers self).
Proof.
  intros Hdm Hn Hh Hdiv Hp. unfold TransformerEncoder.init.
  destruct (PositionalEncoding_init_even default_max_len Hn Hp)
    as (pos & Hpos & _ & Hshape & _).
  rewrite <- Hdm in Hpos, Hshape. rewrite Hpos. cbv beta iota delta [bind].
  destruct (@mapM_exists _ _
              (fun i => TransformerEncoderLayer.init (Args.d_model args)
                          (Args.nums_head args) (Args.dropout args)
                          (Args.feedforward_dim args) (w i) (bv i))
              (fun layer => exists w' bv',
                   TransformerEncoderLayer.init (Args.d_model args) (Args.nums_head args)
                     (Args.dropout args) (Args.feedforward_dim args) w' bv' = Ok layer)
              (seq 0 (Args.n_layers args)))
    as (ls & Hls & HF & Hlen).
  { intros i _.
    assert (Hdpos : 0 < Args.d_model args) by lia.
    destruct (TransformerEncoderLayer_init_Ok (Args.feedforward_dim args)
                (w i) (bv i) Hdpos Hh Hdiv Hp) as (l & Hl).
    exists l. split; [exact Hl |]. now exists (w i), (bv i). }
  rewrite Hls. cbv beta iota delta [bind].
  eexists; split; [reflexivity |]. cbn.
  rewrite length_seq in Hlen. auto.
Qed.

Lemma TransformerEncoder_forward_Ok (self : TransformerEncoder.t)
    (vocab d h ffd max_len : nat) (prob : R)
    (pos_mode : mode) (layer_mode : nat -> mode) (b l : nat) (inputs : list (list nat)) :
  rect vocab d (TransformerEncoder.src_emb self) ->
  shape3 max_len 1 d (PositionalEncoding.pe (TransformerEncoder.pos_emb self)) ->
  Forall (fun layer => exists w bv,
              TransformerEncoderLayer.init d h prob ffd w bv = Ok layer)
         (TransformerEncoder.layers self) ->
  0 < d -> 0 < b -> b <= max_len -> 0 < l ->
  rect b l inputs -> Forall (Forall (fun i => i < vocab)) inputs ->
  exists out,
    TransformerEncoder.forward self pos_mode layer_mode inputs = Ok out /\
    shape3 b l d out.
Proof.
  intros Ht Hpe Hls Hd Hb Hbm Hl Hin Hrange.
  unfold TransformerEncoder.forward.
  destruct (@embed_and_encode_Ok vocab d max_len b l _ _ pos_mode inputs
              Ht Hpe Hin Hrange Hbm) as (x & Hx & Hxs).
  destruct (Embedding.forward (TransformerEncoder.src_emb self) inputs) as [emb | e];
    [| discriminate].
  cbv beta iota delta [bind] in Hx |- *. rewrite Hx.
  exact (@encoder_run_layers_Ok d h ffd prob _ layer_mode b l _
           Hls Hd Hb Hl (shape3_pad_mask Hin Hin) 0 x Hxs).
Qed.

(** X13.  An encoder built from valid arguments runs on every batch of at
    most 5000 sequences of source ids in range and returns a tensor of shape
    [[batch, seq_len, d_model]]. *)
Theorem TransformerEncoder_forward_shape :
  forall (args : Args.t) (emb : nat -> nat -> R)
         (w : nat -> nat -> nat -> nat -> nat -> R) (bv : nat -> nat -> nat -> R) (n : nat),
    Args.d_model args = 2 * n -> 0 < n ->
    0 < Args.nums_head args -> Nat.divide (Args.nums_head args) (Args.d_model args) ->
    (0 <= Args.dropout args <= 1)%R ->
    exists self,
      TransformerEncoder.init args emb w bv = Ok self /\
      length (TransformerEncoder.layers self) = Args.n_layers args /\
      forall pos_mode layer_mode b l inputs,
        0 < b -> b <= default_max_len -> 0 < l ->
        rect b l inputs ->
        Forall (Forall (fun i => i < Args.vocab_enc_size args)) inputs ->
        exists out,
          TransformerEncoder.forward self pos_mode layer_mode inputs = Ok out /\
          shape3 b l (Args.d_model args) out.
Proof.
  intros args emb w bv n Hdm Hn Hh Hdiv Hp.
  destruct (TransformerEncoder_init_Ok args emb w bv Hdm Hn Hh Hdiv Hp)
    as (self & Hinit & Htab & Hpe & Hlen & Hls).
  exists self. split; [exact Hinit |]. split; [exact Hlen |].
  intros pos_mode layer_mode b l inputs Hb Hbm Hl Hin Hrange.
  assert (Hd : 0 < Args.d_model args) by lia.
  assert (Ht : rect (Args.vocab_enc_size args) (Args.d_model args)
                    (TransformerEncoder.src_emb self))
    by (rewrite Htab; apply nn_Embedding_rect).
  exact (@TransformerEncoder_forward_Ok self _ _ _ _ _ _ pos_mode layer_mode b l inputs
           Ht Hpe Hls Hd Hb Hbm Hl Hin Hrange).
Qed.

Lemma TransformerEncoder_forward_shape_witness :
  let args := {| Args.vocab_enc_size := 3; Args.vocab_dec_size := 3; Args.d_model := 2;
                 Args.nums_head := 1; Args.n_layers := 2; Args.dropout := 0%R;
                 Args.feedforward_dim := 2 |} in
  exists self out,
    TransformerEncoder.init args (fun _ _ => 1%R) (fun _ _ _ _ _ => 1%R) (fun _ _ _ => 0%R) =
      Ok self /\
    TransformerEncoder.forward self Eval (fun _ => Eval) [[1; 2; 0]] = Ok out /\
    shape3 1 3 2 out.
Proof.
  intros args.
  destruct (@TransformerEncoder_forward_shape args
              (fun _ _ => 1%R) (fun _ _ _ _ _ => 1%R) (fun _ _ _ => 0%R) 1)
    as (self & Hinit & _ & Hfw);
    [reflexivity | lia | cbn; lia | exists 2; reflexivity | cbn; lra |].
  assert (Hin : rect 1 3 [[1; 2; 0]]) by (split; [reflexivity | repeat constructor]).
  assert (Hr : Forall (Forall (fun i => i < Args.vocab_enc_size args)) [[1; 2; 0]])
    by (repeat constructor).
  assert (Hb : 1 <= default_max_len) by (unfold default_max_len; lia).
  destruct (Hfw Eval (fun _ => Eval) 1 3 [[1; 2; 0]] ltac:(lia) Hb ltac:(lia) Hin Hr)
    as (out & Hout & Hs).
  exists self, out. auto.
Defined.

(** ** The whole model *)

Lemma view2_Ok (b l v : nat) (t : tensor3) :
  0 < b -> 0 < l -> 0 < v -> shape3 b l v t ->
  view2 (size_last t) t = Ok (concat t) /\ rect (b * l) v (concat t).
Proof.
  intros Hb Hl Hv Ht.
  pose proof (shape3_concat Ht) as Hrows.
  pose proof (rect_concat_length Hrows) as Hflat.
  assert (Hsize : size_last t = v).
  { destruct Ht as [Hlen Hf]. destruct t as [| m t]; [simpl in Hlen; lia |].
    pose proof (Forall_inv Hf) as Hm. simpl.
    destruct l as [| l']; [lia |]. exact (ncols_rect Hm). }
  split; [| exact Hrows].
  rewrite Hsize. unfold view2.
  destruct (Nat.eqb_spec v 0) as [E | _]; [lia |].
  rewrite Hflat, Nat.Div0.mod_mul, Nat.div_mul by lia. cbn [Nat.eqb].
  now rewrite (chunks_concat_rect Hrows).
Qed.

(** X14.  A transformer built from valid arguments runs on source and target
    ids in range of the same length, with at most 5000 sequences in the
    batch, and returns logits of shape
    [[batch * seq_len, vocab_dec_size]].  When the two lengths differ and
    there is at least one layer, [forward] raises a [RuntimeError]. *)
Theorem Transformer_forward_logits :
  forall (args : Args.t) (r : Draws.t) (n : nat),
    Args.d_model args = 2 * n -> 0 < n ->
    0 < Args.nums_head args -> Nat.divide (Args.nums_head args) (Args.d_model args) ->
    (0 <= Args.dropout args <= 1)%R ->
    exists self,
      Transformer.init args r = Ok self /\
      forall md b ld le enc_inputs dec_inputs,
        0 < b -> b <= default_max_len -> 0 < ld -> 0 < le ->
        rect b le enc_inputs -> rect b ld dec_inputs ->
        Forall (Forall (fun i => i < Args.vocab_enc_size args)) enc_inputs ->
        Forall (Forall (fun i => i < Args.vocab_dec_size args)) dec_inputs ->
        (ld = le ->
         exists logits,
           Transformer.forward self md enc_inputs dec_inputs = Ok logits /\
           rect (b * le) (Args.vocab_dec_size args) logits) /\
        (ld <> le -> 0 < Args.n_layers args ->
         Transformer.forward self md enc_inputs dec_inputs = Raise RuntimeError).
Proof.
  intros args r n Hdm Hn Hh Hdiv Hp.
  destruct (TransformerEncoder_init_Ok args (Draws.emb_enc r) (Draws.w_enc r)
              (Draws.b_enc r) Hdm Hn Hh Hdiv Hp)
    as (enc & Hienc & Hetab & Hepe & _ & Hels).
  destruct (TransformerDecoder_init_Ok args (Draws.emb_dec r) (Draws.w_dec r)
              (Draws.b_dec r) Hdm Hn Hh Hdiv Hp)
    as (dec & Hidec & Hdtab & Hdpe & Hdlen & Hdls).
  eexists. split.
  { unfold Transformer.init. rewrite Hienc, Hidec. reflexivity. }
  intros md b ld le enc_inputs dec_inputs Hb Hbm Hld Hle Henc Hdec Hre Hrd.
  assert (Hd : 0 < Args.d_model args) by lia.
  assert (Het : rect (Args.vocab_enc_size args) (Args.d_model args)
                     (TransformerEncoder.src_emb enc))
    by (rewrite Hetab; apply nn_Embedding_rect).
  assert (Hdt : rect (Args.vocab_dec_size args) (Args.d_model args)
                     (TransformerDecoder.tgt_emb dec))
    by (rewrite Hdtab; apply nn_Embedding_rect).
  unfold Transformer.forward. cbn [Transformer.encode Transformer.decode Transformer.projection].
  destruct (@TransformerEncoder_forward_Ok enc _ _ _ _ _ _ (Modes.enc_pos md)
              (Modes.enc_layer md) b le enc_inputs Het Hepe Hels Hd Hb Hbm Hle Henc Hre)
    as (enc_outputs & -> & Heo).
  cbv beta iota delta [bind].
  destruct (@TransformerDecoder_forward_lengths dec _ _ _ _ _ _ (Modes.dec_pos md)
              (Modes.dec_layer md) b ld le enc_inputs dec_inputs enc_outputs
              Hdt Hdpe Hdls Hd Hb Hbm Hld Hle Henc Hdec Hrd Heo) as [Hok Hraise].
  split.
  - intros E. destruct (Hok E) as (dec_outputs & -> & Hdo).
    cbv beta iota delta [bind].
    destruct (Linear_init_forward (Args.vocab_dec_size args) true
                (Draws.w_proj r) (Draws.b_proj r) Hdo) as (logits & -> & Hlg).
    cbv beta iota delta [bind].
    assert (Hv : 0 < Args.vocab_dec_size args).
    { destruct Hdec as [Hlen Hrows].
      destruct dec_inputs as [| row rest]; [simpl in Hlen; lia |].
      pose proof (Forall_inv Hrows) as Hrl. cbv beta in Hrl.
      destruct row as [| i row]; [simpl in Hrl; lia |].
      pose proof (Forall_inv (Forall_inv Hrd)) as Hi. cbv beta in Hi. lia. }
    destruct (view2_Ok Hb Hle Hv Hlg) as [-> Hrect].
    eexists; split; [reflexivity | exact Hrect].
  - intros Hne Hlayers. rewrite Hraise; [reflexivity | exact Hne |].
    intros E. rewrite E in Hdlen. simpl in Hdlen. lia.
Qed.

(** The scenario of a batch of one: source [[1, 2, 3, 0]], target
    [[4, 5, 0, 0]], vocabularies of 10 and 12 tokens, width 8, two heads, one
    layer: logits of shape [[4, 12]]. *)
Lemma Transformer_forward_logits_witness :
  let args := {| Args.vocab_enc_size := 10; Args.vocab_dec_size := 12; Args.d_model := 8;
                 Args.nums_head := 2; Args.n_layers := 1; Args.dropout := (1 / 10)%R;
                 Args.feedforward_dim := 32 |} in
  let r := {| Draws.emb_enc := fun _ _ => 1%R; Draws.w_enc := fun _ _ _ _ _ => 1%R;
              Draws.b_enc := fun _ _ _ => 0%R; Draws.emb_dec := fun _ _ => 1%R;
              Draws.w_dec := fun _ _ _ _ _ => 1%R; Draws.b_dec := fun _ _ _ => 0%R;
              Draws.w_proj := fun _ _ => 1%R; Draws.b_proj := fun _ => 0%R |} in
  let md := {| Modes.enc_pos := Eval; Modes.enc_layer := fun _ => Eval;
               Modes.dec_pos := Eval; Modes.dec_layer := fun _ => Eval |} in
  exists self,
    Transformer.init args r = Ok self /\
    (exists logits,
        Transformer.forward self md [[1; 2; 3; 0]] [[4; 5; 0; 0]] = Ok logits /\
        rect (1 * 4) 12 logits) /\
    Transformer.forward self md [[1; 2; 3; 0]] [[4; 5; 0]] = Raise RuntimeError.
Proof.
  intros args r md.
  destruct (@Transformer_forward_logits args r 4) as (self & Hinit & Hfw);
    [reflexivity | lia | cbn; lia | exists 4; reflexivity | cbn; lra |].
  exists self. split; [exact Hinit |].
  assert (Hsrc : rect 1 4 [[1; 2; 3; 0]]) by (split; [reflexivity | repeat constructor]).
  assert (Ht4 : rect 1 4 [[4; 5; 0; 0]]) by (split; [reflexivity | repeat constructor]).
  assert (Ht3 : rect 1 3 [[4; 5; 0]]) by (split; [reflexivity | repeat constructor]).
  assert (Hrs : Forall (Forall (fun i => i < Args.vocab_enc_size args)) [[1; 2; 3; 0]])
    by (repeat constructor).
  assert (Hr4 : Forall (Forall (fun i => i < Args.vocab_dec_size args)) [[4; 5; 0; 0]])
    by (repeat constructor).
  assert (Hr3 : Forall (Forall (fun i => i < Args.vocab_dec_size args)) [[4; 5; 0]])
    by (repeat constructor).
  assert (Hb : 1 <= default_max_len) by (unfold default_max_len; lia).
  split.
  - destruct (Hfw md 1 4 4 [[1; 2; 3; 0]] [[4; 5; 0; 0]]
                ltac:(lia) Hb ltac:(lia) ltac:(lia) Hsrc Ht4 Hrs Hr4) as [Hok _].
    now apply Hok.
  - destruct (Hfw md 1 3 4 [[1; 2; 3; 0]] [[4; 5; 0]]
                ltac:(lia) Hb ltac:(lia) ltac:(lia) Hsrc Ht3 Hrs Hr3) as [_ Hraise].
    apply Hraise; [lia | cbn; lia].
Defined.

(** ** Merging heads and splitting again *)

(** X15.  Merging a context of shape [[batch, heads, seq, d_k]] and
    splitting the merged tensor into heads again gives back the context:
    the merged tensor has shape [[batch, seq, heads * d_k]] and no entry is
    moved to another head or position. *)
Theorem merge_split_heads_roundtrip :
  forall (b h s dk : nat) (c : tensor4),
    0 < b -> 0 < h -> 0 < dk ->
    shape4 b h s dk c ->
    exists y : tensor3,
      MultiheadAttention.merge_heads b (h * dk) c = Ok y /\
      shape3 b s (h * dk) y /\
      MultiheadAttention.split_heads (length y) h dk y = Ok c.
Proof.
  intros b h s dk c Hb Hh Hdk Hc.
  unfold MultiheadAttention.merge_heads.
  set (t := map (fun m => transpose (ncols m) m) c).
  assert (Ht : shape4 b s h dk t).
  { destruct Hc as [Hl Hc']. split; [unfold t; now rewrite length_map |].
    apply Forall_map. eapply Forall_impl; [| exact Hc']. intros m Hm.
    destruct h as [| h']; [lia |].
    rewrite (ncols_rect (shape3_rect Hm)). now apply shape3_transpose. }
  assert (Hback : transpose_1_2 h t = c).
  { unfold transpose_1_2, t. rewrite map_map.
    rewrite <- (map_id c) at 2. apply map_ext_Forall.
    destruct Hc as [_ Hc']. eapply Forall_impl; [| exact Hc']. intros m Hm.
    pose proof (shape3_rect Hm) as Hr.
    destruct h as [| h']; [lia |].
    rewrite (ncols_rect Hr). now apply transpose_involutive. }
  destruct (grid_concat Ht) as [Hl1 Hf1].
  assert (H1 : grid (b * s) h (fun r : vector => length r = dk) (concat t))
    by (split; assumption).
  destruct (grid_concat H1) as [Hl2 Hf2].
  assert (H2 : rect (b * s * h) dk (concat (concat t))) by (split; assumption).
  pose proof (rect_concat_length H2) as Hflat.
  set (flat := concat (concat (concat t))).
  change (length flat = b * s * h * dk) in Hflat.
  set (y := chunks b s (chunks (b * s) (h * dk) flat)).
  assert (Hrows : rect (b * s) (h * dk) (chunks (b * s) (h * dk) flat))
    by (apply chunks_rect; rewrite Hflat; ring).
  assert (Hy : shape3 b s (h * dk) y) by (apply shape3_chunks, Hrows).
  assert (Hmerge : reshape3 b (h * dk) t = Ok y).
  { unfold reshape3. fold flat.
    destruct (Nat.eqb_spec (b * (h * dk)) 0) as [E | _]; [lia |].
    replace (length flat) with (s * (b * (h * dk))) by (rewrite Hflat; ring).
    rewrite Nat.Div0.mod_mul, Nat.div_mul by lia. reflexivity. }
  exists y. split; [exact Hmerge |]. split; [exact Hy |].
  assert (Hlen : length y = b) by apply Hy. rewrite Hlen.
  assert (Hcat : concat (concat y) = flat).
  { unfold y. rewrite !concat_chunks; try reflexivity;
      rewrite ?chunks_length; try reflexivity.
    rewrite Hflat; ring. }
  unfold MultiheadAttention.split_heads, view4. rewrite Hcat.
  destruct (Nat.eqb_spec (b * h * dk) 0) as [E | _]; [lia |].
  replace (length flat) with (s * (b * h * dk)) by (rewrite Hflat; ring).
  rewrite Nat.Div0.mod_mul, Nat.div_mul by lia. cbn [Nat.eqb].
  cbv beta iota delta [bind]. f_equal. rewrite <- Hback. f_equal.
  unfold flat.
  rewrite (chunks_concat_rect H2).
  assert (H1r : rect (b * s) h (concat t)) by (now apply grid_rect in H1).
  rewrite (chunks_concat_rect H1r).
  apply chunks_concat_rect. apply grid_rect with (P := rect h dk). exact Ht.
Qed.

Lemma merge_split_heads_roundtrip_witness :
  exists y : tensor3,
    MultiheadAttention.merge_heads 1 (2 * 2) [[[[1; 2]; [5; 6]]; [[3; 4]; [7; 8]]]]%R = Ok y /\
    shape3 1 2 (2 * 2) y /\
    MultiheadAttention.split_heads (length y) 2 2 y =
      Ok [[[[1; 2]; [5; 6]]; [[3; 4]; [7; 8]]]]%R.
Proof.
  apply (@merge_split_heads_roundtrip 1 2 2 2); try lia.
  split; [reflexivity |]. repeat constructor.
Defined.

(** ** Heads as slices of the model dimension *)

Section SliceFacts.
Context {X : Type}.

Lemma cons_cols_nth (r : list X) (t : list (list X)) (j : nat) (d : X) :
  length r = length t -> j < length r ->
  nth j (cons_cols r t) [] = nth j r d :: nth j t [].
Proof.
  revert t j; induction r as [| a r IH]; intros [| c t] j Hl Hj; simpl in *; try lia.
  destruct j as [| j]; [reflexivity |]. apply IH; lia.
Qed.

Lemma transpose_nth (n c : nat) (m : list (list X)) (i j : nat) (d : X) :
  rect n c m -> i < n -> j < c ->
  nth i (nth j (transpose c m) []) d = nth j (nth i m []) d.
Proof.
  revert n i; induction m as [| r m IH]; intros n i Hm Hi Hj; apply rect_inv in Hm.
  - lia.
  - destruct Hm as (n' & -> & Hr & Hm). cbn [transpose].
    pose proof (transpose_rect Hm) as [Hlt _].
    rewrite (cons_cols_nth _ _ d) by lia.
    destruct i as [| i]; [reflexivity |]. cbn [nth]. apply (IH n'); [exact Hm | lia | lia].
Qed.

Lemma nth_concat_slice (k : nat) (l : list (list X)) (j : nat) :
  Forall (fun p => length p = k) l -> j < length l ->
  firstn k (skipn (j * k) (concat l)) = nth j l [].
Proof.
  intros Hl; revert j; induction Hl as [| p l Hp _ IH]; intros j Hj; simpl in Hj; [lia |].
  destruct j as [| j]; cbn [concat nth].
  - cbn [Nat.mul skipn]. rewrite firstn_app, Hp, Nat.sub_diag, firstn_all2 by lia.
    cbn [firstn]. apply app_nil_r.
  - replace (S j * k) with (j * k + k) by lia.
    rewrite <- skipn_skipn.
    replace (skipn k (p ++ concat l)) with (concat l).
    + apply IH. lia.
    + rewrite skipn_app, Hp, Nat.sub_diag, skipn_all2 by lia. reflexivity.
Qed.

Lemma chunks_concat_pieces (n h k : nat) (l : list (list (list X))) :
  grid n h (fun p => length p = k) l ->
  chunks n (h * k) (concat (concat l)) = map (@concat X) l.
Proof.
  intros [Hlen Hl]. subst n. induction Hl as [| p l [Hph Hpk] _ IH]; [reflexivity |].
  cbn [length chunks concat map]. rewrite concat_app.
  assert (Hcp : length (concat p) = h * k)
    by (apply rect_concat_length; split; assumption).
  rewrite firstn_app, skipn_app, Hcp, Nat.sub_diag, firstn_all2, skipn_all2 by lia.
  cbn [firstn skipn app]. rewrite app_nil_r. now rewrite IH.
Qed.
End SliceFacts.

Lemma chunks_map {X Y : Type} (f : X -> Y) (n k : nat) (l : list X) :
  chunks n k (map f l) = map (map f) (chunks n k l).
Proof.
  revert l; induction n as [| n IH]; intros l; [reflexivity |].
  cbn [chunks map]. now rewrite firstn_map, skipn_map, IH.
Qed.

(** X16.  Splitting into heads cuts the model dimension into consecutive
    slices: row [i] of head [h] of batch element [b] is the slice of columns
    [h * d_k .. (h + 1) * d_k - 1] of position [i] of the projected tensor. *)
Theorem split_heads_slices :
  forall (b s h dk : nat) (y : tensor3),
    0 < b -> 0 < h -> 0 < dk ->
    shape3 b s (h * dk) y ->
    exists t : tensor4,
      MultiheadAttention.split_heads (length y) h dk y = Ok t /\
      forall ib ih i, ib < b -> ih < h -> i < s ->
        row4 t ib ih i = firstn dk (skipn (ih * dk) (nth i (nth ib y []) [])).
Proof.
  intros b s h dk y Hb Hh Hdk Hy.
  assert (Hlen : length y = b) by apply Hy. rewrite Hlen.
  destruct (view4_Ok Hb Hh Hdk Hy) as (v & Hview & Hv & Hflat).
  exists (transpose_1_2 h v). split.
  { unfold MultiheadAttention.split_heads. now rewrite Hview. }
  assert (Hyv : y = map (map (@concat R)) v).
  { destruct (grid_concat Hv) as [Hl1 Hf1].
    assert (H1 : grid (b * s) h (fun r : vector => length r = dk) (concat v))
      by (split; assumption).
    rewrite <- (chunks_concat_rect (shape3_rect Hy)).
    rewrite <- (chunks_concat_rect (shape3_concat Hy)).
    rewrite <- Hflat, (chunks_concat_pieces H1), chunks_map.
    f_equal. apply chunks_concat_rect. apply grid_rect with (P := rect h dk). exact Hv. }
  intros ib ih i Hib Hih Hi.
  pose proof (grid_rect Hv) as [Hlv _].
  destruct Hv as [_ Hfv].
  pose proof (proj1 (Forall_nth _ v) Hfv ib [] ltac:(lia)) as Hvb.
  cbv beta in Hvb.
  unfold row4, head4, transpose_1_2.
  rewrite (nth_map_lt _ v [] []) by lia.
  rewrite (transpose_nth [] (shape3_rect Hvb) Hi Hih).
  rewrite Hyv.
  rewrite (nth_map_lt _ v [] []) by lia.
  rewrite (nth_map_lt _ (nth ib v []) [] []) by (destruct Hvb; lia).
  destruct Hvb as [Hls Hrows].
  pose proof (proj1 (Forall_nth _ _) Hrows i [] ltac:(lia)) as [Hph Hpk].
  symmetry. apply nth_concat_slice; [exact Hpk | lia].
Qed.

Lemma split_heads_slices_witness :
  exists t : tensor4,
    MultiheadAttention.split_heads (length [[[1; 2; 3; 4]; [5; 6; 7; 8]]]%R) 2 2
                                   [[[1; 2; 3; 4]; [5; 6; 7; 8]]]%R = Ok t /\
    forall ib ih i, ib < 1 -> ih < 2 -> i < 2 ->
      row4 t ib ih i =
      firstn 2 (skipn (ih * 2) (nth i (nth ib [[[1; 2; 3; 4]; [5; 6; 7; 8]]]%R []) [])).
Proof.
  apply (@split_heads_slices 1 2 2 2); try lia.
  split; [reflexivity |]. repeat constructor.
Defined.

(** ** Dropout in an encoder layer *)

Lemma Dropout_drop_one (k : bool) (v : R) : Dropout.drop 1 k v = 0%R.
Proof.
  unfold Dropout.drop. destruct (Req_dec_T 1 1) as [_ | H]; [reflexivity | now elim H].
Qed.

Lemma softmax_single (s : R) : softmax [s] = [1%R].
Proof.
  unfold softmax, sum. simpl. f_equal.
  pose proof (exp_pos s). field. lra.
Qed.

Lemma PositionalEncoding_init_dropout d p max_len self :
  PositionalEncoding.init d p max_len = Ok self ->
  PositionalEncoding.dropout self = {| Dropout.p := p |}.
Proof.
  unfold PositionalEncoding.init. intros H.
  apply bind_Ok in H. destruct H as (drop & Hdrop & H).
  destruct (Dropout_init_range _ Hdrop) as [Hp Hrange].
  rewrite (Dropout_init_Ok Hrange) in Hdrop. injection Hdrop as <-.
  destruct (d =? 0); [discriminate |].
  apply bind_Ok in H. destruct H as (pe1 & _ & H).
  apply bind_Ok in H. destruct H as (pe2 & _ & H).
  now injection H as <-.
Qed.

(** With identity projections, one head and one key the attention module
    returns the normalization of [context + query = 2 * query]. *)
Lemma MultiheadAttention_forward_identity (p : R) (m : MultiheadAttention.t) :
  MultiheadAttention.init 2 1 p (fun _ r c => if r =? c then 1%R else 0%R) = Ok m ->
  MultiheadAttention.forward m [[[1; 0]]]%R [[[1; 0]]]%R [[[1; 0]]]%R [[[false]]] =
  Ok [[LayerNorm.normalize [2; 0]%R]].
Proof.
  intros H. injection H as <-.
  unfold MultiheadAttention.forward. simpl.
  rewrite !softmax_single. unfold dot, sum, tabulate. simpl.
  match goal with
  | |- LayerNorm.forward 2 [[[?a; ?b]]] = _ =>
      replace a with 2%R by ring; replace b with 0%R by ring
  end.
  reflexivity.
Qed.

Lemma normalize_2_0_neq_1_0 :
  LayerNorm.normalize [2; 0]%R <> LayerNorm.normalize [1; 0]%R.
Proof.
  unfold LayerNorm.normalize, LayerNorm.var, LayerNorm.mean, sum. simpl.
  intros H. injection H as H _.
  match type of H with
  | (?n1 / sqrt ?x * 1 + 0 = ?n2 / sqrt ?y * 1 + 0)%R =>
      replace x with (1 + LayerNorm.eps)%R in H by field;
      replace y with (/ 4 + LayerNorm.eps)%R in H by field;
      replace n1 with 1%R in H by field;
      replace n2 with (/ 2)%R in H by field
  end.
  assert (Heps : (0 < LayerNorm.eps)%R) by (unfold LayerNorm.eps; lra).
  set (a := sqrt (1 + LayerNorm.eps)) in *.
  set (b := sqrt (/ 4 + LayerNorm.eps)) in *.
  assert (Ha : (0 < a)%R) by (apply sqrt_lt_R0; lra).
  assert (Hb : (0 < b)%R) by (apply sqrt_lt_R0; lra).
  assert (Haa : (a * a = 1 + LayerNorm.eps)%R) by (apply sqrt_sqrt; lra).
  assert (Hbb : (b * b = / 4 + LayerNorm.eps)%R) by (apply sqrt_sqrt; lra).
  assert (E : (2 * b = a)%R).
  { apply Rmult_eq_reg_r with (/ a * / b)%R.
    - transitivity (2 * / a * (b * / b))%R; [ring |].
      transitivity (a * / a * / b)%R; [| ring].
      rewrite !Rinv_r by lra. unfold Rdiv in H. lra.
    - apply Rmult_integral_contrapositive_currified; apply Rinv_neq_0_compat; lra. }
  assert (E2 : (a * a = 4 * (b * b))%R) by (rewrite <- E; ring).
  lra.
Qed.

(** C5 fails on the code, by a slip.  An encoder layer hands its dropout
    probability to its attention module and to its feed-forward block.  The
    feed-forward block applies it between its linear layers, as the
    positional encoding applies its own, but the attention module only
    stores it: its forward pass is the same for every probability.  A
    decoder layer builds both attention modules with probability zero and
    hands the configured one to its feed-forward block only.  On the encoder
    layer built with probability one, identity projections and the input
    [[[1, 0]]], the attention module returns the normalization of
    [context + query = [2, 0]], the result of the layer built with
    probability zero, where a dropout of probability one on the attention
    weights or on the projected context leaves the residual [[1, 0]] alone;
    the feed-forward block of the same layer does lose its hidden
    activations in training mode and returns the bias of its second linear
    layer, [[1, 1]], where evaluation mode gives [[3, 3]]. *)
Theorem attention_dropout_not_applied :
  (forall d nhead p ffd w bv layer,
      TransformerEncoderLayer.init d nhead p ffd w bv = Ok layer ->
      MultiheadAttention.dropout (TransformerEncoderLayer.self_attn layer) = p /\
      Dropout.p (FeedForWard.fc_1 (TransformerEncoderLayer.feedforward layer)) = p /\
      (forall p' layer',
          TransformerEncoderLayer.init d nhead p' ffd w bv = Ok layer' ->
          forall query key value attn_mask,
            MultiheadAttention.forward (TransformerEncoderLayer.self_attn layer)
                                       query key value attn_mask =
            MultiheadAttention.forward (TransformerEncoderLayer.self_attn layer')
                                       query key value attn_mask) /\
      (forall keep inputs,
          FeedForWard.fc (TransformerEncoderLayer.feedforward layer) (Train keep) inputs =
          (h <- Linear.forward
                  (FeedForWard.fc_0 (TransformerEncoderLayer.feedforward layer)) inputs ;;
           Linear.forward
             (FeedForWard.fc_3 (TransformerEncoderLayer.feedforward layer))
             (ReLU (imap (fun b => imap (fun s => imap (fun j v =>
                            Dropout.drop p (keep b s j) v))) h))))) /\
  (forall d nhead ffd p w bv layer,
      TransformerDecoderLayer.init d nhead ffd p w bv = Ok layer ->
      MultiheadAttention.dropout (TransformerDecoderLayer.dec_self_attn layer) = 0%R /\
      MultiheadAttention.dropout (TransformerDecoderLayer.dec_enc_attn layer) = 0%R /\
      Dropout.p (FeedForWard.fc_1 (TransformerDecoderLayer.feedforward layer)) = p) /\
  (forall d p max_len self,
      PositionalEncoding.init d p max_len = Ok self ->
      forall keep x,
        PositionalEncoding.forward self (Train keep) x =
        (x' <- iadd3 x (firstn (length x) (PositionalEncoding.pe self)) ;;
         Ok (imap (fun b => imap (fun s => imap (fun j v =>
                     Dropout.drop p (keep b s j) v))) x'))) /\
  (let W := fun (blk _ r c : nat) =>
              match blk with
              | 0 => if r =? c then 1%R else 0%R
              | _ => 1%R
              end in
   let B := fun _ _ : nat => 1%R in
   exists layer layer0,
     TransformerEncoderLayer.init 2 1 1%R 1 W B = Ok layer /\
     TransformerEncoderLayer.init 2 1 0%R 1 W B = Ok layer0 /\
     MultiheadAttention.dropout (TransformerEncoderLayer.self_attn layer) = 1%R /\
     MultiheadAttention.forward (TransformerEncoderLayer.self_attn layer)
       [[[1; 0]]]%R [[[1; 0]]]%R [[[1; 0]]]%R [[[false]]] =
     Ok [[LayerNorm.normalize [2; 0]%R]] /\
     MultiheadAttention.forward (TransformerEncoderLayer.self_attn layer0)
       [[[1; 0]]]%R [[[1; 0]]]%R [[[1; 0]]]%R [[[false]]] =
     Ok [[LayerNorm.normalize [2; 0]%R]] /\
     LayerNorm.normalize [2; 0]%R <> LayerNorm.normalize [1; 0]%R /\
     (forall keep,
         FeedForWard.fc (TransformerEncoderLayer.feedforward layer) (Train keep)
                        [[[1; 0]]]%R = Ok [[[1; 1]]]%R) /\
     FeedForWard.fc (TransformerEncoderLayer.feedforward layer) Eval [[[1; 0]]]%R =
     Ok [[[3; 3]]]%R).
Proof.
  split; [| split; [| split]].
  - intros d nhead p ffd w bv layer Hinit.
    destruct (TransformerEncoderLayer_init_fields _ _ _ _ _ _ Hinit) as [Ha Hff].
    destruct (MultiheadAttention_init_fields _ _ _ _ Ha) as (_ & _ & _ & _ & Hp & _).
    destruct (FeedForWard_init_fields _ _ _ _ _ Hff) as (_ & _ & _ & Hpf & _).
    split; [exact Hp |]. split; [exact Hpf |]. split.
    + intros p' layer' Hinit' query key value attn_mask.
      destruct (TransformerEncoderLayer_init_fields _ _ _ _ _ _ Hinit') as [Ha' _].
      now apply MultiheadAttention_forward_same_weights with d nhead p p' (w 0).
    + intros keep inputs. unfold FeedForWard.fc, Dropout.forward. now rewrite Hpf.
  - intros d nhead ffd p w bv layer Hinit.
    destruct (TransformerDecoderLayer_init_fields _ _ _ _ _ _ Hinit) as (H1 & H2 & H3).
    destruct (MultiheadAttention_init_fields _ _ _ _ H1) as (_ & _ & _ & _ & Hp1 & _).
    destruct (MultiheadAttention_init_fields _ _ _ _ H2) as (_ & _ & _ & _ & Hp2 & _).
    destruct (FeedForWard_init_fields _ _ _ _ _ H3) as (_ & _ & _ & Hp3 & _).
    auto.
  - intros d p max_len self Hinit keep x.
    unfold PositionalEncoding.forward.
    now rewrite (PositionalEncoding_init_dropout _ _ _ Hinit).
  - intros W B.
    destruct (@TransformerEncoderLayer_init_Ok 2 1 1 1%R W B) as (layer & Hinit);
      [lia | lia | exists 2; reflexivity | lra |].
    destruct (@TransformerEncoderLayer_init_Ok 2 1 1 0%R W B) as (layer0 & Hinit0);
      [lia | lia | exists 2; reflexivity | lra |].
    exists layer, layer0.
    destruct (TransformerEncoderLayer_init_fields _ _ _ _ _ _ Hinit) as [Ha Hff].
    destruct (TransformerEncoderLayer_init_fields _ _ _ _ _ _ Hinit0) as [Ha0 _].
    destruct (MultiheadAttention_init_fields _ _ _ _ Ha) as (_ & _ & _ & _ & Hp & _).
    destruct (FeedForWard_init_fields _ _ _ _ _ Hff) as (_ & Hfc0 & Hfc3 & Hpf & _).
    split; [exact Hinit |]. split; [exact Hinit0 |]. split; [exact Hp |].
    split; [exact (MultiheadAttention_forward_identity Ha) |].
    split; [exact (MultiheadAttention_forward_identity Ha0) |].
    split; [exact normalize_2_0_neq_1_0 |].
    subst W B. cbv beta iota in Hfc0, Hfc3.
    split.
    + intros keep. unfold FeedForWard.fc, Dropout.forward.
      rewrite Hfc0, Hfc3, Hpf. simpl.
      rewrite Dropout_drop_one. unfold relu. rewrite Rmax_left by lra.
      unfold Linear.forward. simpl.
      unfold Linear.apply_row, Linear.init, tabulate, dot, sum. simpl.
      match goal with
      | |- Ok [[[?a; ?b]]] = _ => replace a with 1%R by ring; replace b with 1%R by ring
      end.
      reflexivity.
    + unfold FeedForWard.fc, Dropout.forward.
      rewrite Hfc0, Hfc3. simpl. unfold relu, dot, sum. simpl.
      rewrite Rmax_right by lra. unfold Linear.forward. simpl.
      unfold Linear.apply_row, Linear.init, tabulate, dot, sum. simpl.
      match goal with
      | |- Ok [[[?a; ?b]]] = _ => replace a with 3%R by ring; replace b with 3%R by ring
      end.
      reflexivity.
Qed.

(** An encoder layer of width two built with probability [1/2], beside the
    layer built from the same draws with probability zero. *)
Lemma attention_dropout_not_applied_witness :
  exists layer layer',
    TransformerEncoderLayer.init 2 1 (1 / 2)%R 1 (fun _ _ _ _ => 1%R) (fun _ _ => 0%R) =
    Ok layer /\
    TransformerEncoderLayer.init 2 1 0%R 1 (fun _ _ _ _ => 1%R) (fun _ _ => 0%R) =
    Ok layer' /\
    MultiheadAttention.dropout (TransformerEncoderLayer.self_attn layer) = (1 / 2)%R /\
    Dropout.p (FeedForWard.fc_1 (TransformerEncoderLayer.feedforward layer)) = (1 / 2)%R /\
    forall query key value attn_mask,
      MultiheadAttention.forward (TransformerEncoderLayer.self_attn layer)
                                 query key value attn_mask =
      MultiheadAttention.forward (TransformerEncoderLayer.self_attn layer')
                                 query key value attn_mask.
Proof.
  destruct attention_dropout_not_applied as (Hgen & _ & _ & _).
  destruct (@TransformerEncoderLayer_init_Ok 2 1 1 (1 / 2)%R
              (fun _ _ _ _ => 1%R) (fun _ _ => 0%R)) as (layer & Hinit);
    [lia | lia | exists 2; reflexivity | lra |].
  destruct (@TransformerEncoderLayer_init_Ok 2 1 1 0%R
              (fun _ _ _ _ => 1%R) (fun _ _ => 0%R)) as (layer' & Hinit');
    [lia | lia | exists 2; reflexivity | lra |].
  exists layer, layer'.
  destruct (Hgen _ _ _ _ _ _ _ Hinit) as (Hp & Hpf & Hsame & _).
  split; [exact Hinit |]. split; [exact Hinit' |].
  split; [exact Hp |]. split; [exact Hpf |].
  exact (Hsame _ _ Hinit').
Defined.
